(** * The UDP binding of the QUIC stack (src/core/binding.c)

    A shallow embedding of the binding layer: the Retry nonce derivation,
    the stateless-reset length and token, the Retry admission decision, the
    listener registry, the stateless-operation cache, connection creation,
    subchain delivery and the receive dispatcher.

    Conventions.  A [uint8_t], [uint16_t], [uint32_t] or [uint64_t] is a [Z]
    whose wrap-around is written out with [wrap].  A byte buffer is a
    [list Z] of bytes.  Heap objects reached through pointers (stateless
    contexts, connections) live in a [gmap] keyed by their address.
    Constants and helpers that binding.c takes from other files are the
    fields of the class [Platform]; the facts the code relies on about them
    are hypotheses of the theorems that need them.

    Part I is the model, Part II the properties.  Part III models more of
    the file (the listener lookup and the clean-up of a binding), Part IV
    gives further properties of the registry, the cache and the
    delivery. *)

From stdpp Require Import base tactics option list numbers sorting gmap strings.

Local Open Scope Z_scope.

(** * Part I: the model *)

(** ** Machine integers *)

Definition wrap (bits : Z) (x : Z) : Z := x mod 2 ^ bits.
Definition u8 (x : Z) : Z := wrap 8 x.
Definition u16 (x : Z) : Z := wrap 16 x.
Definition u32 (x : Z) : Z := wrap 32 x.
Definition u64 (x : Z) : Z := wrap 64 x.

Definition UINT16_MAX : Z := 65535.

(** ** Byte buffers *)

(** [QuicCopyMemory(Dst, Src, n)]: the first [n] bytes of [Dst] become the
    first [n] bytes of [Src]; the rest of [Dst] stays. *)
Definition QuicCopyMemory (Dst Src : list Z) (n : nat) : list Z :=
  take n Src ++ drop n Dst.

(** [QuicZeroMemory(Dst, sizeof Dst)]. *)
Definition QuicZeroMemory (Dst : list Z) : list Z :=
  replicate (length Dst) 0.

(** [Buf[i]], reading 0 outside the buffer. *)
Definition byte_at (Buf : list Z) (i : nat) : Z := default 0 (Buf !! i).

(** ** Types shared with other files *)

(** An object address. *)
Definition ptr := positive.

(** [QUIC_ADDR]: the raw bytes of the socket address. *)
Definition QUIC_ADDR := list Z.

(** [QUIC_RETRY_TOKEN_CONTENTS]. *)
Record QUIC_RETRY_TOKEN_CONTENTS := {
  Token_Timestamp : Z;              (* Authenticated.Timestamp *)
  Token_RemoteAddress : QUIC_ADDR;  (* Encrypted.RemoteAddress *)
  Token_OrigConnId : list Z;        (* Encrypted.OrigConnId *)
  Token_OrigConnIdLength : Z;       (* Encrypted.OrigConnIdLength *)
  Token_EncryptionTag : list Z
}.

(** [QUIC_RECV_PACKET]: the per-datagram metadata stored next to the
    datagram, with the header fields the binding reads through
    [Packet->Invariant], [Packet->LH] and [Packet->SH]. *)
Record QUIC_RECV_PACKET := {
  Packet_Buffer : list Z;
  Packet_BufferLength : Z;          (* uint16_t *)
  ValidatedHeaderInv : bool;
  IsShortHeader : bool;
  ValidToken : bool;
  DestCid : list Z;
  DestCidLen : Z;                   (* uint8_t *)
  SourceCid : option (list Z);      (* NULL for a short header *)
  SourceCidLen : Z;
  Invariant_IsLongHeader : bool;
  Invariant_Version : Z;            (* Invariant->LONG_HDR.Version *)
  LH_Type : Z;                      (* LH->Type *)
  SH_KeyPhase : bool                (* SH->KeyPhase *)
}.

(** The packet after [QuicZeroMemory(Packet, sizeof(QUIC_RECV_PACKET))] and
    the two assignments of [Buffer] and [BufferLength]. *)
Definition zeroed_packet (Buffer : list Z) (BufferLength : Z) : QUIC_RECV_PACKET :=
  {| Packet_Buffer := Buffer; Packet_BufferLength := BufferLength;
     ValidatedHeaderInv := false; IsShortHeader := false; ValidToken := false;
     DestCid := []; DestCidLen := 0; SourceCid := None; SourceCidLen := 0;
     Invariant_IsLongHeader := false; Invariant_Version := 0; LH_Type := 0;
     SH_KeyPhase := false |}.

Definition set_ValidToken (v : bool) (P : QUIC_RECV_PACKET) : QUIC_RECV_PACKET :=
  {| Packet_Buffer := Packet_Buffer P; Packet_BufferLength := Packet_BufferLength P;
     ValidatedHeaderInv := ValidatedHeaderInv P; IsShortHeader := IsShortHeader P;
     ValidToken := v;
     DestCid := DestCid P; DestCidLen := DestCidLen P;
     SourceCid := SourceCid P; SourceCidLen := SourceCidLen P;
     Invariant_IsLongHeader := Invariant_IsLongHeader P;
     Invariant_Version := Invariant_Version P; LH_Type := LH_Type P;
     SH_KeyPhase := SH_KeyPhase P |}.

(** ** What binding.c takes from the rest of the library

    Constants of the headers, and helpers implemented in the platform
    layer, packet.c, session.c and the crypto layer. *)
Class Platform := {
  QUIC_IV_LENGTH : nat;
  QUIC_MIN_STATELESS_RESET_PACKET_LENGTH : Z;
  QUIC_RECOMMENDED_STATELESS_RESET_PACKET_LENGTH : Z;
  QUIC_STATELESS_RESET_TOKEN_LENGTH : nat;
  QUIC_HASH_SHA256_SIZE : nat;
  QUIC_STATELESS_OPERATION_EXPIRATION_MS : Z;
  QUIC_MAX_BINDING_STATELESS_OPERATIONS : Z;
  QUIC_VERSION_RESERVED_MASK : Z;
  QUIC_VERSION_RESERVED : Z;
  QUIC_VERSION_VER_NEG : Z;
  QUIC_INITIAL : Z;
  (** [sizeof(QUIC_RETRY_TOKEN_CONTENTS)] and
      [sizeof(Token.Encrypted.OrigConnId)]. *)
  sizeof_QUIC_RETRY_TOKEN_CONTENTS : Z;
  sizeof_OrigConnId : Z;
  QuicAddrGetFamily : QUIC_ADDR → Z;
  QuicAddrCompareIp : QUIC_ADDR → QUIC_ADDR → bool;
  QuicAddrCompare : QUIC_ADDR → QUIC_ADDR → bool;
  QuicAddrHash : QUIC_ADDR → Z;
  (** The time from the clock reading [T1] to the reading [T2], in
      milliseconds, as a [uint32_t]. *)
  QuicTimeDiff32 : Z → Z → Z;
  (** On the ALPN lists of two sessions, given by their addresses. *)
  QuicSessionHasAlpnOverlap : ptr → ptr → bool;
  (** [QuicHashCompute] on the hash object made by
      [QuicHashCreate(QUIC_HASH_SHA256, Salt, ...)]: the keyed SHA-256 hash
      (HMAC) of the input under [Salt], [QUIC_HASH_SHA256_SIZE] bytes, or
      [None] for a failure status. *)
  QuicHashCompute : list Z → list Z → option (list Z);
  (** AEAD-opens the token with the current stateless-retry key; [None]
      when it returns FALSE. *)
  QuicRetryTokenDecrypt : QUIC_RECV_PACKET → list Z → option QUIC_RETRY_TOKEN_CONTENTS;
  (** Parses the version-independent header and fills the packet; [None]
      when it returns FALSE.  The flag is [IsBindingShared]. *)
  QuicPacketValidateInvariant : bool → QUIC_RECV_PACKET → option QUIC_RECV_PACKET;
  (** Validates a version-1 long header; gives the token on success. *)
  QuicPacketValidateLongHeaderV1 : QUIC_RECV_PACKET → option (QUIC_RECV_PACKET * list Z);
  QuicIsVersionSupported : Z → bool;
  (** The versions of the [switch] in QuicBindingDeliverDatagrams
      (DRAFT_27, DRAFT_28, DRAFT_29, MS_1). *)
  is_v1_format_version : Z → bool;
  QuicPacketIsHandshake : QUIC_RECV_PACKET → bool
}.

(** ** Retry nonce (QuicBindingProcessStatelessOperation, QUIC_OPER_TYPE_RETRY) *)

Section Nonce.
Context `{Platform}.

(** The rounds of
    [for (uint8_t i = sizeof(Iv); i < CidTotalLength; ++i)
       Iv[i % sizeof(Iv)] ^= NewDestCid[i];]
    [fold_iv n i] runs the [n] rounds that start at index [i]. *)
Fixpoint fold_iv (n : nat) (i : nat) (NewDestCid Iv : list Z) : list Z :=
  match n with
  | O => Iv
  | S n' =>
      let k := (i mod QUIC_IV_LENGTH)%nat in
      fold_iv n' (S i) NewDestCid
        (<[k := Z.lxor (byte_at Iv k) (byte_at NewDestCid i)]> Iv)
  end.

(** The nonce block.  [Iv0] is the uninitialised stack buffer
    [uint8_t Iv[QUIC_IV_LENGTH]]. *)
Definition RetryIv (CidTotalLength : nat) (NewDestCid Iv0 : list Z) : list Z :=
  if decide (QUIC_IV_LENGTH ≤ CidTotalLength)%nat then
    fold_iv (CidTotalLength - QUIC_IV_LENGTH) QUIC_IV_LENGTH NewDestCid
      (QuicCopyMemory Iv0 NewDestCid QUIC_IV_LENGTH)
  else
    QuicCopyMemory (QuicZeroMemory Iv0) NewDestCid CidTotalLength.

(** The XOR of the bytes [NewDestCid[j]], [j < n], whose index is congruent
    to [k] modulo the nonce length: what "folded XOR-wise" means at
    position [k]. *)
Definition xor_class (n : nat) (NewDestCid : list Z) (k : nat) : Z :=
  foldr Z.lxor 0
    (byte_at NewDestCid <$>
       filter (λ j, (j mod QUIC_IV_LENGTH)%nat = k) (seq 0 n)).

(** The nonce as the specification words it for a short CID: the CID
    left-padded with zeros. *)
Definition left_padded (CidTotalLength : nat) (NewDestCid : list Z) : list Z :=
  replicate (QUIC_IV_LENGTH - CidTotalLength) 0 ++ take CidTotalLength NewDestCid.

(** The nonce as the code builds it for a short CID: the CID followed by
    zeros. *)
Definition right_padded (CidTotalLength : nat) (NewDestCid : list Z) : list Z :=
  take CidTotalLength NewDestCid ++ replicate (QUIC_IV_LENGTH - CidTotalLength) 0.

End Nonce.

(** ** Stateless reset length (QuicBindingProcessStatelessOperation,
    QUIC_OPER_TYPE_STATELESS_RESET) *)

Section ResetLength.
Context `{Platform}.

(** [uint8_t PacketLength] after the random draw [RandomByte], the shift,
    the addition and the clamp to the received length. *)
Definition StatelessResetPacketLength (RandomByte BufferLength : Z) : Z :=
  let PacketLength := u8 RandomByte in
  let PacketLength := Z.shiftr PacketLength 5 in
  let PacketLength := u8 (PacketLength + QUIC_RECOMMENDED_STATELESS_RESET_PACKET_LENGTH) in
  if decide (PacketLength >= BufferLength)
  then u8 (u8 BufferLength - 1)
  else PacketLength.

End ResetLength.

(** ** Objects of the binding *)

(** [QUIC_LISTENER], as far as the binding reads it. *)
Record QUIC_LISTENER := {
  Listener_Link : ptr;              (* the address of the listener *)
  Listener_LocalAddress : QUIC_ADDR;
  WildCard : bool;
  Listener_Session : ptr
}.

(** [QUIC_RECV_DATAGRAM] with its packet metadata
    ([QuicDataPathRecvDatagramToRecvPacket]).  The [Next] link is the list
    structure of a chain. *)
Record QUIC_RECV_DATAGRAM := {
  Datagram_Handle : ptr;            (* the address of the datagram *)
  Datagram_Buffer : list Z;
  Datagram_BufferLength : Z;        (* uint16_t *)
  Tuple_LocalAddress : QUIC_ADDR;
  Tuple_RemoteAddress : QUIC_ADDR;
  Datagram_Packet : QUIC_RECV_PACKET
}.

Definition set_Packet (P : QUIC_RECV_PACKET) (D : QUIC_RECV_DATAGRAM) : QUIC_RECV_DATAGRAM :=
  {| Datagram_Handle := Datagram_Handle D; Datagram_Buffer := Datagram_Buffer D;
     Datagram_BufferLength := Datagram_BufferLength D;
     Tuple_LocalAddress := Tuple_LocalAddress D;
     Tuple_RemoteAddress := Tuple_RemoteAddress D;
     Datagram_Packet := P |}.

(** The hook of the test datapath works on the datagram in place: what it
    leaves is the datagram at the same address. *)
Definition at_address (Handle : ptr) (D : QUIC_RECV_DATAGRAM) : QUIC_RECV_DATAGRAM :=
  {| Datagram_Handle := Handle; Datagram_Buffer := Datagram_Buffer D;
     Datagram_BufferLength := Datagram_BufferLength D;
     Tuple_LocalAddress := Tuple_LocalAddress D;
     Tuple_RemoteAddress := Tuple_RemoteAddress D;
     Datagram_Packet := Datagram_Packet D |}.

(** [QUIC_STATELESS_CONTEXT].  [Ctx_Datagram] is the chain that hangs from
    the [Datagram] pointer ([[]] for NULL). *)
Record QUIC_STATELESS_CONTEXT := {
  Ctx_Worker : ptr;
  Ctx_Datagram : list QUIC_RECV_DATAGRAM;
  Ctx_RemoteAddress : QUIC_ADDR;
  CreationTimeMs : Z;               (* uint32_t *)
  HasBindingRef : bool;
  IsProcessed : bool;
  IsExpired : bool
}.

Definition set_IsExpired (C : QUIC_STATELESS_CONTEXT) : QUIC_STATELESS_CONTEXT :=
  {| Ctx_Worker := Ctx_Worker C; Ctx_Datagram := Ctx_Datagram C;
     Ctx_RemoteAddress := Ctx_RemoteAddress C; CreationTimeMs := CreationTimeMs C;
     HasBindingRef := HasBindingRef C; IsProcessed := IsProcessed C;
     IsExpired := true |}.

(** [StatelessCtx->Datagram = NULL; StatelessCtx->IsProcessed = TRUE]. *)
Definition set_IsProcessed (C : QUIC_STATELESS_CONTEXT) : QUIC_STATELESS_CONTEXT :=
  {| Ctx_Worker := Ctx_Worker C; Ctx_Datagram := [];
     Ctx_RemoteAddress := Ctx_RemoteAddress C; CreationTimeMs := CreationTimeMs C;
     HasBindingRef := HasBindingRef C; IsProcessed := true;
     IsExpired := IsExpired C |}.

Inductive QUIC_OPERATION_TYPE :=
  | QUIC_OPER_TYPE_API_CALL
  | QUIC_OPER_TYPE_VERSION_NEGOTIATION
  | QUIC_OPER_TYPE_STATELESS_RESET
  | QUIC_OPER_TYPE_RETRY.

Inductive QUIC_API_TYPE :=
  | QUIC_API_TYPE_NONE
  | QUIC_API_TYPE_CONN_SHUTDOWN.

(** [QUIC_API_CONTEXT] with the CONN_SHUTDOWN arm. *)
Record QUIC_API_CONTEXT := {
  Api_Type : QUIC_API_TYPE;
  CONN_SHUTDOWN_Flags : Z;
  CONN_SHUTDOWN_ErrorCode : Z
}.

Definition QUIC_CONNECTION_SHUTDOWN_FLAG_SILENT : Z := 1.

(** [QUIC_OPERATION].  [API_CALL_Context] names the connection whose
    [BackupApiContext] the pointer [API_CALL.Context] refers to;
    [STATELESS_Context] is the stateless context of a stateless
    operation. *)
Record QUIC_OPERATION := {
  Oper_Type : QUIC_OPERATION_TYPE;
  FreeAfterProcess : bool;
  API_CALL_Context : option ptr;
  STATELESS_Context : option ptr
}.

(** A connection's operation queue holds operations by address: either the
    [BackUpOper] member of some connection, or an allocated operation. *)
Inductive OperRef :=
  | BackUpOperOf (Connection : ptr)
  | AllocatedOper (Oper : QUIC_OPERATION).

(** [QUIC_CONNECTION], as far as the binding touches it. *)
Record QUIC_CONNECTION := {
  Conn_RefCount : Z;
  Conn_Worker : option ptr;
  Paths0_Binding : bool;            (* Paths[0].Binding == this binding *)
  SourceCids_Next : option ptr;
  BackUpOperUsed : Z;               (* short *)
  BackUpOper : QUIC_OPERATION;
  BackupApiContext : QUIC_API_CONTEXT;
  Conn_OperQ : list OperRef;
  Conn_ReceiveQueue : list QUIC_RECV_DATAGRAM
}.

(** [QUIC_BINDING].  The hash table [StatelessOperTable] is the list of its
    entries, each with the signature it was inserted under; the lookup table
    of lookup.c is not part of this file, the results of its operations are
    inputs of the functions that call it. *)
Record QUIC_BINDING := {
  RefCount : Z;
  Exclusive : bool;
  ServerOwned : bool;
  Connected : bool;
  StatelessOperCount : Z;           (* uint32_t *)
  Listeners : list QUIC_LISTENER;
  StatelessOperTable : list (Z * ptr);
  StatelessOperList : list ptr;
  RandomReservedVersion : Z;        (* uint32_t *)
  ResetTokenHash : list Z           (* the key of the reset-token hash *)
}.

Definition set_Listeners (l : list QUIC_LISTENER) (B : QUIC_BINDING) : QUIC_BINDING :=
  {| RefCount := RefCount B; Exclusive := Exclusive B; ServerOwned := ServerOwned B;
     Connected := Connected B; StatelessOperCount := StatelessOperCount B;
     Listeners := l;
     StatelessOperTable := StatelessOperTable B; StatelessOperList := StatelessOperList B;
     RandomReservedVersion := RandomReservedVersion B; ResetTokenHash := ResetTokenHash B |}.

Definition set_StatelessOper (n : Z) (t : list (Z * ptr)) (l : list ptr)
    (B : QUIC_BINDING) : QUIC_BINDING :=
  {| RefCount := RefCount B; Exclusive := Exclusive B; ServerOwned := ServerOwned B;
     Connected := Connected B; StatelessOperCount := n;
     Listeners := Listeners B;
     StatelessOperTable := t; StatelessOperList := l;
     RandomReservedVersion := RandomReservedVersion B; ResetTokenHash := ResetTokenHash B |}.

Definition set_RefCount (n : Z) (B : QUIC_BINDING) : QUIC_BINDING :=
  {| RefCount := n; Exclusive := Exclusive B; ServerOwned := ServerOwned B;
     Connected := Connected B; StatelessOperCount := StatelessOperCount B;
     Listeners := Listeners B;
     StatelessOperTable := StatelessOperTable B; StatelessOperList := StatelessOperList B;
     RandomReservedVersion := RandomReservedVersion B; ResetTokenHash := ResetTokenHash B |}.

(** [MsQuicLib] and [QuicTotalMemory], as far as the binding reads them. *)
Record QUIC_LIBRARY := {
  RetryMemoryLimit : Z;             (* Settings.RetryMemoryLimit, uint16_t *)
  CurrentHandshakeMemoryUsage : Z;  (* uint64_t *)
  QuicTotalMemory : Z;              (* uint64_t *)
  CidTotalLength : nat              (* uint8_t *)
}.

(** ** The state the binding's functions run on *)

Record State := {
  Binding : QUIC_BINDING;
  (** The stateless contexts allocated from the workers' pools. *)
  StatelessContexts : gmap ptr QUIC_STATELESS_CONTEXT;
  Connections : gmap ptr QUIC_CONNECTION;
  (** Operations handed to [QuicWorkerQueueOperation], oldest first. *)
  WorkerOperQ : list QUIC_OPERATION;
  (** Connections handed to [QuicWorkerQueueConnection]. *)
  WorkerConnQ : list ptr;
  (** The datagrams handed to [QuicDataPathBindingReturnRecvDatagrams]. *)
  DatapathReturned : list QUIC_RECV_DATAGRAM;
  (** The reasons passed to [QuicPacketLogDrop], oldest first. *)
  DropLog : list string
}.

Definition set_Binding (B : QUIC_BINDING) (s : State) : State :=
  {| Binding := B; StatelessContexts := StatelessContexts s;
     Connections := Connections s; WorkerOperQ := WorkerOperQ s;
     WorkerConnQ := WorkerConnQ s; DatapathReturned := DatapathReturned s;
     DropLog := DropLog s |}.

Definition set_StatelessContexts (h : gmap ptr QUIC_STATELESS_CONTEXT) (s : State) : State :=
  {| Binding := Binding s; StatelessContexts := h;
     Connections := Connections s; WorkerOperQ := WorkerOperQ s;
     WorkerConnQ := WorkerConnQ s; DatapathReturned := DatapathReturned s;
     DropLog := DropLog s |}.

Definition set_Connections (h : gmap ptr QUIC_CONNECTION) (s : State) : State :=
  {| Binding := Binding s; StatelessContexts := StatelessContexts s;
     Connections := h; WorkerOperQ := WorkerOperQ s;
     WorkerConnQ := WorkerConnQ s; DatapathReturned := DatapathReturned s;
     DropLog := DropLog s |}.

Definition QuicWorkerQueueOperation (Oper : QUIC_OPERATION) (s : State) : State :=
  {| Binding := Binding s; StatelessContexts := StatelessContexts s;
     Connections := Connections s; WorkerOperQ := WorkerOperQ s ++ [Oper];
     WorkerConnQ := WorkerConnQ s; DatapathReturned := DatapathReturned s;
     DropLog := DropLog s |}.

Definition QuicWorkerQueueConnection (Connection : ptr) (s : State) : State :=
  {| Binding := Binding s; StatelessContexts := StatelessContexts s;
     Connections := Connections s; WorkerOperQ := WorkerOperQ s;
     WorkerConnQ := WorkerConnQ s ++ [Connection];
     DatapathReturned := DatapathReturned s; DropLog := DropLog s |}.

Definition QuicPacketLogDrop (Reason : string) (s : State) : State :=
  {| Binding := Binding s; StatelessContexts := StatelessContexts s;
     Connections := Connections s; WorkerOperQ := WorkerOperQ s;
     WorkerConnQ := WorkerConnQ s; DatapathReturned := DatapathReturned s;
     DropLog := DropLog s ++ [Reason] |}.

Definition QuicDataPathBindingReturnRecvDatagrams (Chain : list QUIC_RECV_DATAGRAM)
    (s : State) : State :=
  {| Binding := Binding s; StatelessContexts := StatelessContexts s;
     Connections := Connections s; WorkerOperQ := WorkerOperQ s;
     WorkerConnQ := WorkerConnQ s; DatapathReturned := DatapathReturned s ++ Chain;
     DropLog := DropLog s |}.

(** What one call reads from its surroundings: the clock, the worker pool,
    the allocators, the lookup table and the library. *)
Inductive AddRemoteHashResult :=
  | RemoteHashInserted
  | RemoteHashCollision (Existing : ptr)
  | RemoteHashFailed.

Record Env := {
  Env_TimeMs : Z;                   (* QuicTimeMs32() *)
  Env_WorkerPoolNull : bool;        (* MsQuicLib.WorkerPool == NULL *)
  Env_Worker : ptr;                 (* QuicLibraryGetWorker() *)
  Env_WorkerOverloaded : bool;      (* QuicWorkerIsOverloaded(Worker) *)
  Env_PoolAllocOk : bool;           (* QuicPoolAlloc != NULL *)
  Env_OperAllocOk : bool;           (* QuicOperationAlloc != NULL *)
  Env_LookupLocalCid : option ptr;  (* QuicLookupFindConnectionByLocalCid *)
  Env_LookupRemoteHash : option ptr;(* QuicLookupFindConnectionByRemoteHash *)
  (** QuicConnInitialize: the first source CID of the new connection, or
      [None] for a failure status. *)
  Env_ConnInitialize : option ptr;
  Env_TryAddRefBinding : bool;      (* QuicLibraryTryAddRefBinding *)
  Env_AddRemoteHash : AddRemoteHashResult;
  (** [MsQuicLib.TestDatapathHooks->Receive], when the hooks are compiled
      in and set: the datagram as the hook leaves it, and whether to drop. *)
  Env_TestHookReceive : option (QUIC_RECV_DATAGRAM → QUIC_RECV_DATAGRAM * bool);
  Env_Lib : QUIC_LIBRARY
}.

(** ** Stateless reset token (QuicBindingGenerateStatelessResetToken) *)

Section ResetToken.
Context `{Platform}.

(** Returns [QUIC_SUCCEEDED(Status)] and the buffer [ResetToken] after the
    call.  [CID] is read for [MsQuicLib.CidTotalLength] bytes. *)
Definition QuicBindingGenerateStatelessResetToken (B : QUIC_BINDING)
    (Lib : QUIC_LIBRARY) (CID : list Z) (ResetToken : list Z) : bool * list Z :=
  match QuicHashCompute (ResetTokenHash B) (take (CidTotalLength Lib) CID) with
  | Some HashOutput =>
      (true, QuicCopyMemory ResetToken HashOutput QUIC_STATELESS_RESET_TOKEN_LENGTH)
  | None => (false, ResetToken)
  end.

End ResetToken.

(** ** Retry admission (QuicBindingValidateRetryToken,
    QuicBindingShouldRetryConnection) *)

Section Retry.
Context `{Platform}.

Definition QuicBindingValidateRetryToken (Datagram : QUIC_RECV_DATAGRAM)
    (Packet : QUIC_RECV_PACKET) (TokenLength : Z) (TokenBuffer : list Z)
    (s : State) : State * bool :=
  if decide (TokenLength ≠ sizeof_QUIC_RETRY_TOKEN_CONTENTS) then
    (QuicPacketLogDrop "Invalid Retry Token Length" s, false)
  else
    match QuicRetryTokenDecrypt Packet TokenBuffer with
    | None => (QuicPacketLogDrop "Retry Token Decryption Failure" s, false)
    | Some Token =>
        if decide (Token_OrigConnIdLength Token > sizeof_OrigConnId) then
          (QuicPacketLogDrop "Invalid Retry Token OrigConnId Length" s, false)
        else if negb (QuicAddrCompare (Token_RemoteAddress Token)
                        (Tuple_RemoteAddress Datagram)) then
          (QuicPacketLogDrop "Retry Token Addr Mismatch" s, false)
        else (s, true)
    end.

(** [CurrentMemoryLimit]: the product is taken in [uint64_t]. *)
Definition CurrentMemoryLimit (Lib : QUIC_LIBRARY) : Z :=
  u64 (RetryMemoryLimit Lib * QuicTotalMemory Lib) / UINT16_MAX.

(** Returns the state, the packet, [*DropPacket] and the result. *)
Definition QuicBindingShouldRetryConnection (Lib : QUIC_LIBRARY)
    (Datagram : QUIC_RECV_DATAGRAM) (Packet : QUIC_RECV_PACKET)
    (TokenLength : Z) (Token : list Z) (DropPacket : bool) (s : State)
    : State * QUIC_RECV_PACKET * bool * bool :=
  if decide (TokenLength ≠ 0) then
    let '(s', valid) := QuicBindingValidateRetryToken Datagram Packet TokenLength Token s in
    if valid then (s', set_ValidToken true Packet, DropPacket, false)
    else (s', Packet, true, false)
  else
    (s, Packet, DropPacket,
     bool_decide (CurrentHandshakeMemoryUsage Lib >= CurrentMemoryLimit Lib)).

End Retry.

(** ** Listener registry (QuicBindingRegisterListener and friends) *)

Section ListenerRegistry.
Context `{Platform}.

Definition AF_UNSPEC : Z := 0.

Definition QuicBindingHasListenerRegistered (B : QUIC_BINDING) : bool :=
  negb (bool_decide (Listeners B = [])).

(** The [for] loop of QuicBindingRegisterListener over the listeners from
    [Link] on, [i] being the position of [Link].  Returns [AddNewListener]
    and the position of [Link] when the loop ends (the length of the list
    when it ran back to the head). *)
Fixpoint register_scan (NewListener : QUIC_LISTENER) (l : list QUIC_LISTENER)
    (i : nat) : bool * nat :=
  match l with
  | [] => (true, i)
  | ExistingListener :: rest =>
      let NewAddr := Listener_LocalAddress NewListener in
      let NewWildCard := WildCard NewListener in
      let NewFamily := QuicAddrGetFamily NewAddr in
      let ExistingAddr := Listener_LocalAddress ExistingListener in
      let ExistingWildCard := WildCard ExistingListener in
      let ExistingFamily := QuicAddrGetFamily ExistingAddr in
      if decide (NewFamily > ExistingFamily) then (true, i)
      else if decide (NewFamily ≠ ExistingFamily) then register_scan NewListener rest (S i)
      else if negb NewWildCard && ExistingWildCard then (true, i)
      else if negb (eqb NewWildCard ExistingWildCard) then register_scan NewListener rest (S i)
      else if bool_decide (NewFamily ≠ AF_UNSPEC) && negb (QuicAddrCompareIp NewAddr ExistingAddr)
           then register_scan NewListener rest (S i)
      else if QuicSessionHasAlpnOverlap (Listener_Session NewListener)
                (Listener_Session ExistingListener)
           then (false, i)
      else register_scan NewListener rest (S i)
  end.

(** [QuicListEntryRemove(&Listener->Link)]. *)
Definition QuicBindingUnregisterListener (Listener : ptr) (B : QUIC_BINDING) : QUIC_BINDING :=
  set_Listeners (filter (λ L, Listener_Link L ≠ Listener) (Listeners B)) B.

(** [MaximizePartitioningOk] is the result of
    [QuicLookupMaximizePartitioning]. *)
Definition QuicBindingRegisterListener (MaximizePartitioningOk : bool)
    (NewListener : QUIC_LISTENER) (B : QUIC_BINDING) : QUIC_BINDING * bool :=
  let '(AddNewListener, Link) := register_scan NewListener (Listeners B) 0 in
  if AddNewListener then
    let MaximizeLookup := bool_decide (Listeners B = []) in
    let B1 := set_Listeners (take Link (Listeners B) ++ NewListener :: drop Link (Listeners B)) B in
    if MaximizeLookup && negb MaximizePartitioningOk then
      (QuicBindingUnregisterListener (Listener_Link NewListener) B1, false)
    else (B1, true)
  else (B, false).

End ListenerRegistry.

(** ** Stateless-operation cache (QuicBindingCreateStatelessOperation,
    QuicBindingReleaseStatelessOperation, QuicBindingQueueStatelessOperation) *)

(** The hash table of the platform layer, as the list of its entries. *)
Definition QuicHashtableInsert (Table : list (Z * ptr)) (Entry : ptr) (Signature : Z)
    : list (Z * ptr) :=
  Table ++ [(Signature, Entry)].

Definition QuicHashtableRemove (Table : list (Z * ptr)) (Entry : ptr) : list (Z * ptr) :=
  filter (λ e, e.2 ≠ Entry) Table.

(** The entries that [QuicHashtableLookup] and then [QuicHashtableLookupNext]
    enumerate for a signature. *)
Definition QuicHashtableLookup (Table : list (Z * ptr)) (Signature : Z) : list ptr :=
  (filter (λ e, e.1 = Signature) Table).*2.

Section StatelessCache.
Context `{Platform}.

(** The loop "Age out all expired operation contexts"; every round removes
    the head of the list, so [fuel] is the length of the list. *)
Fixpoint age_out (fuel : nat) (TimeMs : Z) (s : State) : State :=
  match fuel with
  | O => s
  | S fuel' =>
      match StatelessOperList (Binding s) with
      | [] => s
      | p :: rest =>
          match StatelessContexts s !! p with
          | None => s
          | Some OldStatelessCtx =>
              if decide (QuicTimeDiff32 (CreationTimeMs OldStatelessCtx) TimeMs
                         < QUIC_STATELESS_OPERATION_EXPIRATION_MS)
              then s
              else
                let B := Binding s in
                let h1 := <[p := set_IsExpired OldStatelessCtx]> (StatelessContexts s) in
                let B1 := set_StatelessOper (u32 (StatelessOperCount B - 1))
                            (QuicHashtableRemove (StatelessOperTable B) p) rest B in
                let h2 := if IsProcessed OldStatelessCtx then delete p h1 else h1 in
                age_out fuel' TimeMs (set_StatelessContexts h2 (set_Binding B1 s))
          end
      end
  end.

(** The walk over the hash bucket: is one of the entries' remote address
    equal to [RemoteAddress]? *)
Definition already_in_table (s : State) (Hash : Z) (RemoteAddress : QUIC_ADDR) : bool :=
  existsb
    (λ p, match StatelessContexts s !! p with
          | Some ExistingCtx => QuicAddrCompare (Ctx_RemoteAddress ExistingCtx) RemoteAddress
          | None => false
          end)
    (QuicHashtableLookup (StatelessOperTable (Binding s)) Hash).

(** [Datagram] with the chain [Next] that hangs from it.  The new context
    is at the first free address when the pool allocation succeeds. *)
Definition QuicBindingCreateStatelessOperation (E : Env) (Worker : ptr)
    (Datagram : QUIC_RECV_DATAGRAM) (Next : list QUIC_RECV_DATAGRAM)
    (s : State) : State * option ptr :=
  let TimeMs := Env_TimeMs E in
  let RemoteAddress := Tuple_RemoteAddress Datagram in
  let Hash := QuicAddrHash RemoteAddress in
  let s := age_out (length (StatelessOperList (Binding s))) TimeMs s in
  let B := Binding s in
  if decide (StatelessOperCount B >= QUIC_MAX_BINDING_STATELESS_OPERATIONS) then
    (QuicPacketLogDrop "Max binding operations reached" s, None)
  else if already_in_table s Hash RemoteAddress then
    (QuicPacketLogDrop "Already in stateless oper table" s, None)
  else if negb (Env_PoolAllocOk E) then
    (QuicPacketLogDrop "Alloc failure for stateless oper ctx" s, None)
  else
    let StatelessCtx : ptr := fresh (dom (StatelessContexts s)) in
    let Ctx :=
      {| Ctx_Worker := Worker; Ctx_Datagram := Datagram :: Next;
         Ctx_RemoteAddress := RemoteAddress; CreationTimeMs := TimeMs;
         HasBindingRef := false; IsProcessed := false; IsExpired := false |} in
    let B1 := set_StatelessOper (u32 (StatelessOperCount B + 1))
                (QuicHashtableInsert (StatelessOperTable B) StatelessCtx Hash)
                (StatelessOperList B ++ [StatelessCtx]) B in
    (set_StatelessContexts (<[StatelessCtx := Ctx]> (StatelessContexts s))
       (set_Binding B1 s),
     Some StatelessCtx).

(** [QuicLibraryReleaseBinding] drops one reference of the binding.  A
    context that is not allocated is left alone. *)
Definition QuicBindingReleaseStatelessOperation (StatelessCtx : ptr)
    (ReturnDatagram : bool) (s : State) : State :=
  match StatelessContexts s !! StatelessCtx with
  | None => s
  | Some Ctx =>
      let s := if ReturnDatagram
               then QuicDataPathBindingReturnRecvDatagrams (Ctx_Datagram Ctx) s
               else s in
      let FreeCtx := IsExpired Ctx in
      let s1 := set_StatelessContexts
                  (<[StatelessCtx := set_IsProcessed Ctx]> (StatelessContexts s)) s in
      let s2 := if HasBindingRef Ctx
                then set_Binding (set_RefCount (RefCount (Binding s1) - 1) (Binding s1)) s1
                else s1 in
      if FreeCtx
      then set_StatelessContexts (delete StatelessCtx (StatelessContexts s2)) s2
      else s2
  end.

Definition QuicBindingQueueStatelessOperation (E : Env) (OperType : QUIC_OPERATION_TYPE)
    (Datagram : QUIC_RECV_DATAGRAM) (Next : list QUIC_RECV_DATAGRAM)
    (s : State) : State * bool :=
  if Env_WorkerPoolNull E then
    (QuicPacketLogDrop "NULL worker pool" s, false)
  else
    let Worker := Env_Worker E in
    if Env_WorkerOverloaded E then
      (QuicPacketLogDrop "Worker overloaded (stateless oper)" s, false)
    else
      match QuicBindingCreateStatelessOperation E Worker Datagram Next s with
      | (s1, None) => (s1, false)
      | (s1, Some Context) =>
          if negb (Env_OperAllocOk E) then
            (QuicBindingReleaseStatelessOperation Context false
               (QuicPacketLogDrop "Alloc failure for stateless operation" s1),
             false)
          else
            let Oper :=
              {| Oper_Type := OperType; FreeAfterProcess := true;
                 API_CALL_Context := None; STATELESS_Context := Some Context |} in
            (QuicWorkerQueueOperation Oper s1, true)
      end.

Definition QuicBindingQueueStatelessReset (E : Env) (Datagram : QUIC_RECV_DATAGRAM)
    (Next : list QUIC_RECV_DATAGRAM) (s : State) : State * bool :=
  if decide (Datagram_BufferLength Datagram <= QUIC_MIN_STATELESS_RESET_PACKET_LENGTH) then
    (QuicPacketLogDrop "Packet too short for stateless reset" s, false)
  else if Exclusive (Binding s) then
    (QuicPacketLogDrop "No stateless reset on exclusive binding" s, false)
  else
    QuicBindingQueueStatelessOperation E QUIC_OPER_TYPE_STATELESS_RESET Datagram Next s.

End StatelessCache.

(** ** Preprocessing (QuicBindingPreprocessDatagram) *)

Section Preprocess.
Context `{Platform}.

(** Returns the state, the datagram with its packet metadata filled in, the
    result and [*ReleaseDatagram]. *)
Definition QuicBindingPreprocessDatagram (E : Env) (Datagram : QUIC_RECV_DATAGRAM)
    (s : State) : State * QUIC_RECV_DATAGRAM * bool * bool :=
  let Packet := zeroed_packet (Datagram_Buffer Datagram) (Datagram_BufferLength Datagram) in
  match QuicPacketValidateInvariant (negb (Exclusive (Binding s))) Packet with
  | None => (s, set_Packet Packet Datagram, false, true)
  | Some Packet =>
      let Datagram := set_Packet Packet Datagram in
      if Invariant_IsLongHeader Packet
         && negb (QuicIsVersionSupported (Invariant_Version Packet)) then
        if negb (QuicBindingHasListenerRegistered (Binding s)) then
          (QuicPacketLogDrop "No listener to send VN" s, Datagram, false, true)
        else
          let '(s', queued) :=
            QuicBindingQueueStatelessOperation E QUIC_OPER_TYPE_VERSION_NEGOTIATION
              Datagram [] s in
          (s', Datagram, false, negb queued)
      else (s, Datagram, true, false)
  end.

End Preprocess.

(** ** Connection creation (QuicBindingCreateConnection) *)

Section CreateConnection.
Context `{Platform}.

Definition alter_connection (f : QUIC_CONNECTION → QUIC_CONNECTION) (c : ptr)
    (s : State) : State :=
  set_Connections (alter f c (Connections s)) s.

Definition add_RefCount (d : Z) (C : QUIC_CONNECTION) : QUIC_CONNECTION :=
  {| Conn_RefCount := Conn_RefCount C + d; Conn_Worker := Conn_Worker C;
     Paths0_Binding := Paths0_Binding C; SourceCids_Next := SourceCids_Next C;
     BackUpOperUsed := BackUpOperUsed C; BackUpOper := BackUpOper C;
     BackupApiContext := BackupApiContext C; Conn_OperQ := Conn_OperQ C;
     Conn_ReceiveQueue := Conn_ReceiveQueue C |}.

Definition QuicConnAddRef (c : ptr) (s : State) : State :=
  alter_connection (add_RefCount 1) c s.

Definition QuicConnRelease (c : ptr) (s : State) : State :=
  alter_connection (add_RefCount (-1)) c s.

Definition QuicWorkerAssignConnection (Worker : ptr) (c : ptr) (s : State) : State :=
  alter_connection
    (λ C, {| Conn_RefCount := Conn_RefCount C; Conn_Worker := Some Worker;
             Paths0_Binding := Paths0_Binding C; SourceCids_Next := SourceCids_Next C;
             BackUpOperUsed := BackUpOperUsed C; BackUpOper := BackUpOper C;
             BackupApiContext := BackupApiContext C; Conn_OperQ := Conn_OperQ C;
             Conn_ReceiveQueue := Conn_ReceiveQueue C |}) c s.

(** [NewConnection->Paths[0].Binding = Binding]. *)
Definition set_Paths0_Binding (c : ptr) (s : State) : State :=
  alter_connection
    (λ C, {| Conn_RefCount := Conn_RefCount C; Conn_Worker := Conn_Worker C;
             Paths0_Binding := true; SourceCids_Next := SourceCids_Next C;
             BackUpOperUsed := BackUpOperUsed C; BackUpOper := BackUpOper C;
             BackupApiContext := BackupApiContext C; Conn_OperQ := Conn_OperQ C;
             Conn_ReceiveQueue := Conn_ReceiveQueue C |}) c s.

(** [NewConnection->SourceCids.Next = NULL]. *)
Definition clear_SourceCids (c : ptr) (s : State) : State :=
  alter_connection
    (λ C, {| Conn_RefCount := Conn_RefCount C; Conn_Worker := Conn_Worker C;
             Paths0_Binding := Paths0_Binding C; SourceCids_Next := None;
             BackUpOperUsed := BackUpOperUsed C; BackUpOper := BackUpOper C;
             BackupApiContext := BackupApiContext C; Conn_OperQ := Conn_OperQ C;
             Conn_ReceiveQueue := Conn_ReceiveQueue C |}) c s.

Definition QuicConnQueueOper (c : ptr) (Oper : OperRef) (s : State) : State :=
  alter_connection
    (λ C, {| Conn_RefCount := Conn_RefCount C; Conn_Worker := Conn_Worker C;
             Paths0_Binding := Paths0_Binding C; SourceCids_Next := SourceCids_Next C;
             BackUpOperUsed := BackUpOperUsed C; BackUpOper := BackUpOper C;
             BackupApiContext := BackupApiContext C; Conn_OperQ := Conn_OperQ C ++ [Oper];
             Conn_ReceiveQueue := Conn_ReceiveQueue C |}) c s.

Definition QuicConnQueueRecvDatagrams (c : ptr) (Chain : list QUIC_RECV_DATAGRAM)
    (s : State) : State :=
  alter_connection
    (λ C, {| Conn_RefCount := Conn_RefCount C; Conn_Worker := Conn_Worker C;
             Paths0_Binding := Paths0_Binding C; SourceCids_Next := SourceCids_Next C;
             BackUpOperUsed := BackUpOperUsed C; BackUpOper := BackUpOper C;
             BackupApiContext := BackupApiContext C; Conn_OperQ := Conn_OperQ C;
             Conn_ReceiveQueue := Conn_ReceiveQueue C ++ Chain |}) c s.

(** The body of [if (InterlockedCompareExchange16(&C->BackUpOperUsed, 1, 0) == 0)]
    on the connection [C] whose members the code names: the flag is taken
    and [C]'s backup operation is filled in as a silent shutdown. *)
Definition take_BackUpOper (self : ptr) (C : QUIC_CONNECTION) : QUIC_CONNECTION :=
  {| Conn_RefCount := Conn_RefCount C; Conn_Worker := Conn_Worker C;
     Paths0_Binding := Paths0_Binding C; SourceCids_Next := SourceCids_Next C;
     BackUpOperUsed := 1;
     BackUpOper :=
       {| Oper_Type := QUIC_OPER_TYPE_API_CALL; FreeAfterProcess := false;
          API_CALL_Context := Some self;
          STATELESS_Context := STATELESS_Context (BackUpOper C) |};
     BackupApiContext :=
       {| Api_Type := QUIC_API_TYPE_CONN_SHUTDOWN;
          CONN_SHUTDOWN_Flags := QUIC_CONNECTION_SHUTDOWN_FLAG_SILENT;
          CONN_SHUTDOWN_ErrorCode := 0 |};
     Conn_OperQ := Conn_OperQ C; Conn_ReceiveQueue := Conn_ReceiveQueue C |}.

(** The connection object that [QuicConnInitialize] hands back: one
    reference (the handle owner's), one source CID, the backup operation
    unused. *)
Definition initialized_connection (SourceCid : ptr) : QUIC_CONNECTION :=
  {| Conn_RefCount := 1; Conn_Worker := None; Paths0_Binding := false;
     SourceCids_Next := Some SourceCid; BackUpOperUsed := 0;
     BackUpOper := {| Oper_Type := QUIC_OPER_TYPE_API_CALL; FreeAfterProcess := false;
                      API_CALL_Context := None; STATELESS_Context := None |};
     BackupApiContext := {| Api_Type := QUIC_API_TYPE_NONE; CONN_SHUTDOWN_Flags := 0;
                            CONN_SHUTDOWN_ErrorCode := 0 |};
     Conn_OperQ := []; Conn_ReceiveQueue := [] |}.

(** The code from the label [Exit] on.  [Connection] is the local variable
    of that name: the connection found by [QuicLookupAddRemoteHash] on a
    collision, NULL otherwise.  [None] is the dereference of a NULL or
    dangling [Connection]. *)
Definition CreateConnection_Exit (NewConnection : ptr) (BindingRefAdded : bool)
    (Connection : option ptr) (s : State) : option (State * option ptr) :=
  let s := clear_SourceCids NewConnection s in
  let s := QuicConnRelease NewConnection s in
  if BindingRefAdded then
    match Connection with
    | None => None
    | Some c =>
        match Connections s !! c with
        | None => None
        | Some C =>
            if decide (BackUpOperUsed C = 0) then
              let s := alter_connection (take_BackUpOper c) c s in
              Some (QuicConnQueueOper NewConnection (BackUpOperOf c) s, Connection)
            else Some (s, Connection)
        end
    end
  else Some (QuicConnRelease NewConnection s, Connection).

(** The new connection is at the first free address.  The library's
    reference on the binding is counted in [RefCount]; a collision hands
    back the existing connection with one more reference. *)
Definition QuicBindingCreateConnection (E : Env) (Datagram : QUIC_RECV_DATAGRAM)
    (s : State) : option (State * option ptr) :=
  match Env_ConnInitialize E with
  | None => Some (QuicPacketLogDrop "Failed to initialize new connection" s, None)
  | Some SourceCid =>
      let NewConnection : ptr := fresh (dom (Connections s)) in
      let s := set_Connections
                 (<[NewConnection := initialized_connection SourceCid]> (Connections s)) s in
      let s := QuicConnAddRef NewConnection s in
      if Env_WorkerOverloaded E then
        CreateConnection_Exit NewConnection false None
          (QuicPacketLogDrop "Worker overloaded" s)
      else
        let s := QuicWorkerAssignConnection (Env_Worker E) NewConnection s in
        if negb (Env_TryAddRefBinding E) then
          CreateConnection_Exit NewConnection false None
            (QuicPacketLogDrop "Clean up in progress" s)
        else
          let s := set_Binding (set_RefCount (RefCount (Binding s) + 1) (Binding s)) s in
          let s := set_Paths0_Binding NewConnection s in
          match Env_AddRemoteHash E with
          | RemoteHashInserted =>
              Some (QuicWorkerQueueConnection NewConnection s, Some NewConnection)
          | RemoteHashCollision Existing =>
              CreateConnection_Exit NewConnection true (Some Existing)
                (QuicConnAddRef Existing s)
          | RemoteHashFailed =>
              CreateConnection_Exit NewConnection true None
                (QuicPacketLogDrop "Failed to insert remote hash" s)
          end
  end.

End CreateConnection.

(** ** Delivery of a subchain (QuicBindingDeliverDatagrams) *)

Section Deliver.
Context `{Platform}.

(** A lookup that finds a connection returns it with one more reference. *)
Definition lookup_result (Connection : option ptr) (s : State) : State :=
  match Connection with
  | Some c => QuicConnAddRef c s
  | None => s
  end.

(** The tail of the function: [if (Connection != NULL) ... else ...]. *)
Definition deliver_to (Connection : option ptr) (Chain : list QUIC_RECV_DATAGRAM)
    (s : State) : State * bool :=
  match Connection with
  | Some c => (QuicConnRelease c (QuicConnQueueRecvDatagrams c Chain s), true)
  | None => (s, false)
  end.

(** [None] is a NULL dereference: an empty chain, or the one of
    [CreateConnection_Exit]. *)
Definition QuicBindingDeliverDatagrams (E : Env) (DatagramChain : list QUIC_RECV_DATAGRAM)
    (DatagramChainLength : Z) (s : State) : option (State * bool) :=
  match DatagramChain with
  | [] => None
  | Datagram :: Next =>
      let Packet := Datagram_Packet Datagram in
      let Connection :=
        if negb (ServerOwned (Binding s)) || IsShortHeader Packet
        then Env_LookupLocalCid E
        else Env_LookupRemoteHash E in
      let s := lookup_result Connection s in
      match Connection with
      | Some _ => Some (deliver_to Connection DatagramChain s)
      | None =>
          if Exclusive (Binding s) then
            Some (QuicPacketLogDrop "No connection on exclusive binding" s, false)
          else if IsShortHeader Packet then
            Some (QuicBindingQueueStatelessReset E Datagram Next s)
          else if decide (Invariant_Version Packet = QUIC_VERSION_VER_NEG) then
            Some (QuicPacketLogDrop
                    "Version negotiation packet not matched with a connection" s, false)
          else if is_v1_format_version (Invariant_Version Packet)
                  && bool_decide (LH_Type Packet ≠ QUIC_INITIAL) then
            Some (QuicPacketLogDrop
                    "Non-initial packet not matched with a connection" s, false)
          else
            match QuicPacketValidateLongHeaderV1 Packet with
            | None => Some (s, false)
            | Some (Packet, Token) =>
                let TokenLength := Z.of_nat (length Token) in
                if negb (QuicBindingHasListenerRegistered (Binding s)) then
                  Some (QuicPacketLogDrop
                          "No listeners registered to accept new connection." s, false)
                else
                  let '(s, Packet, DropPacket, Retry) :=
                    QuicBindingShouldRetryConnection (Env_Lib E) Datagram Packet
                      TokenLength Token false s in
                  let Datagram := set_Packet Packet Datagram in
                  if Retry then
                    Some (QuicBindingQueueStatelessOperation E QUIC_OPER_TYPE_RETRY
                            Datagram Next s)
                  else if DropPacket then Some (s, false)
                  else
                    '(s, Connection) ← QuicBindingCreateConnection E Datagram s;
                    Some (deliver_to Connection (Datagram :: Next) s)
            end
      end
  end.

End Deliver.

(** ** The receive dispatcher (QuicBindingReceive) *)

Section Receive.
Context `{Platform}.

(** [Packet->DestCidLen != SubChainPacket->DestCidLen ||
     memcmp(Packet->DestCid, SubChainPacket->DestCid, Packet->DestCidLen) != 0],
    negated. *)
Definition same_DestCid (P Q : QUIC_RECV_PACKET) : bool :=
  bool_decide (DestCidLen P = DestCidLen Q)
  && bool_decide (take (Z.to_nat (DestCidLen P)) (DestCid P)
                  = take (Z.to_nat (DestCidLen P)) (DestCid Q)).

(** The local variables of the loop.  The chain [SubChain] is
    [SubChainHead ++ SubChainData]: [SubChainTail] points at the link
    between the two parts, [SubChainDataTail] at the link that ends the
    chain.  [Delivered] lists the calls of QuicBindingDeliverDatagrams made
    so far, each with its chain and its result; [Retained] lists the
    datagrams that preprocessing kept out of the release chain. *)
Record ReceiveLocals := {
  ReleaseChain : list QUIC_RECV_DATAGRAM;
  SubChainHead : list QUIC_RECV_DATAGRAM;
  SubChainData : list QUIC_RECV_DATAGRAM;
  SubChainLength : Z;               (* uint32_t *)
  Delivered : list (list QUIC_RECV_DATAGRAM * bool);
  Retained : list QUIC_RECV_DATAGRAM
}.

Definition SubChain (L : ReceiveLocals) : list QUIC_RECV_DATAGRAM :=
  SubChainHead L ++ SubChainData L.

Definition initial_locals : ReceiveLocals :=
  {| ReleaseChain := []; SubChainHead := []; SubChainData := [];
     SubChainLength := 0; Delivered := []; Retained := [] |}.

(** [*ReleaseChainTail = Chain; ReleaseChainTail = <the chain's end>]. *)
Definition release (Chain : list QUIC_RECV_DATAGRAM) (L : ReceiveLocals) : ReceiveLocals :=
  {| ReleaseChain := ReleaseChain L ++ Chain; SubChainHead := SubChainHead L;
     SubChainData := SubChainData L; SubChainLength := SubChainLength L;
     Delivered := Delivered L; Retained := Retained L |}.

Definition retain (Datagram : QUIC_RECV_DATAGRAM) (L : ReceiveLocals) : ReceiveLocals :=
  {| ReleaseChain := ReleaseChain L; SubChainHead := SubChainHead L;
     SubChainData := SubChainData L; SubChainLength := SubChainLength L;
     Delivered := Delivered L; Retained := Retained L ++ [Datagram] |}.

(** Delivers the current subchain, releases it when the delivery fails, and
    starts a new one. *)
Definition deliver_subchain (E : Env) (L : ReceiveLocals) (s : State)
    : option (State * ReceiveLocals) :=
  '(s, ok) ← QuicBindingDeliverDatagrams E (SubChain L) (SubChainLength L) s;
  let Released := if ok : bool then ReleaseChain L else ReleaseChain L ++ SubChain L in
  let L' : ReceiveLocals :=
    {| ReleaseChain := Released; SubChainHead := []; SubChainData := [];
       SubChainLength := 0;
       Delivered := Delivered L ++ [(SubChain L, ok)];
       Retained := Retained L |} in
  Some (s, L').

(** The insertion of the datagram into the current subchain, handshake
    packets first. *)
Definition insert_datagram (Datagram : QUIC_RECV_DATAGRAM) (L : ReceiveLocals)
    : ReceiveLocals :=
  let len := u32 (SubChainLength L + 1) in
  if negb (QuicPacketIsHandshake (Datagram_Packet Datagram)) then
    {| ReleaseChain := ReleaseChain L; SubChainHead := SubChainHead L;
       SubChainData := SubChainData L ++ [Datagram]; SubChainLength := len;
       Delivered := Delivered L; Retained := Retained L |}
  else
    {| ReleaseChain := ReleaseChain L; SubChainHead := SubChainHead L ++ [Datagram];
       SubChainData := SubChainData L; SubChainLength := len;
       Delivered := Delivered L; Retained := Retained L |}.

(** One round of the [while] loop, for the datagram taken off the head of
    the chain.  [EP] serves the preprocessing, [ED] the delivery. *)
Definition receive_one (EP ED : Env) (Datagram : QUIC_RECV_DATAGRAM)
    (L : ReceiveLocals) (s : State) : option (State * ReceiveLocals) :=
  let Datagram :=
    set_Packet (zeroed_packet (Datagram_Buffer Datagram) (Datagram_BufferLength Datagram))
      Datagram in
  let '(Datagram, TestDrop) :=
    match Env_TestHookReceive EP with
    | Some Receive =>
        ((at_address (Datagram_Handle Datagram) (Receive Datagram).1),
         (Receive Datagram).2)
    | None => (Datagram, false)
    end in
  if TestDrop then
    Some (QuicPacketLogDrop "Test Dopped" s, release [Datagram] L)
  else
    let '(s, Datagram, ok, ReleaseDatagram) :=
      QuicBindingPreprocessDatagram EP Datagram s in
    if negb ok then
      Some (s, if ReleaseDatagram then release [Datagram] L else retain Datagram L)
    else
      '(s, L) ←
        match SubChain L with
        | SubChainFirst :: _ =>
            if negb (Exclusive (Binding s))
               && negb (same_DestCid (Datagram_Packet Datagram)
                          (Datagram_Packet SubChainFirst))
            then deliver_subchain ED L s
            else Some (s, L)
        | [] => Some (s, L)
        end;
      Some (s, insert_datagram Datagram L).

(** The [while] loop over the chain; [i] counts the rounds. *)
Fixpoint receive_loop (EP ED : nat → Env) (i : nat)
    (DatagramChain : list QUIC_RECV_DATAGRAM) (L : ReceiveLocals) (s : State)
    : option (State * ReceiveLocals) :=
  match DatagramChain with
  | [] => Some (s, L)
  | Datagram :: Next =>
      '(s, L) ← receive_one (EP i) (ED i) Datagram L s;
      receive_loop EP ED (S i) Next L s
  end.

(** The whole function up to the last subchain's delivery: the state and
    the locals when the loop and the last delivery are done. *)
Definition receive_chain (EP ED : nat → Env) (DatagramChain : list QUIC_RECV_DATAGRAM)
    (s : State) : option (State * ReceiveLocals) :=
  '(s, L) ← receive_loop EP ED 0 DatagramChain initial_locals s;
  match SubChain L with
  | [] => Some (s, L)
  | _ :: _ => deliver_subchain (ED (length DatagramChain)) L s
  end.

Definition QuicBindingReceive (EP ED : nat → Env) (DatagramChain : list QUIC_RECV_DATAGRAM)
    (s : State) : option State :=
  '(s, L) ← receive_chain EP ED DatagramChain s;
  match ReleaseChain L with
  | [] => Some s
  | _ :: _ => Some (QuicDataPathBindingReturnRecvDatagrams (ReleaseChain L) s)
  end.

End Receive.

(** ** Binding creation (QuicBindingInitialize) *)

Section Initialize.
Context `{Platform}.

(** A little-endian [uint32_t] read from four bytes. *)
Definition le32 (b : list Z) : Z :=
  byte_at b 0 + 256 * byte_at b 1 + 65536 * byte_at b 2 + 16777216 * byte_at b 3.

(** [Random] is what QuicRandom delivers, in the order of the calls: four
    bytes for the reserved version, twenty for [HashSalt].  [None] is a
    failure status. *)
Definition QuicBindingInitialize (ShareBinding ServerOwned : bool)
    (RemoteAddress : option QUIC_ADDR) (AllocOk : bool) (Random : list Z)
    (HashCreateOk DatapathCreateOk : bool) : option QUIC_BINDING :=
  if negb AllocOk then None
  else
    let Version := le32 (take 4 Random) in
    let HashSalt := take 20 (drop 4 Random) in
    if negb HashCreateOk then None
    else if negb DatapathCreateOk then None
    else
      Some {| RefCount := 1; Exclusive := negb ShareBinding; ServerOwned := ServerOwned;
              Connected := bool_decide (RemoteAddress ≠ None);
              StatelessOperCount := 0; Listeners := [];
              StatelessOperTable := []; StatelessOperList := [];
              RandomReservedVersion :=
                Z.lor (Z.land Version (u32 (Z.lnot QUIC_VERSION_RESERVED_MASK)))
                  QUIC_VERSION_RESERVED;
              ResetTokenHash := HashSalt |}.

End Initialize.

(** * Part II: the properties *)

(** ** A test platform

    One concrete choice of the constants and helpers, to run the model on:
    the header values of the library (12-byte nonce, 16-byte reset token,
    32-byte hash) and small stand-ins for the helpers. *)

Definition test_parse (Shared : bool) (P : QUIC_RECV_PACKET) : option QUIC_RECV_PACKET :=
  match Packet_Buffer P with
  | first :: version :: cid :: _ =>
      let long := bool_decide (first >= 128) in
      Some {| Packet_Buffer := Packet_Buffer P;
              Packet_BufferLength := Packet_BufferLength P;
              ValidatedHeaderInv := true; IsShortHeader := negb long;
              ValidToken := false;
              DestCid := [cid]; DestCidLen := 1;
              SourceCid := if long then Some [] else None; SourceCidLen := 0;
              Invariant_IsLongHeader := long; Invariant_Version := version;
              LH_Type := 0; SH_KeyPhase := false |}
  | _ => None
  end.

#[local] Instance test_platform : Platform := {|
  QUIC_IV_LENGTH := 12;
  QUIC_MIN_STATELESS_RESET_PACKET_LENGTH := 39;
  QUIC_RECOMMENDED_STATELESS_RESET_PACKET_LENGTH := 41;
  QUIC_STATELESS_RESET_TOKEN_LENGTH := 16;
  QUIC_HASH_SHA256_SIZE := 32;
  QUIC_STATELESS_OPERATION_EXPIRATION_MS := 100;
  QUIC_MAX_BINDING_STATELESS_OPERATIONS := 100;
  QUIC_VERSION_RESERVED_MASK := 0x0f0f0f0f;
  QUIC_VERSION_RESERVED := 0x0a0a0a0a;
  QUIC_VERSION_VER_NEG := 0;
  QUIC_INITIAL := 0;
  sizeof_QUIC_RETRY_TOKEN_CONTENTS := 3;
  sizeof_OrigConnId := 20;
  QuicAddrGetFamily := λ a, byte_at a 0;
  QuicAddrCompareIp := λ a b, bool_decide (drop 1 a = drop 1 b);
  QuicAddrCompare := λ a b, bool_decide (a = b);
  QuicAddrHash := λ a, foldr Z.add 0 a;
  QuicTimeDiff32 := λ T1 T2, u32 (T2 - T1);
  QuicSessionHasAlpnOverlap := λ p q, bool_decide (p = q);
  QuicHashCompute := λ key input, Some (take 32 (key ++ input ++ replicate 32 0));
  QuicRetryTokenDecrypt := λ P Token,
    match Token with
    | [ok; addr; len] =>
        if decide (ok = 1) then
          Some {| Token_Timestamp := 0; Token_RemoteAddress := [addr];
                  Token_OrigConnId := []; Token_OrigConnIdLength := len;
                  Token_EncryptionTag := [] |}
        else None
    | _ => None
    end;
  QuicPacketValidateInvariant := test_parse;
  QuicPacketValidateLongHeaderV1 := λ P, Some (P, drop 3 (Packet_Buffer P));
  QuicIsVersionSupported := λ v, bool_decide (v = 1);
  is_v1_format_version := λ v, bool_decide (v = 1);
  QuicPacketIsHandshake := Invariant_IsLongHeader
|}.

(** ** The Retry nonce *)

Section NonceFacts.
Context `{Platform}.

Lemma foldr_lxor_snoc (l : list Z) (x : Z) :
  foldr Z.lxor 0 (l ++ [x]) = Z.lxor (foldr Z.lxor 0 l) x.
Proof.
  induction l as [|y l IH]; simpl.
  - by rewrite Z.lxor_0_r, Z.lxor_0_l.
  - by rewrite IH, Z.lxor_assoc.
Qed.

Lemma xor_class_S (i : nat) (cid : list Z) (k : nat) :
  xor_class (S i) cid k =
    if decide ((i mod QUIC_IV_LENGTH)%nat = k)
    then Z.lxor (xor_class i cid k) (byte_at cid i)
    else xor_class i cid k.
Proof.
  unfold xor_class. rewrite seq_S, filter_app. simpl.
  rewrite filter_cons, filter_nil.
  case_decide; simpl.
  - rewrite fmap_app. apply (foldr_lxor_snoc _ (byte_at cid i)).
  - by rewrite app_nil_r.
Qed.

Lemma xor_class_below (m : nat) (cid : list Z) (k : nat) :
  (m ≤ QUIC_IV_LENGTH)%nat →
  xor_class m cid k = if decide (k < m)%nat then byte_at cid k else 0.
Proof.
  induction m as [|m IH]; intros Hm.
  - rewrite decide_False by lia. reflexivity.
  - rewrite xor_class_S, IH by lia.
    rewrite Nat.mod_small by lia.
    repeat case_decide; try lia; subst; by rewrite ?Z.lxor_0_l.
Qed.

Lemma fold_iv_length (n i : nat) (cid Iv : list Z) :
  length (fold_iv n i cid Iv) = length Iv.
Proof.
  revert i Iv. induction n as [|n IH]; intros i Iv; simpl; [done|].
  by rewrite IH, length_insert.
Qed.

Lemma fold_iv_spec (n i : nat) (cid Iv : list Z) :
  (0 < QUIC_IV_LENGTH)%nat →
  length Iv = QUIC_IV_LENGTH →
  (∀ k, (k < QUIC_IV_LENGTH)%nat → Iv !! k = Some (xor_class i cid k)) →
  ∀ k, (k < QUIC_IV_LENGTH)%nat →
    fold_iv n i cid Iv !! k = Some (xor_class (i + n) cid k).
Proof.
  intros Hpos. revert i Iv.
  induction n as [|n IH]; intros i Iv Hlen Hinv k Hk; simpl.
  - rewrite Nat.add_0_r. by apply Hinv.
  - replace (i + S n)%nat with (S i + n)%nat by lia.
    apply IH; [by rewrite length_insert| |done].
    intros k' Hk'. rewrite xor_class_S.
    assert (i mod QUIC_IV_LENGTH < QUIC_IV_LENGTH)%nat
      by (apply Nat.mod_upper_bound; lia).
    case_decide as Heq.
    + subst k'. rewrite list_lookup_insert_eq by lia.
      unfold byte_at at 1. by rewrite Hinv.
    + rewrite list_lookup_insert_ne by done. by apply Hinv.
Qed.

(** C2, as the code has it.  For a CID shorter than the nonce, the nonce is
    the CID followed by zeros (the CID bytes in the leading positions); for
    a CID at least as long as the nonce, byte [k] of the nonce is the XOR of
    the CID bytes whose index is congruent to [k] modulo the nonce length.
    In both cases the nonce does not depend on what the stack buffer
    held. *)
Theorem RetryIv_right_padded_or_folded (n : nat) (cid iv0 : list Z) :
  (0 < QUIC_IV_LENGTH)%nat →
  length iv0 = QUIC_IV_LENGTH →
  (n ≤ length cid)%nat →
  ((n < QUIC_IV_LENGTH)%nat → RetryIv n cid iv0 = right_padded n cid)
  ∧ ((QUIC_IV_LENGTH ≤ n)%nat →
       length (RetryIv n cid iv0) = QUIC_IV_LENGTH
       ∧ ∀ k, (k < QUIC_IV_LENGTH)%nat →
           RetryIv n cid iv0 !! k = Some (xor_class n cid k)).
Proof.
  intros Hpos Hlen Hcid. unfold RetryIv, right_padded, QuicCopyMemory, QuicZeroMemory.
  split; intros Hn.
  - rewrite decide_False by lia.
    rewrite drop_replicate, Hlen. done.
  - rewrite decide_True by lia.
    assert (Hcopy : take QUIC_IV_LENGTH cid ++ drop QUIC_IV_LENGTH iv0
                    = take QUIC_IV_LENGTH cid).
    { rewrite drop_ge by lia. by rewrite app_nil_r. }
    rewrite Hcopy. split.
    + rewrite fold_iv_length, length_take. lia.
    + intros k Hk.
      replace n with (QUIC_IV_LENGTH + (n - QUIC_IV_LENGTH))%nat at 2 by lia.
      apply fold_iv_spec; [done|rewrite length_take; lia| |done].
      intros k' Hk'. rewrite xor_class_below by lia.
      rewrite decide_True by lia. rewrite lookup_take_lt by lia.
      unfold byte_at. destruct (cid !! k') eqn:E; [done|].
      apply lookup_ge_None in E. lia.
Qed.

End NonceFacts.

(** The theorem at an 8-byte and at a 14-byte CID. *)
Lemma RetryIv_right_padded_or_folded_witness :
  RetryIv 8 [1;2;3;4;5;6;7;8;9;10;11;12;13;14] (replicate 12 255)
    = [1;2;3;4;5;6;7;8;0;0;0;0]
  ∧ RetryIv 14 [1;2;3;4;5;6;7;8;9;10;11;12;13;14] (replicate 12 255) !! 1%nat
    = Some (Z.lxor 2 14).
Proof.
  pose proof (RetryIv_right_padded_or_folded (H := test_platform) 8
                [1;2;3;4;5;6;7;8;9;10;11;12;13;14] (replicate 12 255)) as H8.
  pose proof (RetryIv_right_padded_or_folded (H := test_platform) 14
                [1;2;3;4;5;6;7;8;9;10;11;12;13;14] (replicate 12 255)) as H14.
  split.
  - apply H8; simpl; lia.
  - destruct H14 as [_ H14]; [simpl; lia|reflexivity|simpl; lia|].
    destruct H14 as [_ H14]; [simpl; lia|].
    apply (H14 1%nat). simpl; lia.
Defined.

(** C2 as stated fails: with the 12-byte nonce and an 8-byte CID the code
    puts the CID bytes first and the zeros last, not the zeros first. *)
Lemma RetryIv_not_left_padded :
  RetryIv 8 [1;2;3;4;5;6;7;8;9;10;11;12;13;14] (replicate 12 255)
    = [1;2;3;4;5;6;7;8;0;0;0;0]
  ∧ left_padded 8 [1;2;3;4;5;6;7;8;9;10;11;12;13;14]
    = [0;0;0;0;1;2;3;4;5;6;7;8]
  ∧ RetryIv 8 [1;2;3;4;5;6;7;8;9;10;11;12;13;14] (replicate 12 255)
    ≠ left_padded 8 [1;2;3;4;5;6;7;8;9;10;11;12;13;14].
Proof. split; [reflexivity|]. split; [reflexivity|]. discriminate. Qed.

(** ** Test objects *)

Definition test_binding (IsExclusive : bool) : QUIC_BINDING :=
  {| RefCount := 1; Exclusive := IsExclusive; ServerOwned := true; Connected := false;
     StatelessOperCount := 0; Listeners := [];
     StatelessOperTable := []; StatelessOperList := [];
     RandomReservedVersion := 0x0a0a0a0a; ResetTokenHash := replicate 20 7 |}.

Definition test_state (IsExclusive : bool) : State :=
  {| Binding := test_binding IsExclusive; StatelessContexts := ∅; Connections := ∅;
     WorkerOperQ := []; WorkerConnQ := []; DatapathReturned := []; DropLog := [] |}.

Definition test_lib : QUIC_LIBRARY :=
  {| RetryMemoryLimit := 65; CurrentHandshakeMemoryUsage := 0;
     QuicTotalMemory := 1000000; CidTotalLength := 8 |}.

(** A surrounding in which nothing fails and no lookup finds a
    connection, at clock reading [TimeMs]. *)
Definition test_env (TimeMs : Z) : Env :=
  {| Env_TimeMs := TimeMs; Env_WorkerPoolNull := false; Env_Worker := 1%positive;
     Env_WorkerOverloaded := false; Env_PoolAllocOk := true; Env_OperAllocOk := true;
     Env_LookupLocalCid := None; Env_LookupRemoteHash := None;
     Env_ConnInitialize := Some 1%positive; Env_TryAddRefBinding := true;
     Env_AddRemoteHash := RemoteHashInserted; Env_TestHookReceive := None;
     Env_Lib := test_lib |}.

(** A datagram of [Length] bytes that starts with [Buffer], from the remote
    address [Remote]. *)
Definition test_datagram (Handle : ptr) (Remote : QUIC_ADDR) (Buffer : list Z)
    (Length : Z) : QUIC_RECV_DATAGRAM :=
  {| Datagram_Handle := Handle; Datagram_Buffer := Buffer;
     Datagram_BufferLength := Length;
     Tuple_LocalAddress := [2; 0]; Tuple_RemoteAddress := Remote;
     Datagram_Packet := zeroed_packet Buffer Length |}.

(** ** Machine integers *)

Lemma u8_small (x : Z) : 0 ≤ x < 256 → u8 x = x.
Proof. intros. unfold u8, wrap. by apply Z.mod_small. Qed.

Lemma u8_range (x : Z) : 0 ≤ u8 x < 256.
Proof. unfold u8, wrap. apply Z.mod_pos_bound. done. Qed.

Lemma u32_small (x : Z) : 0 ≤ x < 2 ^ 32 → u32 x = x.
Proof. intros. unfold u32, wrap. by apply Z.mod_small. Qed.

Lemma u32_range (x : Z) : 0 ≤ u32 x < 2 ^ 32.
Proof. unfold u32, wrap. apply Z.mod_pos_bound. done. Qed.

(** ** The stateless reset length *)

Section ResetLengthFacts.
Context `{Platform}.

Lemma QueueStatelessReset_true_long (E : Env) (D : QUIC_RECV_DATAGRAM)
    (Next : list QUIC_RECV_DATAGRAM) (s : State) :
  (QuicBindingQueueStatelessReset E D Next s).2 = true →
  Datagram_BufferLength D > QUIC_MIN_STATELESS_RESET_PACKET_LENGTH
  ∧ Exclusive (Binding s) = false.
Proof.
  unfold QuicBindingQueueStatelessReset.
  case_decide; [done|]. destruct (Exclusive (Binding s)); [done|]. intros _. lia.
Qed.

Lemma shifted_random_range (RandomByte : Z) : 0 ≤ Z.shiftr (u8 RandomByte) 5 ≤ 7.
Proof.
  pose proof (u8_range RandomByte) as Hr.
  rewrite Z.shiftr_div_pow2 by lia.
  change (2 ^ 5) with 32. split.
  - apply Z.div_pos; lia.
  - assert (u8 RandomByte `div` 32 < 8) by (apply Z.div_lt_upper_bound; lia). lia.
Qed.

(** C4.  A short-header datagram of length [L] for which
    QuicBindingQueueStatelessReset queues the reset has [L] above the
    minimum, and the reset built for it has length
    [max MIN (min (L - 1) (RECOMMENDED + r))] for the three random bits
    [r]; so it is at least the minimum, shorter than [L], and exactly the
    minimum when [L] is the minimum plus one.  The constants are taken with
    [0 <= MIN <= RECOMMENDED] and [RECOMMENDED + 7] fitting the [uint8_t]. *)
Theorem StatelessReset_length (E : Env) (D : QUIC_RECV_DATAGRAM)
    (Next : list QUIC_RECV_DATAGRAM) (s : State) (RandomByte : Z) :
  0 ≤ QUIC_MIN_STATELESS_RESET_PACKET_LENGTH →
  QUIC_MIN_STATELESS_RESET_PACKET_LENGTH ≤ QUIC_RECOMMENDED_STATELESS_RESET_PACKET_LENGTH →
  QUIC_RECOMMENDED_STATELESS_RESET_PACKET_LENGTH + 7 ≤ 255 →
  (QuicBindingQueueStatelessReset E D Next s).2 = true →
  let L := Datagram_BufferLength D in
  let MIN := QUIC_MIN_STATELESS_RESET_PACKET_LENGTH in
  let len := StatelessResetPacketLength RandomByte L in
  L > MIN
  ∧ (∃ r, 0 ≤ r ≤ 7
        ∧ len = Z.max MIN
                  (Z.min (L - 1) (QUIC_RECOMMENDED_STATELESS_RESET_PACKET_LENGTH + r)))
  ∧ MIN ≤ len < L
  ∧ (L = MIN + 1 → len = MIN).
Proof.
  intros Hmin Hrec Hfit Hq L MIN len.
  apply QueueStatelessReset_true_long in Hq as [HL _].
  fold L MIN in HL.
  pose proof (shifted_random_range RandomByte) as Hr.
  assert (Hlen : len = Z.min (L - 1)
                   (QUIC_RECOMMENDED_STATELESS_RESET_PACKET_LENGTH
                    + Z.shiftr (u8 RandomByte) 5)).
  { subst len. unfold StatelessResetPacketLength. fold L.
    rewrite (u8_small (_ + _)) by lia.
    case_decide.
    - rewrite (u8_small L) by lia. rewrite u8_small by lia. lia.
    - lia. }
  split; [done|]. split; [|split].
  - exists (Z.shiftr (u8 RandomByte) 5). split; [done|]. subst MIN. lia.
  - subst MIN. lia.
  - intros ->. subst MIN. lia.
Qed.

End ResetLengthFacts.

(** The theorem at a 40-byte datagram, one byte over the minimum of the
    test platform: the reset has 39 bytes. *)
Lemma StatelessReset_length_witness :
  StatelessResetPacketLength 255 40 = 39.
Proof.
  pose proof (StatelessReset_length (H := test_platform) (test_env 0)
                (test_datagram 1%positive [2; 9] [64; 0; 5] 40) [] (test_state false) 255) as Hw.
  destruct Hw as (_ & _ & _ & Hw); [(simpl; lia)..|reflexivity|].
  apply Hw. reflexivity.
Defined.

(** ** The Retry admission decision *)

Section RetryFacts.
Context `{Platform}.

(** What QuicBindingValidateRetryToken accepts. *)
Definition token_accepted (D : QUIC_RECV_DATAGRAM) (P : QUIC_RECV_PACKET)
    (TokenLength : Z) (Token : list Z) : Prop :=
  TokenLength = sizeof_QUIC_RETRY_TOKEN_CONTENTS
  ∧ ∃ T, QuicRetryTokenDecrypt P Token = Some T
       ∧ Token_OrigConnIdLength T ≤ sizeof_OrigConnId
       ∧ QuicAddrCompare (Token_RemoteAddress T) (Tuple_RemoteAddress D) = true.

(** The three conditions that the claim C6 names. *)
Definition token_accepted_as_claimed (D : QUIC_RECV_DATAGRAM) (P : QUIC_RECV_PACKET)
    (TokenLength : Z) (Token : list Z) : Prop :=
  TokenLength = sizeof_QUIC_RETRY_TOKEN_CONTENTS
  ∧ ∃ T, QuicRetryTokenDecrypt P Token = Some T
       ∧ QuicAddrCompare (Token_RemoteAddress T) (Tuple_RemoteAddress D) = true.

Lemma ValidateRetryToken_spec (D : QUIC_RECV_DATAGRAM) (P : QUIC_RECV_PACKET)
    (TokenLength : Z) (Token : list Z) (s : State) :
  (QuicBindingValidateRetryToken D P TokenLength Token s).2 = true
  ↔ token_accepted D P TokenLength Token.
Proof.
  unfold QuicBindingValidateRetryToken, token_accepted.
  case_decide as Hlen; simpl.
  { split; [done|]. intros [? _]. done. }
  destruct (QuicRetryTokenDecrypt P Token) as [T|]; simpl.
  2: { split; [done|]. intros [_ (T & ? & _)]. done. }
  case_decide as Hcid; simpl.
  { split; [done|]. intros [_ (T' & [= <-] & ? & _)]. lia. }
  destruct (QuicAddrCompare _ _) eqn:Hcmp; simpl.
  - split; [|done]. intros _. split; [done|].
    exists T. split; [done|]. split; [lia|done].
  - split; [done|]. intros [_ (T' & [= <-] & _ & ?)]. congruence.
Qed.

(** C6, as the code has it.  The function returns true exactly when there
    is no token and the handshake memory in use has reached the limit (the
    product computed in 64 bits); with a token it returns false, sets
    [ValidToken] when the token has the fixed length, decrypts, carries an
    original CID length within the CID buffer and the datagram's remote
    address, and sets [*DropPacket] otherwise; without a token it leaves
    the packet and [*DropPacket] alone. *)
Theorem ShouldRetryConnection_decision (Lib : QUIC_LIBRARY) (D : QUIC_RECV_DATAGRAM)
    (P : QUIC_RECV_PACKET) (TokenLength : Z) (Token : list Z) (DropPacket : bool)
    (s : State) :
  let r := QuicBindingShouldRetryConnection Lib D P TokenLength Token DropPacket s in
  let Packet' := r.1.1.2 in
  let DropPacket' := r.1.2 in
  (r.2 = true ↔
     TokenLength = 0
     ∧ CurrentHandshakeMemoryUsage Lib
       >= u64 (RetryMemoryLimit Lib * QuicTotalMemory Lib) / UINT16_MAX)
  ∧ (TokenLength ≠ 0 →
       r.2 = false
       ∧ (token_accepted D P TokenLength Token →
            ValidToken Packet' = true ∧ DropPacket' = DropPacket)
       ∧ (¬ token_accepted D P TokenLength Token →
            Packet' = P ∧ DropPacket' = true))
  ∧ (TokenLength = 0 → Packet' = P ∧ DropPacket' = DropPacket).
Proof.
  intros r Packet' DropPacket'. subst r Packet' DropPacket'.
  unfold QuicBindingShouldRetryConnection.
  pose proof (ValidateRetryToken_spec D P TokenLength Token s) as Hv.
  case_decide as Hlen.
  - destruct (QuicBindingValidateRetryToken D P TokenLength Token s) as [s' valid].
    simpl in Hv. destruct valid; simpl.
    + split; [split; [done|intros [? _]; done]|]. split; [|done].
      intros _. split; [done|]. split; [done|]. intros Hn. destruct Hn. by apply Hv.
    + split; [split; [done|intros [? _]; done]|]. split; [|done].
      intros _. split; [done|]. split; [|done]. intros Ha. apply Hv in Ha. done.
  - simpl. unfold CurrentMemoryLimit.
    split; [|split; [done|done]].
    rewrite bool_decide_eq_true. split; [done|]. intros [_ ?]. done.
Qed.

End RetryFacts.

(** C6 as stated fails: a token of the fixed length that decrypts and
    carries the datagram's remote address, but an original CID length of 21
    (over the 20 bytes of the CID buffer), is not marked valid; the packet
    is dropped. *)
Lemma ShouldRetryConnection_OrigConnIdLength :
  let D := test_datagram 1%positive [7] [192; 1; 5; 1; 7; 21] 1200 in
  let P := Datagram_Packet D in
  let r := QuicBindingShouldRetryConnection test_lib D P 3 [1; 7; 21] false
             (test_state false) in
  token_accepted_as_claimed D P 3 [1; 7; 21]
  ∧ ValidToken r.1.1.2 = false
  ∧ r.1.2 = true.
Proof.
  split; [|split; reflexivity].
  split; [reflexivity|].
  eexists. split; [reflexivity|]. reflexivity.
Qed.

(** ** The listener registry *)

Section ListenerFacts.
Context `{Platform}.

Definition family (L : QUIC_LISTENER) : Z := QuicAddrGetFamily (Listener_LocalAddress L).

(** Two listeners agree on family, specificity and address: same family,
    same wild-card flag, and the same IP unless the family is
    unspecified. *)
Definition same_bucket_address (A B : QUIC_LISTENER) : Prop :=
  family A = family B
  ∧ WildCard A = WildCard B
  ∧ (family A = AF_UNSPEC
     ∨ QuicAddrCompareIp (Listener_LocalAddress A) (Listener_LocalAddress B) = true).

Definition conflict (A B : QUIC_LISTENER) : Prop :=
  same_bucket_address A B
  ∧ QuicSessionHasAlpnOverlap (Listener_Session A) (Listener_Session B) = true.

(** The order of the list: family descending, and within a family the
    specific addresses before the wild-card ones. *)
Definition bucket_le (A B : QUIC_LISTENER) : Prop :=
  family A > family B
  ∨ (family A = family B ∧ (WildCard A = true → WildCard B = true)).

Definition strictly_before (A B : QUIC_LISTENER) : Prop :=
  family A > family B
  ∨ (family A = family B ∧ WildCard A = false ∧ WildCard B = true).

(** The invariant of the listener list: sorted, and free of conflicts. *)
Definition registry_ok (l : list QUIC_LISTENER) : Prop :=
  StronglySorted (λ A B, bucket_le A B ∧ ¬ conflict A B ∧ ¬ conflict B A) l.

(** The bindings that registrations and unregistrations lead to from a
    binding without listeners. *)
Inductive listeners_reachable : QUIC_BINDING → Prop :=
  | reachable_empty B :
      Listeners B = [] → listeners_reachable B
  | reachable_register ok NewListener B :
      listeners_reachable B →
      listeners_reachable (QuicBindingRegisterListener ok NewListener B).1
  | reachable_unregister Listener B :
      listeners_reachable B →
      listeners_reachable (QuicBindingUnregisterListener Listener B).

(** What one round of the loop does with the existing listener. *)
Inductive scan_step := ScanBreak | ScanContinue | ScanReject.

Definition classify (New Ex : QUIC_LISTENER) : scan_step :=
  if decide (family New > family Ex) then ScanBreak
  else if decide (family New ≠ family Ex) then ScanContinue
  else if negb (WildCard New) && WildCard Ex then ScanBreak
  else if negb (eqb (WildCard New) (WildCard Ex)) then ScanContinue
  else if bool_decide (family New ≠ AF_UNSPEC)
          && negb (QuicAddrCompareIp (Listener_LocalAddress New) (Listener_LocalAddress Ex))
       then ScanContinue
  else if QuicSessionHasAlpnOverlap (Listener_Session New) (Listener_Session Ex)
       then ScanReject
  else ScanContinue.

Lemma register_scan_cons (New Ex : QUIC_LISTENER) (rest : list QUIC_LISTENER) (i : nat) :
  register_scan New (Ex :: rest) i =
    match classify New Ex with
    | ScanBreak => (true, i)
    | ScanReject => (false, i)
    | ScanContinue => register_scan New rest (S i)
    end.
Proof.
  unfold classify, family. simpl.
  repeat (case_decide || case_match); try done.
Qed.

Lemma register_scan_shift (New : QUIC_LISTENER) (l : list QUIC_LISTENER) (i : nat) :
  register_scan New l i
  = ((register_scan New l 0).1, (i + (register_scan New l 0).2)%nat).
Proof.
  revert i. induction l as [|Ex rest IH]; intros i.
  - simpl. f_equal. lia.
  - rewrite !register_scan_cons. destruct (classify New Ex); simpl.
    + f_equal. lia.
    + rewrite (IH (S i)), (IH 1%nat). simpl. f_equal. lia.
    + f_equal. lia.
Qed.

Ltac classify_cases :=
  unfold classify, strictly_before, bucket_le, conflict, same_bucket_address;
  match goal with
  | |- context [QuicAddrCompareIp ?a ?b] => destruct (QuicAddrCompareIp a b) eqn:?
  end;
  match goal with
  | |- context [QuicSessionHasAlpnOverlap ?a ?b] =>
      destruct (QuicSessionHasAlpnOverlap a b) eqn:?
  end;
  match goal with
  | |- context [WildCard ?a = WildCard ?b] =>
      destruct (WildCard a) eqn:?, (WildCard b) eqn:?
  | |- context [negb (WildCard ?a) && WildCard ?b] =>
      destruct (WildCard a) eqn:?, (WildCard b) eqn:?
  end;
  simpl; repeat case_decide; repeat case_bool_decide; simpl;
  intros ?; try done;
  repeat match goal with
         | |- _ ∧ _ => split
         | |- ¬ _ => intros ?
         | Hc : _ ∧ _ |- _ => destruct Hc
         | Hc : _ ∨ _ |- _ => destruct Hc
         end;
  try done; try lia; try congruence;
  first [left; lia | right; repeat split; first [done | lia | congruence]
        | left; done | right; done].

Lemma classify_break (New Ex : QUIC_LISTENER) :
  classify New Ex = ScanBreak → strictly_before New Ex.
Proof. classify_cases. Qed.

Lemma classify_reject (New Ex : QUIC_LISTENER) :
  classify New Ex = ScanReject → conflict New Ex.
Proof. classify_cases. Qed.

Lemma classify_continue (New Ex : QUIC_LISTENER) :
  classify New Ex = ScanContinue → bucket_le Ex New ∧ ¬ conflict New Ex.
Proof. classify_cases. Qed.

Lemma strictly_before_trans (New Ex X : QUIC_LISTENER) :
  strictly_before New Ex → bucket_le Ex X → strictly_before New X.
Proof.
  unfold strictly_before, bucket_le.
  intros [?|(? & ? & ?)] [?|(? & ?)]; try (left; lia).
  right. split; [lia|]. split; [done|]. auto.
Qed.

Lemma strictly_before_apart (New X : QUIC_LISTENER) :
  strictly_before New X → bucket_le New X ∧ ¬ conflict New X ∧ ¬ conflict X New.
Proof.
  unfold strictly_before, bucket_le, conflict, same_bucket_address.
  intros [?|(? & HN & HX)].
  - split; [by left|]. split; intros [(? & _) _]; lia.
  - split; [right; split; [done|by rewrite HX]|].
    split; intros [(_ & ? & _) _]; congruence.
Qed.

Section Symmetric.
Hypothesis CompareIp_sym : ∀ a b, QuicAddrCompareIp a b = QuicAddrCompareIp b a.
Hypothesis AlpnOverlap_sym :
  ∀ p q, QuicSessionHasAlpnOverlap p q = QuicSessionHasAlpnOverlap q p.

Lemma conflict_sym (A B : QUIC_LISTENER) : conflict A B → conflict B A.
Proof.
  unfold conflict, same_bucket_address.
  intros [(Hf & Hw & Ha) Ho]. split; [|by rewrite AlpnOverlap_sym].
  split; [done|]. split; [done|].
  destruct Ha as [Ha|Ha]; [left; congruence|right; by rewrite CompareIp_sym].
Qed.

(** A scan that ends with [AddNewListener] set leaves the list in order and
    free of conflicts when the new listener is put in front of [Link]. *)
Lemma register_scan_insert (New : QUIC_LISTENER) (l : list QUIC_LISTENER) :
  registry_ok l →
  (register_scan New l 0).1 = true →
  registry_ok (take (register_scan New l 0).2 l ++ New :: drop (register_scan New l 0).2 l).
Proof.
  unfold registry_ok.
  induction l as [|Ex rest IH]; intros Hok Hadd.
  - simpl. apply StronglySorted_cons. split; [constructor|constructor].
  - apply StronglySorted_cons in Hok as [Hall Hrest].
    rewrite register_scan_cons in Hadd |- *.
    destruct (classify New Ex) eqn:Hc; simpl in *.
    + apply classify_break in Hc.
      apply StronglySorted_cons. split.
      * constructor.
        { by apply strictly_before_apart. }
        eapply Forall_impl; [exact Hall|]. intros X (HX & _ & _). simpl in HX.
        apply strictly_before_apart. by eapply strictly_before_trans.
      * apply StronglySorted_cons. done.
    + apply classify_continue in Hc as [Hle Hnc].
      rewrite (register_scan_shift New rest 1) in Hadd |- *. simpl in *.
      apply StronglySorted_cons. split; [|by apply IH].
      apply Forall_app. split.
      * by apply Forall_take.
      * constructor; [|by apply Forall_drop].
        split; [done|]. split; [|done]. intros Hcf. by apply Hnc, conflict_sym.
    + done.
Qed.

End Symmetric.

(** On a list in order, a scan that meets no conflicting listener before it
    stops has none behind the stop either. *)
Lemma register_scan_finds_conflict (New Ex : QUIC_LISTENER) (l : list QUIC_LISTENER) :
  registry_ok l → Ex ∈ l → conflict New Ex → (register_scan New l 0).1 = false.
Proof.
  unfold registry_ok.
  induction l as [|E0 rest IH]; intros Hok Hin Hcf.
  - by apply elem_of_nil in Hin.
  - apply StronglySorted_cons in Hok as [Hall Hrest].
    rewrite register_scan_cons.
    destruct (classify New E0) eqn:Hc; simpl.
    + exfalso. apply classify_break in Hc.
      apply elem_of_cons in Hin as [->|Hin].
      * by apply strictly_before_apart in Hc as (_ & ? & _).
      * rewrite Forall_forall in Hall. destruct (Hall _ Hin) as (Hle & _ & _).
        pose proof (strictly_before_trans _ _ _ Hc Hle) as Hb.
        by apply strictly_before_apart in Hb as (_ & ? & _).
    + apply classify_continue in Hc as [_ Hnc].
      apply elem_of_cons in Hin as [->|Hin]; [done|].
      rewrite (register_scan_shift New rest 1). simpl. by apply IH.
    + done.
Qed.

Lemma registry_ok_filter (P : QUIC_LISTENER → Prop) `{∀ x, Decision (P x)}
    (l : list QUIC_LISTENER) :
  registry_ok l → registry_ok (filter P l).
Proof.
  unfold registry_ok. induction l as [|E rest IH]; intros Hok; [done|].
  apply StronglySorted_cons in Hok as [Hall Hrest].
  rewrite filter_cons. case_decide.
  - apply StronglySorted_cons. split; [|by apply IH].
    rewrite Forall_forall in Hall |- *.
    intros x [_ Hx]%list_elem_of_filter. by apply Hall.
  - by apply IH.
Qed.

Lemma registry_ok_lookup (l : list QUIC_LISTENER) (i j : nat) (A B : QUIC_LISTENER) :
  registry_ok l → i ≠ j → l !! i = Some A → l !! j = Some B → ¬ conflict A B.
Proof.
  unfold registry_ok. intros Hok. revert i j.
  induction Hok as [|E rest Hrest IH Hall]; intros i j Hij Hi Hj.
  - by rewrite lookup_nil in Hi.
  - rewrite Forall_forall in Hall.
    destruct i as [|i], j as [|j]; simpl in *; try done.
    + injection Hi as <-. apply list_elem_of_lookup_2 in Hj.
      by destruct (Hall _ Hj) as (_ & ? & _).
    + injection Hj as <-. apply list_elem_of_lookup_2 in Hi.
      by destruct (Hall _ Hi) as (_ & _ & ?).
    + eapply IH; [|done..]. congruence.
Qed.

Section Registry.
Hypothesis CompareIp_sym : ∀ a b, QuicAddrCompareIp a b = QuicAddrCompareIp b a.
Hypothesis AlpnOverlap_sym :
  ∀ p q, QuicSessionHasAlpnOverlap p q = QuicSessionHasAlpnOverlap q p.

Lemma listeners_reachable_ok (B : QUIC_BINDING) :
  listeners_reachable B → registry_ok (Listeners B).
Proof.
  induction 1 as [B Hnil|ok New B Hr IH|Listener B Hr IH].
  - rewrite Hnil. constructor.
  - unfold QuicBindingRegisterListener.
    destruct (register_scan New (Listeners B) 0) as [Add Link] eqn:Hscan.
    destruct Add; [|done].
    assert (Hins : registry_ok (take Link (Listeners B) ++ New :: drop Link (Listeners B))).
    { pose proof (register_scan_insert CompareIp_sym AlpnOverlap_sym New _ IH) as Hi.
      rewrite Hscan in Hi. by apply Hi. }
    destruct (_ && _); simpl; [|done].
    by apply registry_ok_filter.
  - simpl. by apply registry_ok_filter.
Qed.

(** C9.  On a binding reached by registrations and unregistrations, a
    registration is refused, and the listener list left as it was,
    whenever a registered listener of the same family and specificity
    matches the new listener's address (or the family is unspecified) and
    overlaps it in ALPN; and no two registered listeners agree on family,
    specificity and address while overlapping in ALPN.  The address and
    ALPN comparisons are taken to be symmetric. *)
Theorem RegisterListener_refuses_conflicts (B : QUIC_BINDING) :
  listeners_reachable B →
  (∀ ok NewListener Existing,
     Existing ∈ Listeners B →
     conflict NewListener Existing →
     QuicBindingRegisterListener ok NewListener B = (B, false))
  ∧ (∀ i j L1 L2,
       i ≠ j → Listeners B !! i = Some L1 → Listeners B !! j = Some L2 →
       ¬ conflict L1 L2).
Proof.
  intros Hr. pose proof (listeners_reachable_ok B Hr) as Hok. split.
  - intros ok New Ex Hin Hcf. unfold QuicBindingRegisterListener.
    pose proof (register_scan_finds_conflict New Ex _ Hok Hin Hcf) as Hscan.
    destruct (register_scan New (Listeners B) 0) as [Add Link].
    simpl in Hscan. by subst Add.
  - intros i j L1 L2. by apply registry_ok_lookup.
Qed.

End Registry.

End ListenerFacts.

(** A binding with one IPv4 listener refuses a second listener on the same
    address and session. *)
Lemma RegisterListener_refuses_conflicts_witness :
  let L1 := {| Listener_Link := 10%positive; Listener_LocalAddress := [2; 1; 1];
               WildCard := false; Listener_Session := 5%positive |} in
  let L2 := {| Listener_Link := 11%positive; Listener_LocalAddress := [2; 1; 1];
               WildCard := false; Listener_Session := 5%positive |} in
  let B := (QuicBindingRegisterListener true L1 (test_binding false)).1 in
  QuicBindingRegisterListener true L2 B = (B, false).
Proof.
  intros L1 L2 B.
  assert (Hip : ∀ a b : QUIC_ADDR, QuicAddrCompareIp a b = QuicAddrCompareIp b a).
  { intros a b. simpl. apply bool_decide_ext. split; congruence. }
  assert (Halpn : ∀ p q : ptr, QuicSessionHasAlpnOverlap p q = QuicSessionHasAlpnOverlap q p).
  { intros p q. simpl. apply bool_decide_ext. split; congruence. }
  assert (Hr : listeners_reachable B).
  { apply reachable_register. by apply reachable_empty. }
  destruct (RegisterListener_refuses_conflicts (H := test_platform) Hip Halpn B Hr)
    as [Hrefuse _].
  apply (Hrefuse true L2 L1).
  - apply list_elem_of_here.
  - split; [|reflexivity]. split; [reflexivity|]. split; [reflexivity|].
    right. reflexivity.
Defined.

(** ** The stateless-operation cache *)

(** A call on the cache: a creation with what it reads from its
    surroundings, or a release. *)
Inductive cache_call :=
  | CallCreate (E : Env) (Worker : ptr) (Datagram : QUIC_RECV_DATAGRAM)
      (Next : list QUIC_RECV_DATAGRAM)
  | CallRelease (StatelessCtx : ptr) (ReturnDatagram : bool).

Section CacheFacts.
Context `{Platform}.

Definition cache_step (s : State) (c : cache_call) : State :=
  match c with
  | CallCreate E Worker Datagram Next =>
      (QuicBindingCreateStatelessOperation E Worker Datagram Next s).1
  | CallRelease StatelessCtx ReturnDatagram =>
      QuicBindingReleaseStatelessOperation StatelessCtx ReturnDatagram s
  end.

Definition cache_run (calls : list cache_call) (s : State) : State :=
  foldl cache_step s calls.

(** A state whose cache is empty, as QuicBindingInitialize leaves it. *)
Definition cache_empty (s : State) : Prop :=
  StatelessOperList (Binding s) = []
  ∧ StatelessOperTable (Binding s) = []
  ∧ StatelessOperCount (Binding s) = 0.

(** The remote address and the creation time of the context at [p]. *)
Definition ctx_key (s : State) (p : ptr) : QUIC_ADDR * Z :=
  match StatelessContexts s !! p with
  | Some c => (Ctx_RemoteAddress c, CreationTimeMs c)
  | None => ([], 0)
  end.

(** The invariant of the cache: the age list has no pointer twice, its
    contexts are allocated and not expired, the hash table holds the same
    pointers under the hashes of their addresses, and the count is the
    length of the list and within the cap. *)
Record cache_wf (s : State) : Prop := {
  wf_nodup : NoDup (StatelessOperList (Binding s));
  wf_live : ∀ p, p ∈ StatelessOperList (Binding s) →
              ∃ c, StatelessContexts s !! p = Some c ∧ IsExpired c = false;
  wf_table : (StatelessOperTable (Binding s)).*2 ≡ₚ StatelessOperList (Binding s);
  wf_signature : ∀ h p, (h, p) ∈ StatelessOperTable (Binding s) →
                   h = QuicAddrHash (ctx_key s p).1;
  wf_count : StatelessOperCount (Binding s)
             = Z.of_nat (length (StatelessOperList (Binding s)));
  wf_bound : Z.of_nat (length (StatelessOperList (Binding s)))
             ≤ QUIC_MAX_BINDING_STATELESS_OPERATIONS
}.

(** No remote address occurs twice in the cache. *)
Definition cache_distinct (s : State) : Prop :=
  NoDup ((ctx_key s <$> StatelessOperList (Binding s)).*1).

Lemma cache_empty_wf (s : State) :
  0 ≤ QUIC_MAX_BINDING_STATELESS_OPERATIONS → cache_empty s → cache_wf s.
Proof.
  intros Hmax (Hl & Ht & Hc). split; rewrite ?Hl, ?Ht, ?Hc; simpl; try done.
  - constructor.
  - intros p Hp. by apply elem_of_nil in Hp.
  - intros h p Hp. by apply elem_of_nil in Hp.
Qed.

Lemma ctx_key_ext (s s' : State) (p : ptr) :
  StatelessContexts s' !! p = StatelessContexts s !! p → ctx_key s' p = ctx_key s p.
Proof. unfold ctx_key. by intros ->. Qed.

Lemma ctx_key_fmap_ext (s s' : State) (l : list ptr) :
  (∀ p, p ∈ l → StatelessContexts s' !! p = StatelessContexts s !! p) →
  ctx_key s' <$> l = ctx_key s <$> l.
Proof.
  intros Hext. apply list_fmap_ext. intros i p Hp.
  apply ctx_key_ext, Hext. by eapply list_elem_of_lookup_2.
Qed.

Lemma HashtableRemove_snd (Table : list (Z * ptr)) (p : ptr) :
  (QuicHashtableRemove Table p).*2 = filter (λ q, q ≠ p) (Table.*2).
Proof.
  unfold QuicHashtableRemove. induction Table as [|[h q] t IH]; [done|].
  rewrite fmap_cons, !filter_cons. simpl.
  destruct (decide (q ≠ p)); [rewrite fmap_cons; simpl; f_equal|]; exact IH.
Qed.

Lemma filter_ne_head (p : ptr) (rest : list ptr) :
  NoDup (p :: rest) → filter (λ q, q ≠ p) (p :: rest) = rest.
Proof.
  intros [Hp _]%NoDup_cons. rewrite filter_cons, decide_False by (intros ?; done).
  induction rest as [|q rest IH]; [done|].
  apply not_elem_of_cons in Hp as [Hne Hp].
  rewrite filter_cons, decide_True by done. by rewrite IH.
Qed.

(** The state after one round of the ageing loop that removes the head
    [p], whose context is [c]. *)
Definition aged_head (p : ptr) (rest : list ptr) (c : QUIC_STATELESS_CONTEXT)
    (s : State) : State :=
  let B := Binding s in
  let h1 := <[p := set_IsExpired c]> (StatelessContexts s) in
  let B1 := set_StatelessOper (u32 (StatelessOperCount B - 1))
              (QuicHashtableRemove (StatelessOperTable B) p) rest B in
  let h2 := if IsProcessed c then delete p h1 else h1 in
  set_StatelessContexts h2 (set_Binding B1 s).

Lemma aged_head_frame (p : ptr) (rest : list ptr) (c : QUIC_STATELESS_CONTEXT)
    (s : State) (q : ptr) :
  q ≠ p → StatelessContexts (aged_head p rest c s) !! q = StatelessContexts s !! q.
Proof.
  intros Hne. unfold aged_head. simpl. destruct (IsProcessed c).
  - rewrite lookup_delete_ne by done. by rewrite lookup_insert_ne.
  - by rewrite lookup_insert_ne.
Qed.

Section CacheBounds.
Hypothesis MAX_range : 0 ≤ QUIC_MAX_BINDING_STATELESS_OPERATIONS < 2 ^ 32.

Lemma aged_head_wf (p : ptr) (rest : list ptr) (c : QUIC_STATELESS_CONTEXT) (s : State) :
  cache_wf s →
  StatelessOperList (Binding s) = p :: rest →
  cache_wf (aged_head p rest c s).
Proof.
  intros [Hnd Hlive Htab Hsig Hcnt Hbnd] Hl. rewrite Hl in *.
  pose proof Hnd as [Hp Hrest]%NoDup_cons.
  assert (Hframe : ∀ q, q ∈ rest →
            StatelessContexts (aged_head p rest c s) !! q = StatelessContexts s !! q).
  { intros q Hq. apply aged_head_frame. intros ->. done. }
  split; simpl.
  - done.
  - intros q Hq. rewrite Hframe by done. apply Hlive. by right.
  - rewrite HashtableRemove_snd, Htab. by rewrite filter_ne_head.
  - intros h q Hq. unfold QuicHashtableRemove in Hq.
    apply list_elem_of_filter in Hq as [Hne Hq]. simpl in Hne.
    rewrite (ctx_key_ext s) by (by apply aged_head_frame). by apply Hsig.
  - rewrite Hcnt. simpl length in *. rewrite u32_small by lia. lia.
  - simpl length in *. lia.
Qed.

(** The ageing loop removes a prefix of the list, every context of which
    has expired, stops at a context that has not, and keeps the
    invariant. *)
Lemma age_out_spec (fuel : nat) (TimeMs : Z) (s : State) :
  cache_wf s →
  (length (StatelessOperList (Binding s)) ≤ fuel)%nat →
  let s' := age_out fuel TimeMs s in
  ∃ k,
    StatelessOperList (Binding s') = drop k (StatelessOperList (Binding s))
    ∧ (∀ p, p ∈ take k (StatelessOperList (Binding s)) →
         ¬ QuicTimeDiff32 (ctx_key s p).2 TimeMs < QUIC_STATELESS_OPERATION_EXPIRATION_MS)
    ∧ match drop k (StatelessOperList (Binding s)) with
      | p :: _ => QuicTimeDiff32 (ctx_key s p).2 TimeMs
                  < QUIC_STATELESS_OPERATION_EXPIRATION_MS
      | [] => True
      end
    ∧ (∀ p, p ∈ drop k (StatelessOperList (Binding s)) →
         StatelessContexts s' !! p = StatelessContexts s !! p)
    ∧ cache_wf s'.
Proof.
  revert s. induction fuel as [|fuel IH]; intros s Hwf Hfuel; simpl.
  { destruct (StatelessOperList (Binding s)) eqn:Hl; [|simpl in Hfuel; lia].
    exists 0%nat. simpl. split_and!; try done.
    intros p Hp. by apply elem_of_nil in Hp. }
  destruct (StatelessOperList (Binding s)) as [|p rest] eqn:Hl.
  { exists 0%nat. simpl. split_and!; try done.
    intros p Hp. by apply elem_of_nil in Hp. }
  destruct (wf_live s Hwf p) as (c & Hc & Hexp); [rewrite Hl; by left|].
  rewrite Hc.
  case_decide as Hage.
  { exists 0%nat. simpl. split_and!; try done.
    - intros q Hq. by apply elem_of_nil in Hq.
    - unfold ctx_key. by rewrite Hc. }
  fold (aged_head p rest c s).
  pose proof (aged_head_wf p rest c s Hwf Hl) as Hwf'.
  pose proof (wf_nodup s Hwf) as Hnd. rewrite Hl in Hnd.
  apply NoDup_cons in Hnd as [Hp Hnd].
  assert (Hframe : ∀ q, q ∈ rest →
            StatelessContexts (aged_head p rest c s) !! q = StatelessContexts s !! q).
  { intros q Hq. apply aged_head_frame. intros ->. done. }
  destruct (IH (aged_head p rest c s) Hwf') as (k & Hk1 & Hk2 & Hk3 & Hk4 & Hk5).
  { simpl. simpl in Hfuel. lia. }
  simpl in Hk1, Hk2, Hk3, Hk4.
  exists (S k). simpl. split; [done|]. split; [|split; [|split; [|done]]].
  - intros q [->|Hq]%elem_of_cons.
    + unfold ctx_key. by rewrite Hc.
    + rewrite <- (ctx_key_ext s (aged_head p rest c s)).
      * by apply Hk2.
      * apply Hframe. by eapply subseteq_take.
  - destruct (drop k rest) as [|q ?] eqn:Hd; [done|].
    rewrite <- (ctx_key_ext s (aged_head p rest c s)); [done|].
    apply Hframe. apply (subseteq_drop k). rewrite Hd. by left.
  - intros q Hq. rewrite Hk4 by done. apply Hframe.
    by eapply subseteq_drop.
Qed.

(** A state that differs from [s] outside the cache, or in contexts that
    the cache does not list, or in what a release changes, is as good. *)
Lemma cache_wf_transfer (s s' : State) :
  cache_wf s →
  StatelessOperList (Binding s') = StatelessOperList (Binding s) →
  StatelessOperTable (Binding s') = StatelessOperTable (Binding s) →
  StatelessOperCount (Binding s') = StatelessOperCount (Binding s) →
  (∀ q, q ∈ StatelessOperList (Binding s) →
     ctx_key s' q = ctx_key s q
     ∧ ∃ c, StatelessContexts s' !! q = Some c ∧ IsExpired c = false) →
  cache_wf s'.
Proof.
  intros [Hnd Hlive Htab Hsig Hcnt Hbnd] Hl Ht Hc Hq.
  split; rewrite ?Hl, ?Ht, ?Hc; try done.
  - intros q Hin. by apply Hq.
  - intros h q Hin.
    assert (q ∈ StatelessOperList (Binding s)) as Hin'.
    { rewrite <- Htab. apply list_elem_of_fmap. by exists (h, q). }
    destruct (Hq q Hin') as [-> _]. by apply Hsig.
Qed.

Lemma age_out_wf (TimeMs : Z) (s : State) :
  cache_wf s →
  cache_wf (age_out (length (StatelessOperList (Binding s))) TimeMs s).
Proof.
  intros Hwf. by destruct (age_out_spec _ TimeMs s Hwf (le_n _)) as (k & _ & _ & _ & _ & ?).
Qed.

Lemma age_out_keys (TimeMs : Z) (s : State) :
  cache_wf s →
  let s' := age_out (length (StatelessOperList (Binding s))) TimeMs s in
  ∃ k, StatelessOperList (Binding s') = drop k (StatelessOperList (Binding s))
     ∧ ctx_key s' <$> StatelessOperList (Binding s')
       = drop k (ctx_key s <$> StatelessOperList (Binding s)).
Proof.
  intros Hwf.
  destruct (age_out_spec _ TimeMs s Hwf (le_n _)) as (k & Hl & _ & _ & Hframe & _).
  exists k. split; [done|]. simpl. rewrite Hl, <- fmap_drop.
  by apply ctx_key_fmap_ext.
Qed.

Lemma age_out_distinct (TimeMs : Z) (s : State) :
  cache_wf s → cache_distinct s →
  cache_distinct (age_out (length (StatelessOperList (Binding s))) TimeMs s).
Proof.
  intros Hwf Hd. destruct (age_out_keys TimeMs s Hwf) as (k & _ & Hk).
  unfold cache_distinct. rewrite Hk, fmap_drop.
  eapply sublist_NoDup; [exact Hd|apply sublist_drop].
Qed.

(** The walk over the bucket finds every listed context with the
    address. *)
Lemma already_in_table_complete (s : State) (p : ptr) (RemoteAddress : QUIC_ADDR) :
  (∀ a, QuicAddrCompare a a = true) →
  cache_wf s →
  p ∈ StatelessOperList (Binding s) →
  (ctx_key s p).1 = RemoteAddress →
  already_in_table s (QuicAddrHash RemoteAddress) RemoteAddress = true.
Proof.
  intros Hrefl Hwf Hp Hkey. unfold already_in_table.
  apply existsb_exists. exists p. split.
  - apply list_elem_of_In. unfold QuicHashtableLookup.
    rewrite <- (wf_table s Hwf) in Hp.
    apply list_elem_of_fmap in Hp as ([h q] & -> & Hin). simpl in *.
    apply list_elem_of_fmap. exists (h, q). split; [done|].
    apply list_elem_of_filter. split; [|done]. simpl.
    rewrite (wf_signature s Hwf h q Hin). by rewrite Hkey.
  - destruct (wf_live s Hwf p Hp) as (c & Hc & _).
    unfold ctx_key in Hkey. rewrite Hc in Hkey |- *. simpl in Hkey. subst.
    apply Hrefl.
Qed.

(** The state after the insertion of a new context. *)
Definition inserted (E : Env) (Worker : ptr) (Datagram : QUIC_RECV_DATAGRAM)
    (Next : list QUIC_RECV_DATAGRAM) (s : State) : State :=
  let B := Binding s in
  let p : ptr := fresh (dom (StatelessContexts s)) in
  let Ctx :=
    {| Ctx_Worker := Worker; Ctx_Datagram := Datagram :: Next;
       Ctx_RemoteAddress := Tuple_RemoteAddress Datagram;
       CreationTimeMs := Env_TimeMs E;
       HasBindingRef := false; IsProcessed := false; IsExpired := false |} in
  let B1 := set_StatelessOper (u32 (StatelessOperCount B + 1))
              (QuicHashtableInsert (StatelessOperTable B) p
                 (QuicAddrHash (Tuple_RemoteAddress Datagram)))
              (StatelessOperList B ++ [p]) B in
  set_StatelessContexts (<[p := Ctx]> (StatelessContexts s)) (set_Binding B1 s).

(** What a creation does, by cases: after the ageing loop it either only
    logs a drop, or inserts. *)
Lemma CreateStatelessOperation_cases (E : Env) (Worker : ptr)
    (Datagram : QUIC_RECV_DATAGRAM) (Next : list QUIC_RECV_DATAGRAM) (s : State) :
  let s1 := age_out (length (StatelessOperList (Binding s))) (Env_TimeMs E) s in
  let r := QuicBindingCreateStatelessOperation E Worker Datagram Next s in
  (∃ Reason, r = (QuicPacketLogDrop Reason s1, None)
     ∧ (StatelessOperCount (Binding s1) >= QUIC_MAX_BINDING_STATELESS_OPERATIONS
        ∨ already_in_table s1 (QuicAddrHash (Tuple_RemoteAddress Datagram))
            (Tuple_RemoteAddress Datagram) = true
        ∨ Env_PoolAllocOk E = false))
  ∨ (r = (inserted E Worker Datagram Next s1, Some (fresh (dom (StatelessContexts s1))))
     ∧ StatelessOperCount (Binding s1) < QUIC_MAX_BINDING_STATELESS_OPERATIONS
     ∧ already_in_table s1 (QuicAddrHash (Tuple_RemoteAddress Datagram))
         (Tuple_RemoteAddress Datagram) = false).
Proof.
  intros s1 r. subst r. unfold QuicBindingCreateStatelessOperation. fold s1.
  case_decide as Hcap; [left; eexists; split; [done|by left]|].
  destruct (already_in_table s1 _ _) eqn:Hdup;
    [left; eexists; split; [done|right; by left]|].
  destruct (Env_PoolAllocOk E) eqn:Halloc; simpl;
    [|left; eexists; split; [done|right; by right]].
  right. split; [done|]. split; [lia|done].
Qed.

Lemma fresh_not_listed (s : State) :
  cache_wf s → fresh (dom (StatelessContexts s)) ∉ StatelessOperList (Binding s).
Proof.
  intros Hwf Hin. destruct (wf_live s Hwf _ Hin) as (c & Hc & _).
  apply (is_fresh (dom (StatelessContexts s))).
  apply elem_of_dom. by exists c.
Qed.

Lemma inserted_frame (E : Env) (Worker : ptr) (Datagram : QUIC_RECV_DATAGRAM)
    (Next : list QUIC_RECV_DATAGRAM) (s : State) (q : ptr) :
  cache_wf s → q ∈ StatelessOperList (Binding s) →
  StatelessContexts (inserted E Worker Datagram Next s) !! q = StatelessContexts s !! q.
Proof.
  intros Hwf Hq. unfold inserted. simpl. apply lookup_insert_ne.
  intros <-. by apply (fresh_not_listed s Hwf).
Qed.

Lemma inserted_key (E : Env) (Worker : ptr) (Datagram : QUIC_RECV_DATAGRAM)
    (Next : list QUIC_RECV_DATAGRAM) (s : State) :
  ctx_key (inserted E Worker Datagram Next s) (fresh (dom (StatelessContexts s)))
  = (Tuple_RemoteAddress Datagram, Env_TimeMs E).
Proof. unfold ctx_key, inserted. simpl. by rewrite lookup_insert_eq. Qed.

Lemma inserted_keys (E : Env) (Worker : ptr) (Datagram : QUIC_RECV_DATAGRAM)
    (Next : list QUIC_RECV_DATAGRAM) (s : State) :
  cache_wf s →
  ctx_key (inserted E Worker Datagram Next s)
    <$> StatelessOperList (Binding (inserted E Worker Datagram Next s))
  = (ctx_key s <$> StatelessOperList (Binding s))
    ++ [(Tuple_RemoteAddress Datagram, Env_TimeMs E)].
Proof.
  intros Hwf. change (StatelessOperList (Binding (inserted E Worker Datagram Next s)))
    with (StatelessOperList (Binding s) ++ [fresh (dom (StatelessContexts s))]).
  rewrite fmap_app. simpl. rewrite inserted_key. f_equal.
  apply ctx_key_fmap_ext. intros q Hq. by apply inserted_frame.
Qed.

Lemma inserted_wf (E : Env) (Worker : ptr) (Datagram : QUIC_RECV_DATAGRAM)
    (Next : list QUIC_RECV_DATAGRAM) (s : State) :
  cache_wf s →
  StatelessOperCount (Binding s) < QUIC_MAX_BINDING_STATELESS_OPERATIONS →
  cache_wf (inserted E Worker Datagram Next s).
Proof.
  intros Hwf Hcap. pose proof (fresh_not_listed s Hwf) as Hfresh.
  pose proof (wf_count s Hwf) as Hcnt. pose proof (wf_bound s Hwf) as Hbnd.
  split.
  - simpl. apply NoDup_app. split; [by apply wf_nodup|]. split.
    + intros q Hq [->|Hn]%elem_of_cons; [done|]. by apply elem_of_nil in Hn.
    + apply NoDup_singleton.
  - intros q Hq. simpl in Hq. apply elem_of_app in Hq as [Hq|Hq].
    + rewrite inserted_frame by done. by apply wf_live.
    + apply list_elem_of_singleton in Hq as ->. eexists. split.
      * unfold inserted. simpl. apply lookup_insert_eq.
      * done.
  - simpl. unfold QuicHashtableInsert. rewrite fmap_app. simpl.
    by rewrite (wf_table s Hwf).
  - intros h q Hq. simpl in Hq. unfold QuicHashtableInsert in Hq.
    apply elem_of_app in Hq as [Hq|Hq].
    + rewrite (ctx_key_ext s).
      * by apply wf_signature.
      * apply inserted_frame; [done|]. rewrite <- (wf_table s Hwf).
        apply list_elem_of_fmap. by exists (h, q).
    + apply list_elem_of_singleton in Hq as [= -> ->]. by rewrite inserted_key.
  - simpl. rewrite length_app. simpl. rewrite Hcnt in Hcap |- *.
    rewrite u32_small by lia. lia.
  - simpl. rewrite length_app. simpl. lia.
Qed.

Lemma inserted_distinct (E : Env) (Worker : ptr) (Datagram : QUIC_RECV_DATAGRAM)
    (Next : list QUIC_RECV_DATAGRAM) (s : State) :
  (∀ a, QuicAddrCompare a a = true) →
  cache_wf s → cache_distinct s →
  already_in_table s (QuicAddrHash (Tuple_RemoteAddress Datagram))
    (Tuple_RemoteAddress Datagram) = false →
  cache_distinct (inserted E Worker Datagram Next s).
Proof.
  intros Hrefl Hwf Hd Hdup. unfold cache_distinct.
  rewrite inserted_keys by done. rewrite fmap_app. simpl.
  apply NoDup_app. split; [done|]. split; [|apply NoDup_singleton].
  intros a Ha Hin. apply list_elem_of_singleton in Hin as ->.
  apply list_elem_of_fmap in Ha as ([a t] & Heq & Ha). simpl in Heq. subst a.
  apply list_elem_of_fmap in Ha as (p & Hkey & Hp).
  rewrite (already_in_table_complete s p) in Hdup; [done..|].
  by rewrite <- Hkey.
Qed.

Lemma CreateStatelessOperation_wf (E : Env) (Worker : ptr)
    (Datagram : QUIC_RECV_DATAGRAM) (Next : list QUIC_RECV_DATAGRAM) (s : State) :
  cache_wf s →
  cache_wf (QuicBindingCreateStatelessOperation E Worker Datagram Next s).1.
Proof.
  intros Hwf. pose proof (age_out_wf (Env_TimeMs E) s Hwf) as Hwf1.
  destruct (CreateStatelessOperation_cases E Worker Datagram Next s)
    as [(Reason & -> & _)|(-> & Hcap & _)]; simpl.
  - eapply cache_wf_transfer; [exact Hwf1|done..|].
    intros q Hq. split; [done|]. exact (wf_live _ Hwf1 q Hq).
  - by apply inserted_wf.
Qed.

Lemma CreateStatelessOperation_distinct (E : Env) (Worker : ptr)
    (Datagram : QUIC_RECV_DATAGRAM) (Next : list QUIC_RECV_DATAGRAM) (s : State) :
  (∀ a, QuicAddrCompare a a = true) →
  cache_wf s → cache_distinct s →
  cache_distinct (QuicBindingCreateStatelessOperation E Worker Datagram Next s).1.
Proof.
  intros Hrefl Hwf Hd. pose proof (age_out_wf (Env_TimeMs E) s Hwf) as Hwf1.
  pose proof (age_out_distinct (Env_TimeMs E) s Hwf Hd) as Hd1.
  destruct (CreateStatelessOperation_cases E Worker Datagram Next s)
    as [(Reason & -> & _)|(-> & _ & Hdup)]; simpl.
  - done.
  - by apply inserted_distinct.
Qed.

(** A release changes no list, table or count, and no address or creation
    time of a listed context. *)
Lemma ReleaseStatelessOperation_frame (p : ptr) (ReturnDatagram : bool) (s : State) :
  cache_wf s →
  let s' := QuicBindingReleaseStatelessOperation p ReturnDatagram s in
  StatelessOperList (Binding s') = StatelessOperList (Binding s)
  ∧ StatelessOperTable (Binding s') = StatelessOperTable (Binding s)
  ∧ StatelessOperCount (Binding s') = StatelessOperCount (Binding s)
  ∧ ∀ q, q ∈ StatelessOperList (Binding s) →
      ctx_key s' q = ctx_key s q
      ∧ ∃ c, StatelessContexts s' !! q = Some c ∧ IsExpired c = false.
Proof.
  intros Hwf s'. subst s'. unfold QuicBindingReleaseStatelessOperation.
  destruct (StatelessContexts s !! p) as [c|] eqn:Hc.
  2: { split_and!; try done. intros q Hq. split; [done|]. by apply wf_live. }
  assert (Hlisted : ∀ q, q ∈ StatelessOperList (Binding s) → q = p → IsExpired c = false).
  { intros q Hq ->. destruct (wf_live s Hwf p Hq) as (c' & Hc' & ?). congruence. }
  destruct ReturnDatagram, (HasBindingRef c), (IsExpired c) eqn:Hexp; simpl;
    (split; [done|]); (split; [done|]); (split; [done|]); intros q Hq;
    (destruct (decide (q = p)) as [->|Hne];
      [ specialize (Hlisted p Hq eq_refl); try done;
        unfold ctx_key; simpl; rewrite lookup_insert_eq, Hc; simpl;
        (split; [done|]); eexists; (split; [done|]); done
      | unfold ctx_key; simpl;
        rewrite ?lookup_delete_ne, ?lookup_insert_ne by done;
        (split; [done|]); by apply wf_live ]).
Qed.

Lemma ReleaseStatelessOperation_wf (p : ptr) (ReturnDatagram : bool) (s : State) :
  cache_wf s → cache_wf (QuicBindingReleaseStatelessOperation p ReturnDatagram s).
Proof.
  intros Hwf.
  destruct (ReleaseStatelessOperation_frame p ReturnDatagram s Hwf) as (? & ? & ? & ?).
  by eapply cache_wf_transfer.
Qed.

Lemma ReleaseStatelessOperation_keys (p : ptr) (ReturnDatagram : bool) (s : State) :
  cache_wf s →
  let s' := QuicBindingReleaseStatelessOperation p ReturnDatagram s in
  ctx_key s' <$> StatelessOperList (Binding s')
  = ctx_key s <$> StatelessOperList (Binding s).
Proof.
  intros Hwf s'.
  destruct (ReleaseStatelessOperation_frame p ReturnDatagram s Hwf) as (Hl & _ & _ & Hq).
  fold s' in Hl, Hq. rewrite Hl. apply list_fmap_ext. intros i q Hi.
  apply Hq. by eapply list_elem_of_lookup_2.
Qed.

Lemma cache_run_wf (calls : list cache_call) (s : State) :
  cache_wf s → cache_wf (cache_run calls s).
Proof.
  revert s. induction calls as [|c calls IH]; intros s Hwf; [done|].
  simpl. apply IH. destruct c; simpl.
  - by apply CreateStatelessOperation_wf.
  - by apply ReleaseStatelessOperation_wf.
Qed.

Lemma cache_run_distinct (calls : list cache_call) (s : State) :
  (∀ a, QuicAddrCompare a a = true) →
  cache_wf s → cache_distinct s → cache_distinct (cache_run calls s).
Proof.
  intros Hrefl. revert s. induction calls as [|c calls IH]; intros s Hwf Hd; [done|].
  simpl. destruct c; simpl.
  - apply IH; [by apply CreateStatelessOperation_wf|].
    by apply CreateStatelessOperation_distinct.
  - apply IH; [by apply ReleaseStatelessOperation_wf|].
    unfold cache_distinct. by rewrite ReleaseStatelessOperation_keys.
Qed.

(** C7.  After any sequence of creations and releases on a binding whose
    cache started empty, the age list and the hash table hold the same
    contexts, at most QUIC_MAX_BINDING_STATELESS_OPERATIONS of them, and no
    two of them have the same remote address; and a creation for a remote
    address that has an entry which has not expired returns NULL, inserts
    nothing and leaves that entry in the cache.  The cap is taken within
    the [uint32_t] count, and the address comparison to accept equal
    addresses. *)
Theorem cache_bounded_and_distinct (s0 : State) (calls : list cache_call) :
  (∀ a, QuicAddrCompare a a = true) →
  cache_empty s0 →
  let s := cache_run calls s0 in
  let l := StatelessOperList (Binding s) in
  (Z.of_nat (length l) ≤ QUIC_MAX_BINDING_STATELESS_OPERATIONS
   ∧ Z.of_nat (length (StatelessOperTable (Binding s)))
     ≤ QUIC_MAX_BINDING_STATELESS_OPERATIONS
   ∧ (StatelessOperTable (Binding s)).*2 ≡ₚ l)
  ∧ (∀ i j p q c d,
       l !! i = Some p → l !! j = Some q →
       StatelessContexts s !! p = Some c → StatelessContexts s !! q = Some d →
       Ctx_RemoteAddress c = Ctx_RemoteAddress d → i = j)
  ∧ (∀ E Worker Datagram Next p c,
       p ∈ l → StatelessContexts s !! p = Some c →
       Ctx_RemoteAddress c = Tuple_RemoteAddress Datagram →
       QuicTimeDiff32 (CreationTimeMs c) (Env_TimeMs E)
         < QUIC_STATELESS_OPERATION_EXPIRATION_MS →
       let r := QuicBindingCreateStatelessOperation E Worker Datagram Next s in
       r.2 = None
       ∧ p ∈ StatelessOperList (Binding r.1)
       ∧ ∀ q, q ∈ StatelessOperList (Binding r.1) → q ∈ l).
Proof.
  intros Hrefl Hempty s l.
  assert (Hwf0 : cache_wf s0) by (apply cache_empty_wf; [lia|done]).
  assert (Hd0 : cache_distinct s0).
  { unfold cache_distinct. destruct Hempty as (-> & _). constructor. }
  pose proof (cache_run_wf calls s0 Hwf0) as Hwf. fold s in Hwf.
  pose proof (cache_run_distinct calls s0 Hrefl Hwf0 Hd0) as Hd. fold s in Hd.
  split; [|split].
  - pose proof (wf_bound s Hwf) as Hb. pose proof (wf_table s Hwf) as Ht.
    fold l in Hb, Ht. split; [done|]. split; [|done].
    rewrite <- (length_fmap snd), Ht. done.
  - intros i j p q c d Hi Hj Hc Hdq Heq.
    unfold cache_distinct in Hd. fold l in Hd.
    eapply NoDup_lookup; [exact Hd| |].
    + rewrite !list_lookup_fmap, Hi. simpl. unfold ctx_key. by rewrite Hc.
    + rewrite !list_lookup_fmap, Hj. simpl. unfold ctx_key. rewrite Hdq. simpl.
      by rewrite Heq.
  - intros E Worker Datagram Next p c Hp Hc Haddr Hage r.
    destruct (age_out_spec _ (Env_TimeMs E) s Hwf (le_n _))
      as (k & Hl & Hexp & _ & Hframe & Hwf1).
    fold l in Hl, Hexp, Hframe.
    set (s1 := age_out (length l) (Env_TimeMs E) s) in *.
    assert (Hp1 : p ∈ drop k l).
    { rewrite <- (take_drop k l) in Hp. apply elem_of_app in Hp as [Hp|Hp]; [|done].
      exfalso. apply (Hexp p Hp). unfold ctx_key. by rewrite Hc. }
    assert (Hdup : already_in_table s1 (QuicAddrHash (Tuple_RemoteAddress Datagram))
                     (Tuple_RemoteAddress Datagram) = true).
    { apply (already_in_table_complete s1 p); [done|done|by rewrite Hl|].
      unfold ctx_key. rewrite (Hframe p Hp1), Hc. done. }
    destruct (CreateStatelessOperation_cases E Worker Datagram Next s)
      as [(Reason & Hr & _)|(_ & _ & Hno)].
    + fold l s1 r in Hr. rewrite Hr. simpl. split; [done|]. rewrite Hl.
      split; [done|]. intros q Hq. by eapply subseteq_drop.
    + fold l s1 in Hno. congruence.
Qed.

(** *** Ageing *)

(** The ages of the listed contexts at clock reading [T], oldest entry of
    the list first. *)
Definition ages (T : Z) (s : State) : list Z :=
  (λ k : QUIC_ADDR * Z, QuicTimeDiff32 k.2 T)
    <$> (ctx_key s <$> StatelessOperList (Binding s)).

(** Ordered by age, the oldest first, and every context younger than the
    expiration time. *)
Definition fresh_sorted (T : Z) (s : State) : Prop :=
  StronglySorted Z.ge (ages T s)
  ∧ Forall (λ a, a < QUIC_STATELESS_OPERATION_EXPIRATION_MS) (ages T s).

(** The clock readings of successive creations: from one creation to the
    next the 32-bit clock advances by less than
    [2^32 - QUIC_STATELESS_OPERATION_EXPIRATION_MS] milliseconds.  [last] is
    the reading of the latest creation so far. *)
Fixpoint clock_ok (last : option Z) (calls : list cache_call) : Prop :=
  match calls with
  | [] => True
  | CallCreate E _ _ _ :: calls' =>
      match last with
      | Some T => QuicTimeDiff32 T (Env_TimeMs E)
                  < 2 ^ 32 - QUIC_STATELESS_OPERATION_EXPIRATION_MS
      | None => True
      end
      ∧ clock_ok (Some (Env_TimeMs E)) calls'
  | CallRelease _ _ :: calls' => clock_ok last calls'
  end.

Fixpoint last_create (last : option Z) (calls : list cache_call) : option Z :=
  match calls with
  | [] => last
  | CallCreate E _ _ _ :: calls' => last_create (Some (Env_TimeMs E)) calls'
  | CallRelease _ _ :: calls' => last_create last calls'
  end.

Definition clock_inv (last : option Z) (s : State) : Prop :=
  match last with
  | Some T => fresh_sorted T s
  | None => StatelessOperList (Binding s) = []
  end.

Section Expiration.
Hypothesis EXPIRATION_pos : 0 < QUIC_STATELESS_OPERATION_EXPIRATION_MS.

(** The difference of two readings of the 32-bit millisecond clock wraps
    around. *)
Hypothesis QuicTimeDiff32_wraps : ∀ T1 T2, QuicTimeDiff32 T1 T2 = u32 (T2 - T1).

Lemma QuicTimeDiff32_range (T1 T2 : Z) : 0 ≤ QuicTimeDiff32 T1 T2 < 2 ^ 32.
Proof. rewrite QuicTimeDiff32_wraps. apply u32_range. Qed.

Lemma QuicTimeDiff32_self (T : Z) : QuicTimeDiff32 T T = 0.
Proof. by rewrite QuicTimeDiff32_wraps, Z.sub_diag. Qed.

Lemma QuicTimeDiff32_shift (c T T' : Z) :
  QuicTimeDiff32 c T + QuicTimeDiff32 T T' < 2 ^ 32 →
  QuicTimeDiff32 c T' = QuicTimeDiff32 c T + QuicTimeDiff32 T T'.
Proof.
  intros Hsum. pose proof (QuicTimeDiff32_range c T). pose proof (QuicTimeDiff32_range T T').
  rewrite !QuicTimeDiff32_wraps in *. unfold u32, wrap in *.
  replace (T' - c) with ((T - c) + (T' - T)) by lia.
  rewrite Z.add_mod by done. apply Z.mod_small. lia.
Qed.

Lemma fresh_sorted_advance (T T' : Z) (s : State) :
  fresh_sorted T s →
  QuicTimeDiff32 T T' < 2 ^ 32 - QUIC_STATELESS_OPERATION_EXPIRATION_MS →
  StronglySorted Z.ge (ages T' s).
Proof.
  intros [Hsorted Hfresh] Hgap.
  assert (Heq : ages T' s = (λ a, a + QuicTimeDiff32 T T') <$> ages T s).
  { unfold ages in *. revert Hfresh.
    generalize (ctx_key s <$> StatelessOperList (Binding s)). intros keys Hfresh.
    rewrite <- list_fmap_compose.
    apply Forall_fmap_ext_1. rewrite Forall_fmap in Hfresh.
    eapply Forall_impl; [exact Hfresh|]. intros k Hk. simpl in *.
    apply QuicTimeDiff32_shift. lia. }
  rewrite Heq. eapply StronglySorted_fmap; [|exact Hsorted].
  intros x y. lia.
Qed.

Lemma ages_drop_log (T : Z) (Reason : string) (s : State) :
  ages T (QuicPacketLogDrop Reason s) = ages T s.
Proof. done. Qed.

(** After the ageing loop at reading [T], a list in order of age holds
    only contexts younger than the expiration time. *)
Lemma age_out_fresh (T : Z) (s : State) :
  cache_wf s →
  StronglySorted Z.ge (ages T s) →
  fresh_sorted T (age_out (length (StatelessOperList (Binding s))) T s).
Proof.
  intros Hwf Hsorted.
  destruct (age_out_spec _ T s Hwf (le_n _)) as (k & Hl & _ & Hhead & Hframe & _).
  set (s1 := age_out _ T s) in *.
  assert (Hages : ages T s1 = drop k (ages T s)).
  { unfold ages. rewrite Hl, <- !fmap_drop. f_equal. by apply ctx_key_fmap_ext. }
  assert (Hs1 : StronglySorted Z.ge (ages T s1)).
  { rewrite Hages. rewrite <- (take_drop k (ages T s)) in Hsorted.
    by apply StronglySorted_app_1_r in Hsorted. }
  split; [done|].
  unfold ages in Hs1 |- *. rewrite Hl in Hs1 |- *.
  rewrite (ctx_key_fmap_ext s s1) in Hs1 |- * by done.
  destruct (drop k (StatelessOperList (Binding s))) as [|p rest]; [constructor|].
  rewrite !fmap_cons in Hs1 |- *. apply StronglySorted_cons in Hs1 as [Hall _].
  constructor; [done|]. eapply Forall_impl; [exact Hall|].
  intros a Ha. simpl in *. lia.
Qed.

Lemma CreateStatelessOperation_fresh (last : option Z) (E : Env) (Worker : ptr)
    (Datagram : QUIC_RECV_DATAGRAM) (Next : list QUIC_RECV_DATAGRAM) (s : State) :
  cache_wf s →
  clock_inv last s →
  match last with
  | Some T => QuicTimeDiff32 T (Env_TimeMs E)
              < 2 ^ 32 - QUIC_STATELESS_OPERATION_EXPIRATION_MS
  | None => True
  end →
  fresh_sorted (Env_TimeMs E)
    (QuicBindingCreateStatelessOperation E Worker Datagram Next s).1.
Proof.
  intros Hwf Hinv Hgap.
  assert (Hsorted : StronglySorted Z.ge (ages (Env_TimeMs E) s)).
  { destruct last as [T|]; simpl in Hinv.
    - by eapply fresh_sorted_advance.
    - unfold ages. rewrite Hinv. constructor. }
  pose proof (age_out_fresh (Env_TimeMs E) s Hwf Hsorted) as [Hs1 Hf1].
  pose proof (age_out_wf (Env_TimeMs E) s Hwf) as Hwf1.
  destruct (CreateStatelessOperation_cases E Worker Datagram Next s)
    as [(Reason & -> & _)|(-> & _ & _)]; simpl.
  - by split.
  - set (s1 := age_out _ (Env_TimeMs E) s) in *.
    unfold fresh_sorted, ages. rewrite inserted_keys by done.
    rewrite fmap_app. simpl. rewrite QuicTimeDiff32_self. split.
    + apply StronglySorted_app. split; [|split; [done|repeat constructor]].
      intros x1 x2 Hx1 Hx2. apply list_elem_of_singleton in Hx2 as ->.
      apply list_elem_of_fmap in Hx1 as (k' & -> & _).
      pose proof (QuicTimeDiff32_range k'.2 (Env_TimeMs E)). lia.
    + apply Forall_app. split; [done|]. by repeat constructor.
Qed.

Lemma cache_run_fresh (calls : list cache_call) (last : option Z) (s : State) :
  cache_wf s → clock_inv last s → clock_ok last calls →
  clock_inv (last_create last calls) (cache_run calls s).
Proof.
  revert last s. induction calls as [|c calls IH]; intros last s Hwf Hinv Hclock; [done|].
  destruct c as [E Worker Datagram Next|p ReturnDatagram]; simpl in *.
  - destruct Hclock as [Hgap Hclock].
    apply IH; [by apply CreateStatelessOperation_wf| |done].
    simpl. by eapply CreateStatelessOperation_fresh.
  - apply IH; [by apply ReleaseStatelessOperation_wf| |done].
    pose proof (ReleaseStatelessOperation_keys p ReturnDatagram s Hwf) as Hkeys.
    destruct last as [T|]; simpl in *.
    + unfold fresh_sorted, ages in *. by rewrite Hkeys.
    + by destruct (ReleaseStatelessOperation_frame p ReturnDatagram s Hwf) as (-> & _).
Qed.

(** C3, as the code has it.  Expired contexts leave the cache when the next
    creation runs its ageing loop, not before.  On a binding whose cache
    started empty, at the clock reading [T] of the latest creation every
    context in the cache is younger than
    QUIC_STATELESS_OPERATION_EXPIRATION_MS, provided the 32-bit clock
    advances by less than [2^32] minus that time from one creation to the
    next (the expiration time being positive, the cap within the
    [uint32_t] count, and QuicTimeDiff32 the difference of two readings
    modulo [2^32]). *)
Theorem cache_fresh_at_latest_create (s0 : State) (calls : list cache_call) (T : Z) :
  cache_empty s0 →
  clock_ok None calls →
  last_create None calls = Some T →
  let s := cache_run calls s0 in
  ∀ p, p ∈ StatelessOperList (Binding s) →
    ∃ c, StatelessContexts s !! p = Some c
       ∧ QuicTimeDiff32 (CreationTimeMs c) T < QUIC_STATELESS_OPERATION_EXPIRATION_MS.
Proof.
  intros Hempty Hclock Hlast s p Hp.
  assert (Hwf0 : cache_wf s0) by (apply cache_empty_wf; [lia|done]).
  pose proof (cache_run_wf calls s0 Hwf0) as Hwf. fold s in Hwf.
  pose proof (cache_run_fresh calls None s0 Hwf0 (proj1 Hempty) Hclock) as Hinv.
  rewrite Hlast in Hinv. fold s in Hinv. destruct Hinv as [_ Hfresh].
  destruct (wf_live s Hwf p Hp) as (c & Hc & _). exists c. split; [done|].
  unfold ages in Hfresh. rewrite !Forall_fmap, Forall_forall in Hfresh.
  specialize (Hfresh p Hp). simpl in Hfresh.
  unfold ctx_key in Hfresh. by rewrite Hc in Hfresh.
Qed.

End Expiration.

End CacheBounds.

End CacheFacts.

Lemma test_state_empty : cache_empty (test_state false).
Proof. by repeat split. Qed.

Lemma test_compare_refl : ∀ a : QUIC_ADDR, QuicAddrCompare a a = true.
Proof. intros a. by apply bool_decide_eq_true. Qed.

Lemma test_MAX_range : 0 ≤ QUIC_MAX_BINDING_STATELESS_OPERATIONS < 2 ^ 32.
Proof. simpl. lia. Qed.

(** Two datagrams from the same remote address, 50 ms apart: the second
    creation returns NULL and the cache keeps its one entry. *)
Lemma cache_bounded_and_distinct_witness :
  let D := test_datagram 1%positive [2; 9] [64; 0; 5] 60 in
  let s := cache_run [CallCreate (test_env 0) 1%positive D []] (test_state false) in
  let r := QuicBindingCreateStatelessOperation (test_env 50) 1%positive D [] s in
  r.2 = None ∧ StatelessOperList (Binding r.1) = [1%positive].
Proof.
  intros D s r.
  destruct (cache_bounded_and_distinct (H := test_platform) test_MAX_range
              (test_state false) [CallCreate (test_env 0) 1%positive D []]
              test_compare_refl test_state_empty) as (_ & _ & Hdup).
  destruct (Hdup (test_env 50) 1%positive D [] 1%positive
              {| Ctx_Worker := 1%positive; Ctx_Datagram := [D];
                 Ctx_RemoteAddress := [2; 9]; CreationTimeMs := 0;
                 HasBindingRef := false; IsProcessed := false; IsExpired := false |})
    as (Hnone & _ & _).
  - apply list_elem_of_here.
  - reflexivity.
  - reflexivity.
  - reflexivity.
  - split; [exact Hnone|reflexivity].
Defined.

(** Two creations 150 ms apart from different remote addresses: at the
    second creation the first context has been aged out and the one left
    is new. *)
Lemma cache_fresh_at_latest_create_witness :
  let D1 := test_datagram 1%positive [2; 9] [64; 0; 5] 60 in
  let D2 := test_datagram 2%positive [2; 8] [64; 0; 5] 60 in
  let s := cache_run [CallCreate (test_env 0) 1%positive D1 [];
                      CallCreate (test_env 150) 1%positive D2 []] (test_state false) in
  ∃ c, StatelessContexts s !! 2%positive = Some c
     ∧ QuicTimeDiff32 (CreationTimeMs c) 150 < QUIC_STATELESS_OPERATION_EXPIRATION_MS.
Proof.
  intros D1 D2 s.
  apply (cache_fresh_at_latest_create (H := test_platform) test_MAX_range
           ltac:(simpl; lia) (λ _ _, eq_refl) (test_state false)
           [CallCreate (test_env 0) 1%positive D1 [];
            CallCreate (test_env 150) 1%positive D2 []] 150).
  - exact test_state_empty.
  - simpl. split; [done|]. split; [|done]. vm_compute. reflexivity.
  - reflexivity.
  - vm_compute. apply list_elem_of_here.
Defined.

(** C3 as stated fails: the state that one creation at clock reading 0
    leaves is still the state of the cache 100 ms later when no creation
    has run, and its context is then 100 ms old, which is the expiration
    time of the test platform. *)
Lemma cache_entry_outlives_expiration :
  let D := test_datagram 1%positive [2; 9] [64; 0; 5] 60 in
  let s := cache_run [CallCreate (test_env 0) 1%positive D [];
                      CallRelease 1%positive true] (test_state false) in
  ∃ p c, p ∈ StatelessOperList (Binding s)
       ∧ StatelessContexts s !! p = Some c
       ∧ ¬ QuicTimeDiff32 (CreationTimeMs c) 100 < QUIC_STATELESS_OPERATION_EXPIRATION_MS.
Proof.
  intros D s. exists 1%positive. eexists. split; [|split].
  - vm_compute. apply list_elem_of_here.
  - vm_compute. reflexivity.
  - vm_compute. intros Hlt. discriminate Hlt.
Qed.

(** ** Connection creation *)

(** [test_env 0] with the given outcome of QuicLookupAddRemoteHash. *)
Definition hash_env (r : AddRemoteHashResult) : Env :=
  {| Env_TimeMs := 0; Env_WorkerPoolNull := false; Env_Worker := 1%positive;
     Env_WorkerOverloaded := false; Env_PoolAllocOk := true; Env_OperAllocOk := true;
     Env_LookupLocalCid := None; Env_LookupRemoteHash := None;
     Env_ConnInitialize := Some 9%positive; Env_TryAddRefBinding := true;
     Env_AddRemoteHash := r; Env_TestHookReceive := None;
     Env_Lib := test_lib |}.

(** A state with one connection, at address 1, whose backup operation is
    unused ([Used = 0]) or used ([Used = 1]). *)
Definition one_connection (Used : Z) : State :=
  set_Connections
    {[ 1%positive :=
         {| Conn_RefCount := 1; Conn_Worker := Some 1%positive; Paths0_Binding := true;
            SourceCids_Next := Some 8%positive; BackUpOperUsed := Used;
            BackUpOper := BackUpOper (initialized_connection 8%positive);
            BackupApiContext := BackupApiContext (initialized_connection 8%positive);
            Conn_OperQ := []; Conn_ReceiveQueue := [] |} ]}
    (test_state false).

(** C1 fails on the code.  The exit path takes the backup operation of
    [Connection], the connection that QuicLookupAddRemoteHash found, not of
    [NewConnection].  On a collision with the connection at address 1 the
    new connection (address 2) keeps its own backup operation unused and is
    queued the survivor's, whose flag is taken; when the survivor's backup
    operation is already in use the new connection is queued nothing; and
    when the insertion fails without a collision, [Connection] is NULL and
    the exit path dereferences it. *)
Theorem CreateConnection_takes_the_survivors_backup_operation :
  let D := test_datagram 1%positive [2; 9] [192; 1; 5] 1200 in
  match QuicBindingCreateConnection (hash_env (RemoteHashCollision 1%positive)) D
          (one_connection 0) with
  | Some (s, Connection) =>
      Connection = Some 1%positive
      ∧ (BackUpOperUsed <$> Connections s !! 2%positive) = Some 0
      ∧ (Conn_OperQ <$> Connections s !! 2%positive) = Some [BackUpOperOf 1%positive]
      ∧ (BackUpOperUsed <$> Connections s !! 1%positive) = Some 1
  | None => False
  end
  ∧ match QuicBindingCreateConnection (hash_env (RemoteHashCollision 1%positive)) D
            (one_connection 1) with
    | Some (s, Connection) =>
        Connection = Some 1%positive
        ∧ (Conn_OperQ <$> Connections s !! 2%positive) = Some []
    | None => False
    end
  ∧ QuicBindingCreateConnection (hash_env RemoteHashFailed) D (one_connection 0) = None.
Proof. vm_compute. repeat split. Qed.

(** ** What the receive path leaves alone *)

(** The fields of the binding that are set at creation and never written
    again. *)
Definition static (B : QUIC_BINDING) : bool * bool * bool * Z * list Z :=
  (Exclusive B, ServerOwned B, Connected B, RandomReservedVersion B, ResetTokenHash B).

(** The reason that the drop branch for exclusive bindings in
    QuicBindingQueueStatelessReset logs. *)
Definition exclusive_reset_reason : string := "No stateless reset on exclusive binding".

(** The effects of a call that leads from [s] to [s']: the static fields
    stay, the drop log grows by reasons other than
    [exclusive_reset_reason], and the workers are queued operations of
    types in [P] only. *)
Record effects (P : QUIC_OPERATION_TYPE → Prop) (s s' : State) : Prop := {
  eff_static : static (Binding s') = static (Binding s);
  eff_log : ∃ new, DropLog s' = DropLog s ++ new ∧ exclusive_reset_reason ∉ new;
  eff_ops : ∃ ops, WorkerOperQ s' = WorkerOperQ s ++ ops
                 ∧ Forall (λ o, P (Oper_Type o)) ops
}.

(** A call that touches neither the static fields, nor the log, nor the
    workers' queue. *)
Definition quiet (s s' : State) : Prop :=
  static (Binding s') = static (Binding s)
  ∧ DropLog s' = DropLog s
  ∧ WorkerOperQ s' = WorkerOperQ s.

Lemma quiet_effects (P : QUIC_OPERATION_TYPE → Prop) (s s' : State) :
  quiet s s' → effects P s s'.
Proof.
  intros (Hs & Hl & Ho). split; [done| |].
  - exists []. rewrite app_nil_r. split; [done|]. apply not_elem_of_nil.
  - exists []. rewrite app_nil_r. split; [done|]. constructor.
Qed.

Lemma quiet_refl (s : State) : quiet s s.
Proof. done. Qed.

Lemma quiet_trans (s1 s2 s3 : State) : quiet s1 s2 → quiet s2 s3 → quiet s1 s3.
Proof. intros (? & ? & ?) (? & ? & ?). repeat split; congruence. Qed.

Lemma effects_refl (P : QUIC_OPERATION_TYPE → Prop) (s : State) : effects P s s.
Proof. apply quiet_effects, quiet_refl. Qed.

Lemma effects_trans (P : QUIC_OPERATION_TYPE → Prop) (s1 s2 s3 : State) :
  effects P s1 s2 → effects P s2 s3 → effects P s1 s3.
Proof.
  intros [Hs1 (n1 & Hl1 & Hn1) (o1 & Ho1 & Hp1)] [Hs2 (n2 & Hl2 & Hn2) (o2 & Ho2 & Hp2)].
  split; [congruence| |].
  - exists (n1 ++ n2). rewrite Hl2, Hl1, app_assoc. split; [done|].
    rewrite elem_of_app. tauto.
  - exists (o1 ++ o2). rewrite Ho2, Ho1, app_assoc. split; [done|].
    by apply Forall_app.
Qed.

Lemma effects_weaken (P Q : QUIC_OPERATION_TYPE → Prop) (s s' : State) :
  (∀ t, P t → Q t) → effects P s s' → effects Q s s'.
Proof.
  intros HPQ [Hs Hl (o & Ho & Hp)]. split; [done..|].
  exists o. split; [done|]. eapply Forall_impl; [exact Hp|]. intros x. apply HPQ.
Qed.

Lemma effects_drop (P : QUIC_OPERATION_TYPE → Prop) (Reason : string) (s : State) :
  String.eqb Reason exclusive_reset_reason = false →
  effects P s (QuicPacketLogDrop Reason s).
Proof.
  intros Hne. split; [done| |].
  - exists [Reason]. split; [done|]. intros Hin.
    apply list_elem_of_singleton in Hin. rewrite <- Hin, String.eqb_refl in Hne. done.
  - exists []. simpl. rewrite app_nil_r. split; [done|]. constructor.
Qed.

Lemma effects_queue (P : QUIC_OPERATION_TYPE → Prop) (Oper : QUIC_OPERATION) (s : State) :
  P (Oper_Type Oper) → effects P s (QuicWorkerQueueOperation Oper s).
Proof.
  intros HP. split; [done| |].
  - exists []. simpl. rewrite app_nil_r. split; [done|]. apply not_elem_of_nil.
  - exists [Oper]. split; [done|]. by repeat constructor.
Qed.

Section EffectsOfCalls.
Context `{Platform}.

Lemma age_out_quiet (fuel : nat) (TimeMs : Z) (s : State) :
  quiet s (age_out fuel TimeMs s).
Proof.
  revert s. induction fuel as [|fuel IH]; intros s; simpl; [done|].
  destruct (StatelessOperList (Binding s)) as [|p rest]; [done|].
  destruct (StatelessContexts s !! p) as [c|]; [|done].
  case_decide; [done|].
  eapply quiet_trans; [|apply IH]. done.
Qed.

Lemma CreateStatelessOperation_quiet_or_drop (P : QUIC_OPERATION_TYPE → Prop)
    (E : Env) (Worker : ptr) (Datagram : QUIC_RECV_DATAGRAM)
    (Next : list QUIC_RECV_DATAGRAM) (s : State) :
  effects P s (QuicBindingCreateStatelessOperation E Worker Datagram Next s).1.
Proof.
  unfold QuicBindingCreateStatelessOperation.
  set (s1 := age_out _ _ s).
  assert (Hq : effects P s s1) by apply quiet_effects, age_out_quiet.
  case_decide; simpl.
  { eapply effects_trans; [exact Hq|]. by apply effects_drop. }
  destruct (already_in_table s1 _ _); simpl.
  { eapply effects_trans; [exact Hq|]. by apply effects_drop. }
  destruct (Env_PoolAllocOk E); simpl.
  - eapply effects_trans; [exact Hq|]. by apply quiet_effects.
  - eapply effects_trans; [exact Hq|]. by apply effects_drop.
Qed.

Lemma ReleaseStatelessOperation_quiet (p : ptr) (ReturnDatagram : bool) (s : State) :
  quiet s (QuicBindingReleaseStatelessOperation p ReturnDatagram s).
Proof.
  unfold QuicBindingReleaseStatelessOperation.
  destruct (StatelessContexts s !! p) as [c|]; [|done].
  by destruct ReturnDatagram, (HasBindingRef c), (IsExpired c).
Qed.

Lemma QueueStatelessOperation_effects (P : QUIC_OPERATION_TYPE → Prop) (E : Env)
    (OperType : QUIC_OPERATION_TYPE) (Datagram : QUIC_RECV_DATAGRAM)
    (Next : list QUIC_RECV_DATAGRAM) (s : State) :
  P OperType →
  effects P s (QuicBindingQueueStatelessOperation E OperType Datagram Next s).1.
Proof.
  intros HP. unfold QuicBindingQueueStatelessOperation.
  destruct (Env_WorkerPoolNull E); simpl; [by apply effects_drop|].
  destruct (Env_WorkerOverloaded E); simpl; [by apply effects_drop|].
  pose proof (CreateStatelessOperation_quiet_or_drop P E (Env_Worker E) Datagram Next s)
    as Hc.
  destruct (QuicBindingCreateStatelessOperation E (Env_Worker E) Datagram Next s)
    as [s1 [Context|]]; simpl in *; [|done].
  destruct (Env_OperAllocOk E); simpl.
  - eapply effects_trans; [exact Hc|]. by apply effects_queue.
  - eapply effects_trans; [exact Hc|].
    eapply effects_trans; [|apply quiet_effects, ReleaseStatelessOperation_quiet].
    by apply effects_drop.
Qed.

(** On a binding that is not exclusive, QuicBindingQueueStatelessReset logs
    no [exclusive_reset_reason] and queues nothing but a stateless
    reset. *)
Lemma QueueStatelessReset_effects (P : QUIC_OPERATION_TYPE → Prop) (E : Env)
    (Datagram : QUIC_RECV_DATAGRAM) (Next : list QUIC_RECV_DATAGRAM) (s : State) :
  Exclusive (Binding s) = false →
  P QUIC_OPER_TYPE_STATELESS_RESET →
  effects P s (QuicBindingQueueStatelessReset E Datagram Next s).1.
Proof.
  intros Hex HP. unfold QuicBindingQueueStatelessReset.
  case_decide; simpl; [by apply effects_drop|].
  rewrite Hex. by apply QueueStatelessOperation_effects.
Qed.

(** On an exclusive binding it queues nothing and returns FALSE. *)
Lemma QueueStatelessReset_exclusive (E : Env) (Datagram : QUIC_RECV_DATAGRAM)
    (Next : list QUIC_RECV_DATAGRAM) (s : State) :
  Exclusive (Binding s) = true →
  (QuicBindingQueueStatelessReset E Datagram Next s).2 = false
  ∧ WorkerOperQ (QuicBindingQueueStatelessReset E Datagram Next s).1 = WorkerOperQ s.
Proof.
  intros Hex. unfold QuicBindingQueueStatelessReset.
  case_decide; simpl; [done|]. by rewrite Hex.
Qed.

Lemma PreprocessDatagram_effects (P : QUIC_OPERATION_TYPE → Prop) (E : Env)
    (Datagram : QUIC_RECV_DATAGRAM) (s : State) :
  P QUIC_OPER_TYPE_VERSION_NEGOTIATION →
  effects P s (QuicBindingPreprocessDatagram E Datagram s).1.1.1.
Proof.
  intros HP. unfold QuicBindingPreprocessDatagram.
  destruct (QuicPacketValidateInvariant _ _) as [Packet|]; simpl; [|apply effects_refl].
  destruct (_ && _); simpl; [|apply effects_refl].
  destruct (negb _); simpl; [by apply effects_drop|].
  pose proof (QueueStatelessOperation_effects P E QUIC_OPER_TYPE_VERSION_NEGOTIATION
                (set_Packet Packet Datagram) [] s HP) as Hq.
  by destruct (QuicBindingQueueStatelessOperation _ _ _ _ _).
Qed.

Lemma PreprocessDatagram_handle (E : Env) (Datagram : QUIC_RECV_DATAGRAM) (s : State) :
  Datagram_Handle (QuicBindingPreprocessDatagram E Datagram s).1.1.2
  = Datagram_Handle Datagram.
Proof.
  unfold QuicBindingPreprocessDatagram.
  destruct (QuicPacketValidateInvariant _ _) as [Packet|]; simpl; [|done].
  destruct (_ && _); simpl; [|done].
  destruct (negb _); simpl; [done|].
  by destruct (QuicBindingQueueStatelessOperation _ _ _ _ _).
Qed.

Lemma ShouldRetryConnection_effects (P : QUIC_OPERATION_TYPE → Prop)
    (Lib : QUIC_LIBRARY) (D : QUIC_RECV_DATAGRAM) (Packet : QUIC_RECV_PACKET)
    (TokenLength : Z) (Token : list Z) (DropPacket : bool) (s : State) :
  effects P s
    (QuicBindingShouldRetryConnection Lib D Packet TokenLength Token DropPacket s).1.1.1.
Proof.
  unfold QuicBindingShouldRetryConnection.
  case_decide; simpl; [|apply effects_refl].
  assert (Hv : effects P s (QuicBindingValidateRetryToken D Packet TokenLength Token s).1).
  { unfold QuicBindingValidateRetryToken.
    case_decide; simpl; [by apply effects_drop|].
    destruct (QuicRetryTokenDecrypt _ _); simpl; [|by apply effects_drop].
    case_decide; simpl; [by apply effects_drop|].
    destruct (negb _); simpl; [by apply effects_drop|apply effects_refl]. }
  by destruct (QuicBindingValidateRetryToken D Packet TokenLength Token s) as [s' []].
Qed.

Lemma alter_connection_quiet (f : QUIC_CONNECTION → QUIC_CONNECTION) (c : ptr)
    (s : State) : quiet s (alter_connection f c s).
Proof. done. Qed.

Lemma CreateConnection_Exit_effects (P : QUIC_OPERATION_TYPE → Prop)
    (NewConnection : ptr) (BindingRefAdded : bool) (Connection : option ptr) (s : State) :
  match CreateConnection_Exit NewConnection BindingRefAdded Connection s with
  | Some (s', _) => effects P s s'
  | None => True
  end.
Proof.
  unfold CreateConnection_Exit.
  destruct BindingRefAdded; [|by apply quiet_effects].
  destruct Connection as [c|]; [|done].
  destruct (Connections _ !! c) as [C|]; [|done]. simpl.
  case_decide; by apply quiet_effects.
Qed.

Lemma effects_drop_quiet (P : QUIC_OPERATION_TYPE → Prop) (Reason : string)
    (s s1 : State) :
  quiet s s1 →
  String.eqb Reason exclusive_reset_reason = false →
  effects P s (QuicPacketLogDrop Reason s1).
Proof.
  intros Hq Hne. eapply effects_trans; [by apply quiet_effects|by apply effects_drop].
Qed.

Ltac exit_effects P :=
  lazy zeta;
  match goal with
  | |- match CreateConnection_Exit ?n ?b ?c ?s1 with _ => _ end =>
      let He := fresh "He" in
      pose proof (CreateConnection_Exit_effects P n b c s1) as He;
      destruct (CreateConnection_Exit n b c s1) as [[? ?]|]; [|done];
      eapply effects_trans; [|exact He];
      first [by apply quiet_effects | by apply effects_drop_quiet]
  end.

Lemma CreateConnection_effects (P : QUIC_OPERATION_TYPE → Prop) (E : Env)
    (Datagram : QUIC_RECV_DATAGRAM) (s : State) :
  match QuicBindingCreateConnection E Datagram s with
  | Some (s', _) => effects P s s'
  | None => True
  end.
Proof.
  unfold QuicBindingCreateConnection.
  destruct (Env_ConnInitialize E) as [SourceCid|]; [|by apply effects_drop].
  destruct (Env_WorkerOverloaded E); [exit_effects P|].
  destruct (Env_TryAddRefBinding E); cbn [negb]; [|exit_effects P].
  destruct (Env_AddRemoteHash E) as [|Existing|].
  - by apply quiet_effects.
  - exit_effects P.
  - exit_effects P.
Qed.

End EffectsOfCalls.

(** ** Delivery and the receive dispatcher *)

Section ReceiveFacts.
Context `{Platform}.

(** The operation types that a delivery on the binding of [s] may queue:
    none when the binding is exclusive, Retry and stateless reset
    otherwise. *)
Definition deliver_types (s : State) (t : QUIC_OPERATION_TYPE) : Prop :=
  Exclusive (Binding s) = false
  ∧ (t = QUIC_OPER_TYPE_RETRY ∨ t = QUIC_OPER_TYPE_STATELESS_RESET).

Definition receive_types (s : State) (t : QUIC_OPERATION_TYPE) : Prop :=
  t = QUIC_OPER_TYPE_VERSION_NEGOTIATION ∨ deliver_types s t.

Lemma effects_Exclusive (P : QUIC_OPERATION_TYPE → Prop) (s s' : State) :
  effects P s s' → Exclusive (Binding s') = Exclusive (Binding s).
Proof. intros [Hs _ _]. unfold static in Hs. congruence. Qed.

Lemma DeliverDatagrams_effects (E : Env) (DatagramChain : list QUIC_RECV_DATAGRAM)
    (DatagramChainLength : Z) (s : State) :
  match QuicBindingDeliverDatagrams E DatagramChain DatagramChainLength s with
  | Some (s', _) => effects (deliver_types s) s s'
  | None => True
  end.
Proof.
  unfold QuicBindingDeliverDatagrams.
  destruct DatagramChain as [|Datagram Next]; [done|].
  lazy zeta.
  generalize (if negb (ServerOwned (Binding s)) || IsShortHeader (Datagram_Packet Datagram)
              then Env_LookupLocalCid E else Env_LookupRemoteHash E).
  intros [c|]; [by apply quiet_effects|].
  cbn [lookup_result].
  destruct (Exclusive (Binding s)) eqn:Hex; [by apply effects_drop|].
  destruct (IsShortHeader (Datagram_Packet Datagram)).
  { pose proof (QueueStatelessReset_effects (deliver_types s) E Datagram Next s Hex) as Hq.
    destruct (QuicBindingQueueStatelessReset E Datagram Next s) as [s' ok].
    apply Hq. split; [done|by right]. }
  case_decide; [by apply effects_drop|].
  destruct (_ && _); [by apply effects_drop|].
  destruct (QuicPacketValidateLongHeaderV1 _) as [[Packet Token]|]; [|apply effects_refl].
  destruct (negb _); [by apply effects_drop|].
  pose proof (ShouldRetryConnection_effects (deliver_types s) (Env_Lib E) Datagram Packet
                (Z.of_nat (length Token)) Token false s) as Hsr.
  destruct (QuicBindingShouldRetryConnection _ _ _ _ _ _ _)
    as [[[s1 Packet'] DropPacket] Retry]. simpl in Hsr.
  destruct Retry.
  { pose proof (QueueStatelessOperation_effects (deliver_types s) E QUIC_OPER_TYPE_RETRY
                  (set_Packet Packet' Datagram) Next s1) as Hq.
    destruct (QuicBindingQueueStatelessOperation _ _ _ _ _) as [s' ok].
    eapply effects_trans; [exact Hsr|]. apply Hq. split; [done|by left]. }
  destruct DropPacket; [done|].
  pose proof (CreateConnection_effects (deliver_types s) E (set_Packet Packet' Datagram) s1)
    as Hcc.
  destruct (QuicBindingCreateConnection _ _ _) as [[s2 Connection]|]; [|done].
  destruct Connection; simpl;
    (eapply effects_trans; [exact Hsr|]); (eapply effects_trans; [exact Hcc|]);
    by apply quiet_effects.
Qed.

(** A delivery on a binding that is not exclusive, for a short-header
    packet that no connection claims, is the call of
    QuicBindingQueueStatelessReset; on an exclusive binding it is the drop
    in front of that call. *)
Lemma DeliverDatagrams_unmatched (E : Env) (Datagram : QUIC_RECV_DATAGRAM)
    (Next : list QUIC_RECV_DATAGRAM) (DatagramChainLength : Z) (s : State) :
  Env_LookupLocalCid E = None → Env_LookupRemoteHash E = None →
  (Exclusive (Binding s) = true →
     QuicBindingDeliverDatagrams E (Datagram :: Next) DatagramChainLength s
     = Some (QuicPacketLogDrop "No connection on exclusive binding" s, false))
  ∧ (Exclusive (Binding s) = false →
     IsShortHeader (Datagram_Packet Datagram) = true →
     QuicBindingDeliverDatagrams E (Datagram :: Next) DatagramChainLength s
     = Some (QuicBindingQueueStatelessReset E Datagram Next s)).
Proof.
  intros Hl Hr. unfold QuicBindingDeliverDatagrams. rewrite Hl, Hr.
  split; [intros Hex|intros Hex Hshort];
    destruct (negb _ || _); cbn [lookup_result]; rewrite Hex; try done;
    by rewrite Hshort.
Qed.

(** *** The partition of the chain *)

Definition handles (l : list QUIC_RECV_DATAGRAM) : list ptr := Datagram_Handle <$> l.

(** The datagrams of the subchains that a delivery accepted. *)
Definition accepted (calls : list (list QUIC_RECV_DATAGRAM * bool))
    : list QUIC_RECV_DATAGRAM :=
  concat ((λ x, if x.2 : bool then x.1 else []) <$> calls).

(** All datagrams of a chain carry one destination CID. *)
Definition one_cid (chain : list QUIC_RECV_DATAGRAM) : Prop :=
  ∀ d1 d2, d1 ∈ chain → d2 ∈ chain →
    same_DestCid (Datagram_Packet d1) (Datagram_Packet d2) = true.

Lemma same_DestCid_refl (P : QUIC_RECV_PACKET) : same_DestCid P P = true.
Proof. unfold same_DestCid. by rewrite !bool_decide_eq_true_2. Qed.

Lemma same_DestCid_spec (P Q : QUIC_RECV_PACKET) :
  same_DestCid P Q = true ↔
    DestCidLen P = DestCidLen Q
    ∧ take (Z.to_nat (DestCidLen P)) (DestCid P)
      = take (Z.to_nat (DestCidLen P)) (DestCid Q).
Proof.
  unfold same_DestCid. rewrite andb_true_iff, !bool_decide_eq_true. done.
Qed.

Lemma same_DestCid_sym (P Q : QUIC_RECV_PACKET) :
  same_DestCid P Q = true → same_DestCid Q P = true.
Proof. rewrite !same_DestCid_spec. intros [Hl Ht]. rewrite <- Hl. done. Qed.

Lemma same_DestCid_trans (P Q R : QUIC_RECV_PACKET) :
  same_DestCid P Q = true → same_DestCid Q R = true → same_DestCid P R = true.
Proof.
  rewrite !same_DestCid_spec. intros [Hl1 Ht1] [Hl2 Ht2].
  rewrite <- Hl1 in Ht2. split; congruence.
Qed.

Lemma one_cid_add (d first : QUIC_RECV_DATAGRAM) (chain chain' : list QUIC_RECV_DATAGRAM) :
  one_cid chain → first ∈ chain →
  same_DestCid (Datagram_Packet d) (Datagram_Packet first) = true →
  (∀ x, x ∈ chain' ↔ x = d ∨ x ∈ chain) →
  one_cid chain'.
Proof.
  intros Hone Hfirst Hsame Hmem d1 d2 H1 H2.
  apply Hmem in H1, H2.
  assert (Hd : ∀ x, x ∈ chain →
            same_DestCid (Datagram_Packet d) (Datagram_Packet x) = true).
  { intros x Hx. eapply same_DestCid_trans; [exact Hsame|]. by apply Hone. }
  destruct H1 as [->|H1], H2 as [->|H2].
  - apply same_DestCid_refl.
  - by apply Hd.
  - by apply same_DestCid_sym, Hd.
  - by apply Hone.
Qed.

(** The invariant of the loop after the datagrams [processed], from the
    state [s0] on: every processed datagram is in exactly one of the
    accepted subchains, the release chain, the retained datagrams and the
    current subchain; on a binding that is not exclusive every subchain
    carries one destination CID; on an exclusive one nothing has been
    delivered yet. *)
Record receive_inv (s0 : State) (processed : list QUIC_RECV_DATAGRAM)
    (s : State) (L : ReceiveLocals) : Prop := {
  inv_effects : effects (receive_types s0) s0 s;
  inv_partition :
    handles processed
    ≡ₚ handles (accepted (Delivered L) ++ ReleaseChain L ++ Retained L ++ SubChain L);
  inv_rejected :
    ∀ sub, (sub, false) ∈ Delivered L → ∀ d, d ∈ sub → d ∈ ReleaseChain L;
  inv_one_cid :
    Exclusive (Binding s0) = false →
    one_cid (SubChain L) ∧ ∀ sub ok, (sub, ok) ∈ Delivered L → one_cid sub;
  inv_exclusive : Exclusive (Binding s0) = true → Delivered L = [];
  inv_nonempty : ∀ sub ok, (sub, ok) ∈ Delivered L → sub ≠ []
}.

Lemma accepted_snoc (calls : list (list QUIC_RECV_DATAGRAM * bool))
    (sub : list QUIC_RECV_DATAGRAM) (ok : bool) :
  accepted (calls ++ [(sub, ok)]) = accepted calls ++ (if ok then sub else []).
Proof.
  unfold accepted. rewrite fmap_app, concat_app. simpl. by rewrite app_nil_r.
Qed.

Lemma receive_inv_initial (s0 : State) : receive_inv s0 [] s0 initial_locals.
Proof.
  split; simpl; try done.
  - apply effects_refl.
  - intros sub Hin. by apply elem_of_nil in Hin.
  - intros _. split.
    + intros d1 d2 Hin. by apply elem_of_nil in Hin.
    + intros sub ok Hin. by apply elem_of_nil in Hin.
  - intros sub ok Hin. by apply elem_of_nil in Hin.
Qed.

Lemma receive_inv_release (s0 s s' : State) (processed : list QUIC_RECV_DATAGRAM)
    (D D' : QUIC_RECV_DATAGRAM) (L : ReceiveLocals) :
  receive_inv s0 processed s L →
  effects (receive_types s0) s s' →
  Datagram_Handle D' = Datagram_Handle D →
  receive_inv s0 (processed ++ [D]) s' (release [D'] L).
Proof.
  intros [He Hp Hr Hc Hx Hn] He' Hh. split; simpl; try done.
  - by eapply effects_trans.
  - unfold handles in *. rewrite fmap_app, Hp. simpl. rewrite <- Hh.
    change [Datagram_Handle D'] with (Datagram_Handle <$> [D']).
    rewrite <- fmap_app. apply fmap_Permutation.
    unfold SubChain. simpl. solve_Permutation.
  - intros sub Hin d Hd. apply elem_of_app. left. by eapply Hr.
Qed.

Lemma receive_inv_retain (s0 s s' : State) (processed : list QUIC_RECV_DATAGRAM)
    (D D' : QUIC_RECV_DATAGRAM) (L : ReceiveLocals) :
  receive_inv s0 processed s L →
  effects (receive_types s0) s s' →
  Datagram_Handle D' = Datagram_Handle D →
  receive_inv s0 (processed ++ [D]) s' (retain D' L).
Proof.
  intros [He Hp Hr Hc Hx Hn] He' Hh. split; simpl; try done.
  - by eapply effects_trans.
  - unfold handles in *. rewrite fmap_app, Hp. simpl. rewrite <- Hh.
    change [Datagram_Handle D'] with (Datagram_Handle <$> [D']).
    rewrite <- fmap_app. apply fmap_Permutation.
    unfold SubChain. simpl. solve_Permutation.
Qed.

Lemma receive_inv_deliver (s0 s s' : State) (processed : list QUIC_RECV_DATAGRAM)
    (E : Env) (L L' : ReceiveLocals) :
  receive_inv s0 processed s L →
  SubChain L ≠ [] →
  (Exclusive (Binding s0) = true → Delivered L = [] → False) →
  deliver_subchain E L s = Some (s', L') →
  receive_inv s0 processed s' L' ∧ SubChain L' = [].
Proof.
  intros [He Hp Hr Hc Hx Hn] Hne Hnx Hd. unfold deliver_subchain in Hd.
  pose proof (DeliverDatagrams_effects E (SubChain L) (SubChainLength L) s) as Hde.
  destruct (QuicBindingDeliverDatagrams _ _ _ _) as [[s1 ok]|]; [|done].
  simpl in Hd. injection Hd as <- <-. split; [|done]. split; simpl.
  - eapply effects_trans; [exact He|]. eapply effects_weaken; [|exact Hde].
    intros t [Hex Ht]. right. split; [|done].
    by rewrite <- (effects_Exclusive _ _ _ He).
  - rewrite accepted_snoc. unfold handles in *. rewrite Hp.
    apply fmap_Permutation. unfold SubChain. simpl.
    destruct ok; solve_Permutation.
  - intros sub Hin d Hdin. apply elem_of_app in Hin as [Hin|Hin].
    + destruct ok; [by eapply Hr|]. apply elem_of_app. left. by eapply Hr.
    + apply list_elem_of_singleton in Hin as [= -> <-]. apply elem_of_app. by right.
  - intros Hex. destruct (Hc Hex) as [Hsub Hall]. split.
    + intros d1 d2 Hin. by apply elem_of_nil in Hin.
    + intros sub ok' [Hin|Hin]%elem_of_app; [by eapply Hall|].
      by apply list_elem_of_singleton in Hin as [= -> ->].
  - intros Hex. exfalso. apply Hnx; [done|]. by apply Hx.
  - intros sub ok' [Hin|Hin]%elem_of_app; [by eapply Hn|].
    by apply list_elem_of_singleton in Hin as [= -> ->].
Qed.

Lemma receive_inv_effects (s0 s s' : State) (processed : list QUIC_RECV_DATAGRAM)
    (L : ReceiveLocals) :
  receive_inv s0 processed s L →
  effects (receive_types s0) s s' →
  receive_inv s0 processed s' L.
Proof.
  intros [He Hp Hr Hc Hx Hn] He'. split; try done. by eapply effects_trans.
Qed.

Lemma receive_inv_insert (s0 s : State) (processed : list QUIC_RECV_DATAGRAM)
    (D D' : QUIC_RECV_DATAGRAM) (L : ReceiveLocals) :
  receive_inv s0 processed s L →
  Datagram_Handle D' = Datagram_Handle D →
  (Exclusive (Binding s0) = false →
   match SubChain L with
   | first :: _ => same_DestCid (Datagram_Packet D') (Datagram_Packet first) = true
   | [] => True
   end) →
  receive_inv s0 (processed ++ [D]) s (insert_datagram D' L).
Proof.
  intros [He Hp Hr Hc Hx Hn] Hh Hsame.
  assert (Hmem : ∀ x, x ∈ SubChain (insert_datagram D' L) ↔ x = D' ∨ x ∈ SubChain L).
  { intros x. unfold insert_datagram, SubChain.
    destruct (negb _); simpl; rewrite !elem_of_app, ?list_elem_of_singleton; tauto. }
  assert (Hperm : SubChain (insert_datagram D' L) ≡ₚ SubChain L ++ [D']).
  { unfold insert_datagram, SubChain. destruct (negb _); simpl; solve_Permutation. }
  assert (Hsame_fields :
            Delivered (insert_datagram D' L) = Delivered L
            ∧ ReleaseChain (insert_datagram D' L) = ReleaseChain L
            ∧ Retained (insert_datagram D' L) = Retained L).
  { unfold insert_datagram. by destruct (negb _). }
  destruct Hsame_fields as (Hd & Hrel & Hret).
  split; rewrite ?Hd, ?Hrel, ?Hret; try done.
  - unfold handles in *. rewrite fmap_app, Hp. simpl. rewrite <- Hh.
    change [Datagram_Handle D'] with (Datagram_Handle <$> [D']).
    rewrite <- fmap_app. apply fmap_Permutation. rewrite Hperm. solve_Permutation.
  - intros Hex. destruct (Hc Hex) as [Hone Hall]. split; [|done].
    specialize (Hsame Hex).
    destruct (SubChain L) as [|first rest] eqn:Hsub.
    + intros d1 d2 H1 H2. apply Hmem in H1 as [->|H1]; [|by apply elem_of_nil in H1].
      apply Hmem in H2 as [->|H2]; [|by apply elem_of_nil in H2].
      apply same_DestCid_refl.
    + eapply (one_cid_add D' first (first :: rest)); [done|by left|done|done].
Qed.

Lemma receive_one_inv (s0 s s' : State) (processed : list QUIC_RECV_DATAGRAM)
    (EP ED : Env) (D : QUIC_RECV_DATAGRAM) (L L' : ReceiveLocals) :
  receive_inv s0 processed s L →
  receive_one EP ED D L s = Some (s', L') →
  receive_inv s0 (processed ++ [D]) s' L'.
Proof.
  intros Hinv Hone. unfold receive_one in Hone.
  set (D0 := set_Packet _ D) in Hone.
  assert (Hh0 : Datagram_Handle D0 = Datagram_Handle D) by done.
  destruct (match Env_TestHookReceive EP with
            | Some Receive => _
            | None => (D0, false)
            end) as [D1 TestDrop] eqn:Hhook.
  assert (Hh1 : Datagram_Handle D1 = Datagram_Handle D).
  { destruct (Env_TestHookReceive EP); by injection Hhook as <- _. }
  destruct TestDrop.
  { injection Hone as <- <-.
    apply (receive_inv_release s0 s); [done|by apply effects_drop|done]. }
  pose proof (PreprocessDatagram_effects (receive_types s0) EP D1 s (or_introl eq_refl))
    as Hpe.
  pose proof (PreprocessDatagram_handle EP D1 s) as Hph.
  destruct (QuicBindingPreprocessDatagram EP D1 s) as [[[s1 D2] ok] ReleaseDatagram].
  simpl in Hpe, Hph. rewrite Hh1 in Hph.
  destruct ok; simpl in Hone.
  2: { injection Hone as <- <-. destruct ReleaseDatagram.
       - by apply (receive_inv_release s0 s).
       - by apply (receive_inv_retain s0 s). }
  pose proof (receive_inv_effects s0 s s1 processed L Hinv Hpe) as Hinv1.
  assert (Hex1 : Exclusive (Binding s1) = Exclusive (Binding s0)).
  { apply (effects_Exclusive (receive_types s0)). by destruct Hinv1. }
  destruct (SubChain L) as [|first rest] eqn:Hsub.
  { simpl in Hone. injection Hone as <- <-.
    apply receive_inv_insert; [done|done|]. by rewrite Hsub. }
  destruct (negb (Exclusive (Binding s1))
            && negb (same_DestCid (Datagram_Packet D2) (Datagram_Packet first)))
    eqn:Hsplit.
  - apply andb_true_iff in Hsplit as [Hnx _]. apply negb_true_iff in Hnx.
    destruct (deliver_subchain ED L s1) as [[s2 L2]|] eqn:Hdel; [|done].
    simpl in Hone. injection Hone as <- <-.
    destruct (receive_inv_deliver s0 s1 s2 processed ED L L2 Hinv1) as [Hinv2 Hempty];
      [by rewrite Hsub|congruence|done|].
    apply receive_inv_insert; [done|done|]. by rewrite Hempty.
  - simpl in Hone. injection Hone as <- <-.
    apply receive_inv_insert; [done|done|]. rewrite Hsub. intros Hex.
    rewrite Hex1, Hex in Hsplit. simpl in Hsplit. by apply negb_false_iff in Hsplit.
Qed.

Lemma receive_loop_inv (s0 : State) (EP ED : nat → Env)
    (DatagramChain : list QUIC_RECV_DATAGRAM) :
  ∀ (i : nat) (processed : list QUIC_RECV_DATAGRAM) (s s' : State) (L L' : ReceiveLocals),
    receive_inv s0 processed s L →
    receive_loop EP ED i DatagramChain L s = Some (s', L') →
    receive_inv s0 (processed ++ DatagramChain) s' L'.
Proof.
  induction DatagramChain as [|D Next IH]; intros i processed s s' L L' Hinv Hloop.
  - simpl in Hloop. injection Hloop as <- <-. by rewrite app_nil_r.
  - simpl in Hloop.
    destruct (receive_one (EP i) (ED i) D L s) as [[s1 L1]|] eqn:Hone; [|done].
    simpl in Hloop. change (D :: Next) with ([D] ++ Next). rewrite app_assoc.
    eapply IH; [|exact Hloop]. by eapply receive_one_inv.
Qed.

(** What holds when the loop and the last delivery are done: the
    partition, the subchains with one destination CID each, and on an
    exclusive binding a single delivery at most. *)
Record receive_post (s0 : State) (DatagramChain : list QUIC_RECV_DATAGRAM)
    (s : State) (L : ReceiveLocals) : Prop := {
  post_effects : effects (receive_types s0) s0 s;
  post_partition :
    handles DatagramChain
    ≡ₚ handles (accepted (Delivered L) ++ ReleaseChain L ++ Retained L);
  post_rejected :
    ∀ sub, (sub, false) ∈ Delivered L → ∀ d, d ∈ sub → d ∈ ReleaseChain L;
  post_one_cid :
    Exclusive (Binding s0) = false →
    ∀ sub ok, (sub, ok) ∈ Delivered L → one_cid sub;
  post_exclusive :
    Exclusive (Binding s0) = true → (length (Delivered L) ≤ 1)%nat;
  post_nonempty : ∀ sub ok, (sub, ok) ∈ Delivered L → sub ≠ []
}.

Lemma receive_chain_post (EP ED : nat → Env) (DatagramChain : list QUIC_RECV_DATAGRAM)
    (s s' : State) (L : ReceiveLocals) :
  receive_chain EP ED DatagramChain s = Some (s', L) →
  receive_post s DatagramChain s' L.
Proof.
  intros Hchain. unfold receive_chain in Hchain.
  destruct (receive_loop EP ED 0 DatagramChain initial_locals s) as [[s1 L1]|] eqn:Hloop;
    [|done].
  simpl in Hchain.
  pose proof (receive_loop_inv s EP ED DatagramChain 0 [] s s1 initial_locals L1
                (receive_inv_initial s) Hloop) as Hinv. simpl in Hinv.
  destruct Hinv as [He Hp Hr Hc Hx Hn].
  destruct (SubChain L1) as [|first rest] eqn:Hsub.
  - injection Hchain as <- <-. split; try done.
    + by rewrite !app_nil_r in Hp.
    + intros Hex. by apply Hc.
    + intros Hex. rewrite (Hx Hex). simpl. lia.
  - unfold deliver_subchain in Hchain.
    pose proof (DeliverDatagrams_effects (ED (length DatagramChain)) (SubChain L1)
                  (SubChainLength L1) s1) as Hde.
    destruct (QuicBindingDeliverDatagrams _ _ _ _) as [[s2 ok]|]; [|done].
    simpl in Hchain. injection Hchain as <- <-.
    split; simpl.
    + eapply effects_trans; [exact He|]. eapply effects_weaken; [|exact Hde].
      intros t [Hex Ht]. right. split; [|done].
      by rewrite <- (effects_Exclusive _ _ _ He).
    + rewrite accepted_snoc. unfold handles in *. rewrite Hp.
      apply fmap_Permutation. rewrite Hsub.
      destruct ok; solve_Permutation.
    + intros sub Hin d Hdin. apply elem_of_app in Hin as [Hin|Hin].
      * destruct ok; [by eapply Hr|]. apply elem_of_app. left. by eapply Hr.
      * apply list_elem_of_singleton in Hin as [= -> <-]. apply elem_of_app. by right.
    + intros Hex. destruct (Hc Hex) as [Hone Hall].
      intros sub ok' [Hin|Hin]%elem_of_app; [by eapply Hall|].
      apply list_elem_of_singleton in Hin as [= -> ->]. by rewrite Hsub.
    + intros Hex. rewrite (Hx Hex). simpl. lia.
    + intros sub ok' [Hin|Hin]%elem_of_app; [by eapply Hn|].
      apply list_elem_of_singleton in Hin as [= -> ->]. by rewrite Hsub.
Qed.

Lemma Receive_effects (EP ED : nat → Env) (DatagramChain : list QUIC_RECV_DATAGRAM)
    (s : State) :
  match QuicBindingReceive EP ED DatagramChain s with
  | Some s' => effects (receive_types s) s s'
  | None => True
  end.
Proof.
  unfold QuicBindingReceive.
  destruct (receive_chain EP ED DatagramChain s) as [[s1 L]|] eqn:Hchain; [|done].
  apply receive_chain_post in Hchain as [He _ _ _ _ _]. simpl.
  destruct (ReleaseChain L); [done|].
  eapply effects_trans; [exact He|]. by apply quiet_effects.
Qed.

(** A datagram that preprocessing keeps out of the release chain belongs
    to the stateless context of a version negotiation operation that has
    just been queued. *)
Lemma PreprocessDatagram_retained (E : Env) (Datagram : QUIC_RECV_DATAGRAM) (s : State) :
  let r := QuicBindingPreprocessDatagram E Datagram s in
  r.1.2 = false → r.2 = false →
  ∃ Oper Context,
    WorkerOperQ r.1.1.1 = WorkerOperQ s ++ [Oper]
    ∧ Oper_Type Oper = QUIC_OPER_TYPE_VERSION_NEGOTIATION
    ∧ STATELESS_Context Oper = Some Context
    ∧ (Ctx_Datagram <$> StatelessContexts r.1.1.1 !! Context) = Some [r.1.1.2].
Proof.
  unfold QuicBindingPreprocessDatagram.
  destruct (QuicPacketValidateInvariant _ _) as [Packet|]; simpl; [|done].
  destruct (_ && _); simpl; [|done].
  destruct (negb _); simpl; [done|].
  unfold QuicBindingQueueStatelessOperation.
  destruct (Env_WorkerPoolNull E); simpl; [done|].
  destruct (Env_WorkerOverloaded E); simpl; [done|].
  destruct (CreateStatelessOperation_cases E (Env_Worker E) (set_Packet Packet Datagram)
              [] s) as [(Reason & -> & _)|(-> & _ & _)]; simpl; [done|].
  destruct (Env_OperAllocOk E); simpl; [|done].
  intros _ _. eexists _, _. split; [|split; [|split]].
  - pose proof (age_out_quiet (length (StatelessOperList (Binding s))) (Env_TimeMs E) s)
      as (_ & _ & Hq). by rewrite Hq.
  - done.
  - reflexivity.
  - simpl. by rewrite lookup_insert_eq.
Qed.

(** *** The receive call returns *)


Lemma age_out_Connections (fuel : nat) (TimeMs : Z) (s : State) :
  Connections (age_out fuel TimeMs s) = Connections s.
Proof.
  revert s. induction fuel as [|fuel IH]; intros s; simpl; [done|].
  destruct (StatelessOperList (Binding s)) as [|p rest]; [done|].
  destruct (StatelessContexts s !! p) as [c|]; [|done].
  case_decide; [done|]. by rewrite IH.
Qed.

Lemma QueueStatelessOperation_Connections (E : Env) (OperType : QUIC_OPERATION_TYPE)
    (Datagram : QUIC_RECV_DATAGRAM) (Next : list QUIC_RECV_DATAGRAM) (s : State) :
  Connections (QuicBindingQueueStatelessOperation E OperType Datagram Next s).1
  = Connections s.
Proof.
  unfold QuicBindingQueueStatelessOperation.
  destruct (Env_WorkerPoolNull E); simpl; [done|].
  destruct (Env_WorkerOverloaded E); simpl; [done|].
  assert (Hc : Connections
                 (QuicBindingCreateStatelessOperation E (Env_Worker E) Datagram Next s).1
               = Connections s).
  { unfold QuicBindingCreateStatelessOperation.
    pose proof (age_out_Connections (length (StatelessOperList (Binding s)))
                  (Env_TimeMs E) s) as Ha.
    case_decide; simpl; [done|].
    destruct (already_in_table _ _ _); simpl; [done|].
    by destruct (Env_PoolAllocOk E). }
  destruct (QuicBindingCreateStatelessOperation E (Env_Worker E) Datagram Next s)
    as [s1 [Context|]]; simpl in *; [|done].
  destruct (Env_OperAllocOk E); simpl; [done|].
  rewrite <- Hc. unfold QuicBindingReleaseStatelessOperation. simpl.
  destruct (StatelessContexts s1 !! Context) as [c|]; [|done].
  by destruct (HasBindingRef c), (IsExpired c).
Qed.

Lemma QueueStatelessReset_Connections (E : Env) (Datagram : QUIC_RECV_DATAGRAM)
    (Next : list QUIC_RECV_DATAGRAM) (s : State) :
  Connections (QuicBindingQueueStatelessReset E Datagram Next s).1 = Connections s.
Proof.
  unfold QuicBindingQueueStatelessReset.
  case_decide; simpl; [done|].
  destruct (Exclusive (Binding s)); [done|]. apply QueueStatelessOperation_Connections.
Qed.



Lemma alter_connection_dom (f : QUIC_CONNECTION → QUIC_CONNECTION) (c : ptr) (s : State) :
  dom (Connections (alter_connection f c s)) = dom (Connections s).
Proof. simpl. apply dom_alter_L. Qed.








(** C10.  Neither a delivery nor a whole receive call logs the drop of the
    exclusive branch of QuicBindingQueueStatelessReset, and every stateless
    reset operation they queue is queued on a binding that is not
    exclusive; on an exclusive binding a delivery queues no operation at
    all.  A delivery that finds no connection ends in the drop "No
    connection on exclusive binding" when the binding is exclusive, and
    calls QuicBindingQueueStatelessReset for a short header only when it is
    not; QuicBindingQueueStatelessReset itself queues nothing on an
    exclusive binding. *)
Theorem stateless_reset_only_on_shared_binding (EP ED : nat → Env) (E : Env)
    (DatagramChain SubChain : list QUIC_RECV_DATAGRAM) (SubChainLength : Z) (s : State) :
  match QuicBindingDeliverDatagrams E SubChain SubChainLength s with
  | Some (s', _) =>
      (∃ new, DropLog s' = DropLog s ++ new ∧ exclusive_reset_reason ∉ new)
      ∧ (∃ ops, WorkerOperQ s' = WorkerOperQ s ++ ops
              ∧ Forall (λ o, Oper_Type o = QUIC_OPER_TYPE_STATELESS_RESET →
                             Exclusive (Binding s) = false) ops)
      ∧ (Exclusive (Binding s) = true → WorkerOperQ s' = WorkerOperQ s)
  | None => True
  end
  ∧ match QuicBindingReceive EP ED DatagramChain s with
    | Some s' =>
        (∃ new, DropLog s' = DropLog s ++ new ∧ exclusive_reset_reason ∉ new)
        ∧ (∃ ops, WorkerOperQ s' = WorkerOperQ s ++ ops
                ∧ Forall (λ o, Oper_Type o = QUIC_OPER_TYPE_STATELESS_RESET →
                               Exclusive (Binding s) = false) ops)
    | None => True
    end
  ∧ (∀ Datagram Next,
       Env_LookupLocalCid E = None → Env_LookupRemoteHash E = None →
       (Exclusive (Binding s) = true →
          QuicBindingDeliverDatagrams E (Datagram :: Next) SubChainLength s
          = Some (QuicPacketLogDrop "No connection on exclusive binding" s, false))
       ∧ (Exclusive (Binding s) = false →
          IsShortHeader (Datagram_Packet Datagram) = true →
          QuicBindingDeliverDatagrams E (Datagram :: Next) SubChainLength s
          = Some (QuicBindingQueueStatelessReset E Datagram Next s)))
  ∧ (∀ Datagram Next,
       Exclusive (Binding s) = true →
       (QuicBindingQueueStatelessReset E Datagram Next s).2 = false
       ∧ WorkerOperQ (QuicBindingQueueStatelessReset E Datagram Next s).1 = WorkerOperQ s).
Proof.
  split; [|split; [|split]].
  - pose proof (DeliverDatagrams_effects E SubChain SubChainLength s) as Hd.
    destruct (QuicBindingDeliverDatagrams _ _ _ _) as [[s' ok]|]; [|done].
    destruct Hd as [_ Hlog (ops & Hops & Hall)].
    split; [done|]. split.
    + exists ops. split; [done|]. eapply Forall_impl; [exact Hall|].
      by intros o [Hex _] _.
    + intros Hex. destruct ops as [|o ops]; [by rewrite app_nil_r in Hops|].
      apply Forall_cons in Hall as [[Hno _] _]. congruence.
  - pose proof (Receive_effects EP ED DatagramChain s) as Hr.
    destruct (QuicBindingReceive _ _ _ _) as [s'|]; [|done].
    destruct Hr as [_ Hlog (ops & Hops & Hall)].
    split; [done|]. exists ops. split; [done|].
    eapply Forall_impl; [exact Hall|].
    intros o [Hvn|[Hex _]] Hreset; [congruence|done].
  - intros Datagram Next. apply DeliverDatagrams_unmatched.
  - intros Datagram Next. apply QueueStatelessReset_exclusive.
Qed.

End ReceiveFacts.

(** A listener on the test platform, and a state of a shared binding that
    has it registered. *)
Definition test_listener : QUIC_LISTENER :=
  {| Listener_Link := 10%positive; Listener_LocalAddress := [2; 1; 1];
     WildCard := false; Listener_Session := 5%positive |}.

Definition listening_state : State :=
  set_Binding (QuicBindingRegisterListener true test_listener (test_binding false)).1
    (test_state false).



(** A short-header datagram that no connection claims, received on an
    exclusive binding: it is dropped in QuicBindingDeliverDatagrams, no
    operation is queued and the drop of QuicBindingQueueStatelessReset is
    not logged. *)
Lemma stateless_reset_only_on_shared_binding_witness :
  let D := test_datagram 1%positive [2; 9] [64; 0; 6] 60 in
  let E := λ _ : nat, test_env 0 in
  match QuicBindingReceive E E [D] (test_state true) with
  | Some s' =>
      WorkerOperQ s' = []
      ∧ DropLog s' = ["No connection on exclusive binding"]
      ∧ (exclusive_reset_reason ∉ DropLog s')
      ∧ handles (DatapathReturned s') = [1%positive]
  | None => False
  end.
Proof.
  intros D E.
  pose proof (stateless_reset_only_on_shared_binding E E (E 0%nat) [D] [D] 1
                (test_state true)) as (_ & Hr & _ & _).
  destruct (QuicBindingReceive E E [D] (test_state true)) as [s'|] eqn:Hc.
  - destruct Hr as ((new & Hlog & Hnot) & _). simpl in Hlog.
    split_and!; [| |by rewrite Hlog|];
      vm_compute in Hc; injection Hc as <-; vm_compute; reflexivity.
  - vm_compute in Hc. discriminate Hc.
Defined.

(** ** The stateless reset token *)

(** The calls that change a binding after its creation. *)
Inductive binding_call :=
  | CallRegisterListener (MaximizePartitioningOk : bool) (NewListener : QUIC_LISTENER)
  | CallUnregisterListener (Listener : ptr)
  | CallReceive (EP ED : nat → Env) (DatagramChain : list QUIC_RECV_DATAGRAM)
  | CallReleaseStatelessOperation (StatelessCtx : ptr) (ReturnDatagram : bool).

Section TokenFacts.
Context `{Platform}.

Definition binding_step (s : State) (c : binding_call) : option State :=
  match c with
  | CallRegisterListener ok NewListener =>
      Some (set_Binding (QuicBindingRegisterListener ok NewListener (Binding s)).1 s)
  | CallUnregisterListener Listener =>
      Some (set_Binding (QuicBindingUnregisterListener Listener (Binding s)) s)
  | CallReceive EP ED DatagramChain => QuicBindingReceive EP ED DatagramChain s
  | CallReleaseStatelessOperation StatelessCtx ReturnDatagram =>
      Some (QuicBindingReleaseStatelessOperation StatelessCtx ReturnDatagram s)
  end.

Fixpoint binding_run (calls : list binding_call) (s : State) : option State :=
  match calls with
  | [] => Some s
  | c :: calls' => s' ← binding_step s c; binding_run calls' s'
  end.

Lemma RegisterListener_static (ok : bool) (NewListener : QUIC_LISTENER) (B : QUIC_BINDING) :
  static (QuicBindingRegisterListener ok NewListener B).1 = static B.
Proof.
  unfold QuicBindingRegisterListener.
  destruct (register_scan NewListener (Listeners B) 0) as [[] Link]; [|done].
  by destruct (_ && _).
Qed.

Lemma binding_step_static (s s' : State) (c : binding_call) :
  binding_step s c = Some s' → static (Binding s') = static (Binding s).
Proof.
  destruct c as [ok L|p|EP ED chain|p ret]; simpl.
  - intros [= <-]. simpl. apply RegisterListener_static.
  - by intros [= <-].
  - pose proof (Receive_effects EP ED chain s) as He.
    destruct (QuicBindingReceive EP ED chain s) as [s1|]; [|done].
    intros [= <-]. by destruct He.
  - intros [= <-]. by destruct (ReleaseStatelessOperation_quiet p ret s).
Qed.

Lemma binding_run_static (calls : list binding_call) (s s' : State) :
  binding_run calls s = Some s' → static (Binding s') = static (Binding s).
Proof.
  revert s. induction calls as [|c calls IH]; intros s; simpl.
  - by intros [= <-].
  - destruct (binding_step s c) as [s1|] eqn:Hstep; [|done]. simpl.
    intros Hrun. rewrite (IH _ Hrun). by eapply binding_step_static.
Qed.

(** C5.  The key of the reset-token hash is the 20-byte [HashSalt] that
    QuicBindingInitialize draws after the four bytes of the reserved
    version, and no later call on the binding replaces it.  So on the
    binding in any later state, the token for a destination CID of
    [CidTotalLength] bytes is the first QUIC_STATELESS_RESET_TOKEN_LENGTH
    bytes of the keyed hash of the CID under [HashSalt]: a function of the
    salt and the CID alone.  The hash is taken to succeed with an output of
    QUIC_HASH_SHA256_SIZE bytes, which the static assertion of the file
    makes no shorter than the token. *)
Theorem reset_token_is_keyed_hash_of_cid (ShareBinding ServerOwned : bool)
    (RemoteAddress : option QUIC_ADDR) (AllocOk HashCreateOk DatapathCreateOk : bool)
    (Random : list Z) (B : QUIC_BINDING) (s0 s : State) (calls : list binding_call)
    (Lib : QUIC_LIBRARY) (CID ResetToken HashOutput : list Z) :
  (QUIC_STATELESS_RESET_TOKEN_LENGTH ≤ QUIC_HASH_SHA256_SIZE)%nat →
  QuicBindingInitialize ShareBinding ServerOwned RemoteAddress AllocOk Random
    HashCreateOk DatapathCreateOk = Some B →
  Binding s0 = B →
  binding_run calls s0 = Some s →
  length CID = CidTotalLength Lib →
  QuicHashCompute (take 20 (drop 4 Random)) CID = Some HashOutput →
  length HashOutput = QUIC_HASH_SHA256_SIZE →
  length ResetToken = QUIC_STATELESS_RESET_TOKEN_LENGTH →
  QuicBindingGenerateStatelessResetToken (Binding s) Lib CID ResetToken
  = (true, take QUIC_STATELESS_RESET_TOKEN_LENGTH HashOutput)
  ∧ length (take QUIC_STATELESS_RESET_TOKEN_LENGTH HashOutput)
    = QUIC_STATELESS_RESET_TOKEN_LENGTH.
Proof.
  intros Hassert Hinit HB Hrun Hcid Hhash Hout Htoken.
  assert (Hsalt : ResetTokenHash (Binding s) = take 20 (drop 4 Random)).
  { apply binding_run_static in Hrun. unfold static in Hrun.
    injection Hrun as _ _ _ _ ->. rewrite HB.
    unfold QuicBindingInitialize in Hinit.
    destruct AllocOk, HashCreateOk, DatapathCreateOk; try done.
    by injection Hinit as <-. }
  split.
  - unfold QuicBindingGenerateStatelessResetToken.
    rewrite Hsalt, <- Hcid, firstn_all, Hhash. f_equal.
    unfold QuicCopyMemory. rewrite drop_ge by lia. by rewrite app_nil_r.
  - rewrite length_take. lia.
Qed.

End TokenFacts.

(** A binding of the test platform, created from 24 random bytes and then
    used for a registration and a receive call, gives the 16-byte prefix
    of the keyed hash for an 8-byte CID. *)
Lemma reset_token_is_keyed_hash_of_cid_witness :
  let Random := [1; 2; 3; 4] ++ replicate 20 7 in
  let D := test_datagram 1%positive [2; 9] [64; 0; 5] 60 in
  let calls := [CallRegisterListener true test_listener;
                CallReceive (λ _, test_env 0) (λ _, test_env 0) [D]] in
  ∃ B s,
    QuicBindingInitialize true true None true Random true true = Some B
    ∧ binding_run calls (set_Binding B (test_state false)) = Some s
    ∧ QuicBindingGenerateStatelessResetToken (Binding s) test_lib
        [222; 173; 190; 239; 1; 2; 3; 4] (replicate 16 0)
      = (true, replicate 16 7).
Proof.
  intros Random D calls.
  eexists _, _. split; [reflexivity|]. split; [vm_compute; reflexivity|].
  refine (proj1 (reset_token_is_keyed_hash_of_cid (H := test_platform)
            true true None true true true Random _
            (set_Binding _ (test_state false)) _ calls test_lib
            [222; 173; 190; 239; 1; 2; 3; 4] (replicate 16 0)
            (replicate 20 7 ++ [222; 173; 190; 239; 1; 2; 3; 4; 0; 0; 0; 0])
            _ _ _ _ _ _ _ _)).
  - simpl. lia.
  - reflexivity.
  - reflexivity.
  - vm_compute. reflexivity.
  - reflexivity.
  - reflexivity.
  - reflexivity.
  - reflexivity.
Defined.

(** * Part III: more of the model *)

(** ** The listener lookup (QuicBindingGetListener) *)

(** [QUIC_NEW_CONNECTION_INFO], as far as the binding reads it. *)
Record QUIC_NEW_CONNECTION_INFO := {
  Info_LocalAddress : QUIC_ADDR;
  Info_ClientAlpnList : list Z
}.

(** The helpers of the session and of the rundown reference that
    QuicBindingGetListener calls.  [QuicRundownAcquire] is given the
    address of the listener whose rundown it takes; its result is that of
    the one call the function makes. *)
Class ListenerHelpers := {
  QuicSessionMatchesAlpn : ptr → QUIC_NEW_CONNECTION_INFO → bool;
  QuicRundownAcquire : ptr → bool
}.

Section GetListener.
Context `{Platform} `{ListenerHelpers}.

(** The [for] loop over the listeners from [Link] on.  The result is the
    listener that [Listener] points to at [Done]. *)
Fixpoint get_listener_scan (Info : QUIC_NEW_CONNECTION_INFO) (l : list QUIC_LISTENER)
    : option QUIC_LISTENER :=
  match l with
  | [] => None
  | ExistingListener :: rest =>
      let Addr := Info_LocalAddress Info in
      let Family := QuicAddrGetFamily Addr in
      let ExistingAddr := Listener_LocalAddress ExistingListener in
      let ExistingWildCard := WildCard ExistingListener in
      let ExistingFamily := QuicAddrGetFamily ExistingAddr in
      if bool_decide (ExistingFamily ≠ AF_UNSPEC)
         && (bool_decide (Family ≠ ExistingFamily)
             || (negb ExistingWildCard && negb (QuicAddrCompareIp Addr ExistingAddr)))
      then get_listener_scan Info rest
      else if QuicSessionMatchesAlpn (Listener_Session ExistingListener) Info then
        if QuicRundownAcquire (Listener_Link ExistingListener)
        then Some ExistingListener
        else None
      else get_listener_scan Info rest
  end.

Definition QuicBindingGetListener (B : QUIC_BINDING) (Info : QUIC_NEW_CONNECTION_INFO)
    : option QUIC_LISTENER :=
  get_listener_scan Info (Listeners B).

End GetListener.

(** ** The clean-up of a binding (QuicBindingUninitialize) *)

Section Uninitialize.
Context `{Platform}.



End Uninitialize.

(** * Part IV: properties of the rest of the file *)

(** ** The listener registry and the listener lookup *)

(** A platform for the listener lookup: a session accepts the connection
    when its address is the first entry of the client's ALPN list, and the
    rundown of the listener at address 13 is already in progress. *)
#[local] Instance test_listener_helpers : ListenerHelpers := {|
  QuicSessionMatchesAlpn := λ Session Info,
    bool_decide (Info_ClientAlpnList Info !! 0%nat = Some (Z.pos Session));
  QuicRundownAcquire := λ Listener, bool_decide (Listener ≠ 13%positive)
|}.

Section ListenerMore.
Context `{Platform} `{ListenerHelpers}.


(** The listener's address fits the local address of the connection: the
    listener is for all families, or for the family of the address and
    then for all its addresses or for this one. *)
Definition ip_match (Info : QUIC_NEW_CONNECTION_INFO) (L : QUIC_LISTENER) : Prop :=
  family L = AF_UNSPEC
  ∨ (QuicAddrGetFamily (Info_LocalAddress Info) = family L
     ∧ (WildCard L = true
        ∨ QuicAddrCompareIp (Info_LocalAddress Info) (Listener_LocalAddress L) = true)).

Definition accepts (Info : QUIC_NEW_CONNECTION_INFO) (L : QUIC_LISTENER) : Prop :=
  ip_match Info L ∧ QuicSessionMatchesAlpn (Listener_Session L) Info = true.

(** The listener at position [i] is the first of the list that accepts
    the connection. *)
Definition first_accepting (Info : QUIC_NEW_CONNECTION_INFO) (l : list QUIC_LISTENER)
    (i : nat) (L : QUIC_LISTENER) : Prop :=
  l !! i = Some L ∧ accepts Info L
  ∧ ∀ j L', (j < i)%nat → l !! j = Some L' → ¬ accepts Info L'.




(** The order of the list alone. *)
Definition in_order (l : list QUIC_LISTENER) : Prop := StronglySorted bucket_le l.

Lemma in_order_filter (P : QUIC_LISTENER → Prop) `{∀ x, Decision (P x)}
    (l : list QUIC_LISTENER) :
  in_order l → in_order (filter P l).
Proof.
  unfold in_order. induction l as [|E rest IH]; intros Hok; [done|].
  apply StronglySorted_cons in Hok as [Hall Hrest].
  rewrite filter_cons. case_decide.
  - apply StronglySorted_cons. split; [|by apply IH].
    rewrite Forall_forall in Hall |- *.
    intros x [_ Hx]%list_elem_of_filter. by apply Hall.
  - by apply IH.
Qed.

Lemma register_scan_in_order (New : QUIC_LISTENER) (l : list QUIC_LISTENER) :
  in_order l →
  in_order (take (register_scan New l 0).2 l ++ New :: drop (register_scan New l 0).2 l).
Proof.
  unfold in_order.
  induction l as [|Ex rest IH]; intros Hok.
  - simpl. apply StronglySorted_cons. split; constructor.
  - apply StronglySorted_cons in Hok as [Hall Hrest].
    rewrite register_scan_cons.
    destruct (classify New Ex) eqn:Hc; simpl.
    + apply classify_break in Hc.
      apply StronglySorted_cons. split; [|by apply StronglySorted_cons].
      constructor; [by apply strictly_before_apart|].
      eapply Forall_impl; [exact Hall|]. intros X HX.
      apply strictly_before_apart. by eapply strictly_before_trans.
    + apply classify_continue in Hc as [Hle _].
      rewrite (register_scan_shift New rest 1). simpl.
      apply StronglySorted_cons. split; [|by apply IH].
      apply Forall_app. split; [by apply Forall_take|].
      constructor; [done|by apply Forall_drop].
    + (* the scan stopped at a conflict, in front of [Ex] *)
      apply classify_reject in Hc as [(Hf & Hw & _) _].
      apply StronglySorted_cons. split; [|by apply StronglySorted_cons].
      assert (Hle : bucket_le New Ex).
      { right. split; [done|]. by rewrite Hw. }
      constructor; [done|].
      eapply Forall_impl; [exact Hall|]. intros X HX.
      unfold bucket_le in *. unfold family in *.
      destruct HX as [?|[? ?]]; [left; lia|].
      right. split; [congruence|]. rewrite Hw. done.
Qed.

Lemma listeners_reachable_in_order (B : QUIC_BINDING) :
  listeners_reachable B → in_order (Listeners B).
Proof.
  induction 1 as [B Hnil|ok New B Hr IH|Listener B Hr IH].
  - rewrite Hnil. constructor.
  - unfold QuicBindingRegisterListener.
    pose proof (register_scan_in_order New _ IH) as Hins.
    destruct (register_scan New (Listeners B) 0) as [Add Link].
    destruct Add; [|done].
    destruct (_ && _); simpl; [|done].
    by apply in_order_filter.
  - simpl. by apply in_order_filter.
Qed.

Lemma in_order_lookup (l : list QUIC_LISTENER) (i j : nat) (A C : QUIC_LISTENER) :
  in_order l → (i < j)%nat → l !! i = Some A → l !! j = Some C → bucket_le A C.
Proof.
  unfold in_order. intros Hok. revert i j.
  induction Hok as [|E rest Hrest IH Hall]; intros i j Hij Hi Hj.
  - by rewrite lookup_nil in Hi.
  - rewrite Forall_forall in Hall.
    destruct j as [|j]; [lia|]. destruct i as [|i]; simpl in *.
    + injection Hi as <-. apply Hall. by eapply list_elem_of_lookup_2.
    + eapply IH; [|done..]. lia.
Qed.

Lemma bucket_le_refl (A : QUIC_LISTENER) : bucket_le A A.
Proof. right. done. Qed.

(** X1.  The comment in QuicBindingRegisterListener holds of the code: on
    a binding reached by registrations and unregistrations the listeners
    are in order, family descending, and within a family the listeners for
    one address before those for all addresses. *)
Theorem Listeners_in_order (B : QUIC_BINDING) (i j : nat) (A C : QUIC_LISTENER) :
  listeners_reachable B →
  (i < j)%nat → Listeners B !! i = Some A → Listeners B !! j = Some C →
  family A > family C
  ∨ (family A = family C ∧ (WildCard A = true → WildCard C = true)).
Proof.
  intros Hr Hij Hi Hj.
  exact (in_order_lookup _ i j A C (listeners_reachable_in_order B Hr) Hij Hi Hj).
Qed.

Lemma register_scan_no_conflict (New : QUIC_LISTENER) (l : list QUIC_LISTENER) :
  (∀ Ex, Ex ∈ l → ¬ conflict New Ex) →
  (register_scan New l 0).1 = true ∧ ((register_scan New l 0).2 ≤ length l)%nat.
Proof.
  induction l as [|Ex rest IH]; intros Hnc; [done|].
  rewrite register_scan_cons.
  destruct (classify New Ex) eqn:Hc; simpl.
  - split; [done|lia].
  - rewrite (register_scan_shift New rest 1). simpl.
    destruct IH as [-> Hle].
    { intros X HX. apply Hnc. by apply elem_of_cons; right. }
    split; [done|lia].
  - apply classify_reject in Hc. exfalso. eapply Hnc; [|exact Hc].
    apply list_elem_of_here.
Qed.

(** X2.  A registration succeeds whenever no registered listener agrees
    with the new one on family, specificity and address while overlapping
    it in ALPN, and, for the first listener of the binding, the lookup
    could be partitioned.  The new listener is then put at one place of
    the list and nothing else of the binding changes. *)
Theorem RegisterListener_accepts (B : QUIC_BINDING) (ok : bool)
    (NewListener : QUIC_LISTENER) :
  (∀ Existing, Existing ∈ Listeners B → ¬ conflict NewListener Existing) →
  (Listeners B = [] → ok = true) →
  ∃ i, (i ≤ length (Listeners B))%nat
     ∧ QuicBindingRegisterListener ok NewListener B
       = (set_Listeners (take i (Listeners B) ++ NewListener :: drop i (Listeners B)) B,
          true).
Proof.
  intros Hnc Hok. unfold QuicBindingRegisterListener.
  destruct (register_scan_no_conflict NewListener _ Hnc) as [Hadd Hle].
  destruct (register_scan NewListener (Listeners B) 0) as [Add Link].
  simpl in *. subst Add. exists Link. split; [done|].
  case_bool_decide as Hnil; simpl; [|done].
  by rewrite (Hok Hnil).
Qed.


Lemma get_listener_scan_cons (Info : QUIC_NEW_CONNECTION_INFO) (Ex : QUIC_LISTENER)
    (rest : list QUIC_LISTENER) :
  (accepts Info Ex
   ∧ get_listener_scan Info (Ex :: rest)
     = if QuicRundownAcquire (Listener_Link Ex) then Some Ex else None)
  ∨ (¬ accepts Info Ex
     ∧ get_listener_scan Info (Ex :: rest) = get_listener_scan Info rest).
Proof.
  unfold accepts, ip_match, family. simpl.
  destruct (QuicAddrCompareIp _ _) eqn:Hip, (WildCard Ex) eqn:Hw,
    (QuicSessionMatchesAlpn _ _) eqn:Ha;
    repeat case_bool_decide; simpl; try (by left; intuition);
    right; (split; [|done]); intros [[?|[? [?|?]]] ?]; congruence.
Qed.

Lemma get_listener_scan_spec (Info : QUIC_NEW_CONNECTION_INFO) (l : list QUIC_LISTENER) :
  match get_listener_scan Info l with
  | Some L =>
      ∃ i, first_accepting Info l i L ∧ QuicRundownAcquire (Listener_Link L) = true
  | None =>
      (∀ L, L ∈ l → ¬ accepts Info L)
      ∨ (∃ i L, first_accepting Info l i L ∧ QuicRundownAcquire (Listener_Link L) = false)
  end.
Proof.
  induction l as [|Ex rest IH]; [left; by intros L ?%elem_of_nil|].
  destruct (get_listener_scan_cons Info Ex rest) as [[Hacc ->]|[Hno ->]].
  - assert (Hfirst : first_accepting Info (Ex :: rest) 0 Ex).
    { split; [done|]. split; [done|]. intros j L' Hj. lia. }
    destruct (QuicRundownAcquire _) eqn:Hrun.
    + by exists 0%nat.
    + right. by exists 0%nat, Ex.
  - assert (Hshift : ∀ i L, first_accepting Info rest i L →
                            first_accepting Info (Ex :: rest) (S i) L).
    { intros i L (Hi & Hacc & Hbefore). split; [done|]. split; [done|].
      intros [|j] L' Hj HL'; simpl in HL'.
      - by injection HL' as <-.
      - eapply Hbefore; [|done]. lia. }
    destruct (get_listener_scan Info rest) as [L|].
    + destruct IH as (i & Hfirst & Hrun). exists (S i). split; [by apply Hshift|done].
    + destruct IH as [Hnone|(i & L & Hfirst & Hrun)].
      * left. intros L [->|HL]%elem_of_cons; [done|by apply Hnone].
      * right. exists (S i), L. split; [by apply Hshift|done].
Qed.

Lemma first_accepting_unique (Info : QUIC_NEW_CONNECTION_INFO) (l : list QUIC_LISTENER)
    (i j : nat) (L L' : QUIC_LISTENER) :
  first_accepting Info l i L → first_accepting Info l j L' → i = j ∧ L = L'.
Proof.
  intros (Hi & Hacc & Hbefore) (Hj & Hacc' & Hbefore').
  assert (i = j) as ->.
  { destruct (Nat.lt_trichotomy i j) as [Hlt|[?|Hlt]]; [|done|].
    - by destruct (Hbefore' i L Hlt Hi).
    - by destruct (Hbefore j L' Hlt Hj). }
  split; [done|congruence].
Qed.

(** X4.  QuicBindingGetListener gives the first listener of the list whose
    address fits the connection's local address and whose session matches
    the ALPN, when the rundown reference of that listener can be taken.
    It gives NULL when no listener accepts the connection, and also when
    the first one that does is being run down: the listeners behind it are
    then not tried. *)
Theorem GetListener_first_match (B : QUIC_BINDING) (Info : QUIC_NEW_CONNECTION_INFO) :
  (∀ L, QuicBindingGetListener B Info = Some L
        ↔ ∃ i, first_accepting Info (Listeners B) i L
             ∧ QuicRundownAcquire (Listener_Link L) = true)
  ∧ (QuicBindingGetListener B Info = None
     ↔ (∀ L, L ∈ Listeners B → ¬ accepts Info L)
       ∨ (∃ i L, first_accepting Info (Listeners B) i L
               ∧ QuicRundownAcquire (Listener_Link L) = false)).
Proof.
  unfold QuicBindingGetListener.
  pose proof (get_listener_scan_spec Info (Listeners B)) as Hspec.
  destruct (get_listener_scan Info (Listeners B)) as [L0|].
  - destruct Hspec as (i0 & Hfirst0 & Hrun0). split.
    + intros L. split.
      * intros [= <-]. by exists i0.
      * intros (i & Hfirst & _).
        by destruct (first_accepting_unique _ _ _ _ _ _ Hfirst0 Hfirst) as [_ ->].
    + split; [done|]. intros [Hnone|(i & L & Hfirst & Hrun)]; exfalso.
      * destruct Hfirst0 as (Hi0 & Hacc0 & _).
        eapply Hnone; [|exact Hacc0]. by eapply list_elem_of_lookup_2.
      * destruct (first_accepting_unique _ _ _ _ _ _ Hfirst0 Hfirst) as [_ <-].
        congruence.
  - split; [|done]. intros L. split; [done|].
    intros (i & Hfirst & Hrun). exfalso.
    destruct Hspec as [Hnone|(i' & L' & Hfirst' & Hrun')].
    + destruct Hfirst as (Hi & Hacc & _).
      eapply Hnone; [|exact Hacc]. by eapply list_elem_of_lookup_2.
    + destruct (first_accepting_unique _ _ _ _ _ _ Hfirst Hfirst') as [_ <-].
      congruence.
Qed.

(** X5.  On a binding reached by registrations and unregistrations the
    lookup prefers the more specific listener: no listener that accepts
    the connection comes before the one returned in the order of the
    registry, so a listener for all addresses of a family is returned only
    when no accepting listener is for one address of that family, and a
    listener of a smaller family value (the unspecified family) only when
    no accepting listener has a greater one. *)
Theorem GetListener_most_specific (B : QUIC_BINDING) (Info : QUIC_NEW_CONNECTION_INFO)
    (L L' : QUIC_LISTENER) :
  listeners_reachable B →
  QuicBindingGetListener B Info = Some L →
  L' ∈ Listeners B → accepts Info L' →
  family L > family L'
  ∨ (family L = family L' ∧ (WildCard L = true → WildCard L' = true)).
Proof.
  intros Hr Hget Hin Hacc.
  pose proof (listeners_reachable_in_order B Hr) as Hord.
  unfold QuicBindingGetListener in Hget.
  pose proof (get_listener_scan_spec Info (Listeners B)) as Hspec.
  rewrite Hget in Hspec. destruct Hspec as (i & (Hi & _ & Hbefore) & _).
  apply list_elem_of_lookup_1 in Hin as [j Hj].
  destruct (Nat.lt_trichotomy i j) as [Hlt|[->|Hlt]].
  - exact (in_order_lookup _ i j L L' Hord Hlt Hi Hj).
  - assert (L' = L) as -> by congruence. apply bucket_le_refl.
  - by destruct (Hbefore j L' Hlt Hj).
Qed.

End ListenerMore.

(** Three listeners on the test platform: one IPv4 address, all IPv4
    addresses, one IPv6 address. *)
Definition listener_v4 : QUIC_LISTENER :=
  {| Listener_Link := 11%positive; Listener_LocalAddress := [2; 1; 1];
     WildCard := false; Listener_Session := 5%positive |}.

Definition listener_v4_any : QUIC_LISTENER :=
  {| Listener_Link := 12%positive; Listener_LocalAddress := [2; 0; 0];
     WildCard := true; Listener_Session := 5%positive |}.

Definition listener_v6 : QUIC_LISTENER :=
  {| Listener_Link := 14%positive; Listener_LocalAddress := [23; 1; 1];
     WildCard := false; Listener_Session := 6%positive |}.

(** The binding after the three registrations, the wild-card listener
    first. *)
Definition three_listeners : QUIC_BINDING :=
  (QuicBindingRegisterListener true listener_v6
     (QuicBindingRegisterListener true listener_v4
        (QuicBindingRegisterListener true listener_v4_any (test_binding false)).1).1).1.

Lemma three_listeners_reachable : listeners_reachable three_listeners.
Proof. do 3 apply reachable_register. by apply reachable_empty. Qed.

(** Registered last and first, the IPv6 listener and the IPv4 wild-card
    listener end up first and last. *)
Lemma Listeners_in_order_witness :
  Listeners three_listeners = [listener_v6; listener_v4; listener_v4_any]
  ∧ (family listener_v6 > family listener_v4_any
     ∨ (family listener_v6 = family listener_v4_any
        ∧ (WildCard listener_v6 = true → WildCard listener_v4_any = true))).
Proof.
  split; [reflexivity|].
  apply (Listeners_in_order (H := test_platform) three_listeners 0 2).
  - exact three_listeners_reachable.
  - lia.
  - reflexivity.
  - reflexivity.
Defined.

(** The IPv4 wild-card listener is accepted next to the listener for one
    IPv4 address. *)
Lemma RegisterListener_accepts_witness :
  let B := (QuicBindingRegisterListener true listener_v4 (test_binding false)).1 in
  ∃ i, (i ≤ length (Listeners B))%nat
     ∧ QuicBindingRegisterListener false listener_v4_any B
       = (set_Listeners (take i (Listeners B) ++ listener_v4_any :: drop i (Listeners B)) B,
          true).
Proof.
  intros B.
  apply (RegisterListener_accepts (H := test_platform) B false listener_v4_any).
  - intros Ex Hin. apply list_elem_of_singleton in Hin as ->.
    intros [(_ & Hw & _) _]. discriminate Hw.
  - intros Hnil. discriminate Hnil.
Defined.


(** A connection to the address of the IPv4 listener, with the ALPN of
    session 5, is accepted by both IPv4 listeners and goes to the one for
    that address. *)
Lemma GetListener_most_specific_witness :
  let Info := {| Info_LocalAddress := [2; 1; 1]; Info_ClientAlpnList := [5] |} in
  QuicBindingGetListener three_listeners Info = Some listener_v4
  ∧ (family listener_v4 > family listener_v4_any
     ∨ (family listener_v4 = family listener_v4_any
        ∧ (WildCard listener_v4 = true → WildCard listener_v4_any = true))).
Proof.
  intros Info. split; [reflexivity|].
  apply (GetListener_most_specific (H := test_platform) (H0 := test_listener_helpers)
           three_listeners Info).
  - exact three_listeners_reachable.
  - reflexivity.
  - apply list_elem_of_lookup_2 with 2%nat. reflexivity.
  - split; [|reflexivity]. right. split; [reflexivity|]. left. reflexivity.
Defined.

(** ** The reserved version of a new binding *)

Section InitializeFacts.
Context `{Platform}.

Lemma Initialize_Some (ShareBinding ServerOwned : bool) (RemoteAddress : option QUIC_ADDR)
    (AllocOk : bool) (Random : list Z) (HashCreateOk DatapathCreateOk : bool)
    (B : QUIC_BINDING) :
  QuicBindingInitialize ShareBinding ServerOwned RemoteAddress AllocOk Random
    HashCreateOk DatapathCreateOk = Some B →
  AllocOk = true ∧ HashCreateOk = true ∧ DatapathCreateOk = true
  ∧ RandomReservedVersion B
    = Z.lor (Z.land (le32 (take 4 Random)) (u32 (Z.lnot QUIC_VERSION_RESERVED_MASK)))
        QUIC_VERSION_RESERVED
  ∧ Listeners B = [] ∧ StatelessOperList B = [] ∧ StatelessOperTable B = []
  ∧ StatelessOperCount B = 0 ∧ RefCount B = 1.
Proof.
  unfold QuicBindingInitialize.
  destruct AllocOk, HashCreateOk, DatapathCreateOk; try done.
  by intros [= <-].
Qed.

Lemma u32_lnot_testbit (M n : Z) :
  0 ≤ n → Z.testbit (u32 (Z.lnot M)) n = (n <? 32) && negb (Z.testbit M n).
Proof.
  intros Hn. unfold u32, wrap.
  rewrite Z.testbit_mod_pow2 by lia. by rewrite Z.lnot_spec.
Qed.

(** X6.  Whatever bytes QuicRandom delivers, the random reserved version of
    a binding that QuicBindingInitialize creates is a reserved version: its
    bits under QUIC_VERSION_RESERVED_MASK are those of
    QUIC_VERSION_RESERVED, so it is none of the versions the library
    speaks; and outside the mask its low 32 bits are the random ones.  The
    bits of QUIC_VERSION_RESERVED are taken to lie under the mask. *)
Theorem Initialize_reserved_version (ShareBinding ServerOwned : bool)
    (RemoteAddress : option QUIC_ADDR) (AllocOk : bool) (Random : list Z)
    (HashCreateOk DatapathCreateOk : bool) (B : QUIC_BINDING) :
  Z.land QUIC_VERSION_RESERVED QUIC_VERSION_RESERVED_MASK = QUIC_VERSION_RESERVED →
  QuicBindingInitialize ShareBinding ServerOwned RemoteAddress AllocOk Random
    HashCreateOk DatapathCreateOk = Some B →
  Z.land (RandomReservedVersion B) QUIC_VERSION_RESERVED_MASK = QUIC_VERSION_RESERVED
  ∧ Z.land (RandomReservedVersion B) (u32 (Z.lnot QUIC_VERSION_RESERVED_MASK))
    = Z.land (le32 (take 4 Random)) (u32 (Z.lnot QUIC_VERSION_RESERVED_MASK)).
Proof.
  intros Hmask Hinit.
  apply Initialize_Some in Hinit as (_ & _ & _ & -> & _).
  assert (Hbits : ∀ n, 0 ≤ n →
            Z.testbit QUIC_VERSION_RESERVED n = true →
            Z.testbit QUIC_VERSION_RESERVED_MASK n = true).
  { intros n Hn Hr. rewrite <- Hmask, Z.land_spec in Hr.
    by apply andb_true_iff in Hr as [_ ?]. }
  split; apply Z.bits_inj'; intros n Hn;
    rewrite ?Z.land_spec, ?Z.lor_spec, ?Z.land_spec, ?u32_lnot_testbit by done;
    specialize (Hbits n Hn);
    destruct (Z.testbit QUIC_VERSION_RESERVED n), (Z.testbit QUIC_VERSION_RESERVED_MASK n),
      (Z.testbit (le32 (take 4 Random)) n), (n <? 32); simpl; try done;
    by discriminate Hbits.
Qed.

End InitializeFacts.

(** With the mask [0x0f0f0f0f] and the pattern [0x0a0a0a0a] of the test
    platform, the random bytes [ff ff ff ff] give the version
    [0xfafafafa]. *)
Lemma Initialize_reserved_version_witness :
  ∃ B, QuicBindingInitialize true true None true (replicate 24 255) true true = Some B
     ∧ RandomReservedVersion B = 0xfafafafa
     ∧ Z.land (RandomReservedVersion B) QUIC_VERSION_RESERVED_MASK = QUIC_VERSION_RESERVED.
Proof.
  eexists. split; [reflexivity|]. split; [reflexivity|].
  refine (proj1 (Initialize_reserved_version (H := test_platform) true true None true
                   (replicate 24 255) true true _ _ _)).
  - reflexivity.
  - reflexivity.
Defined.

(** ** The life of a stateless context *)

Section ContextLife.
Context `{Platform}.
Hypothesis MAX_range : 0 ≤ QUIC_MAX_BINDING_STATELESS_OPERATIONS < 2 ^ 32.

(** Every allocated context is either in the cache and not expired, or
    has expired, is out of the cache and waits for the release of its
    operation. *)
Definition heap_ok (s : State) : Prop :=
  ∀ p c, StatelessContexts s !! p = Some c →
    (IsExpired c = false ∧ p ∈ StatelessOperList (Binding s))
    ∨ (IsExpired c = true ∧ IsProcessed c = false
       ∧ p ∉ StatelessOperList (Binding s)).

Lemma aged_head_heap_ok (p : ptr) (rest : list ptr) (c : QUIC_STATELESS_CONTEXT)
    (s : State) :
  cache_wf s → heap_ok s →
  StatelessOperList (Binding s) = p :: rest →
  StatelessContexts s !! p = Some c →
  heap_ok (aged_head p rest c s).
Proof.
  intros Hwf Hok Hl Hc q d Hq.
  pose proof (wf_nodup s Hwf) as Hnd. rewrite Hl in Hnd.
  apply NoDup_cons in Hnd as [Hp _].
  destruct (decide (q = p)) as [->|Hne].
  - unfold aged_head in Hq. simpl in Hq |- *.
    destruct (IsProcessed c) eqn:Hproc.
    + by rewrite lookup_delete_eq in Hq.
    + rewrite lookup_insert_eq in Hq. injection Hq as <-. right. by simpl.
  - rewrite aged_head_frame in Hq by done.
    destruct (Hok q d Hq) as [[Hexp Hin]|(Hexp & Hproc & Hin)]; rewrite Hl in Hin.
    + left. split; [done|]. simpl. by apply elem_of_cons in Hin as [?|?].
    + right. split; [done|]. split; [done|]. simpl.
      by apply not_elem_of_cons in Hin as [_ ?].
Qed.

Lemma age_out_heap_ok (fuel : nat) (TimeMs : Z) (s : State) :
  cache_wf s → heap_ok s → heap_ok (age_out fuel TimeMs s).
Proof.
  revert s. induction fuel as [|fuel IH]; intros s Hwf Hok; simpl; [done|].
  destruct (StatelessOperList (Binding s)) as [|p rest] eqn:Hl; [done|].
  destruct (StatelessContexts s !! p) as [c|] eqn:Hc; [|done].
  case_decide; [done|].
  fold (aged_head p rest c s). apply IH.
  - by apply aged_head_wf.
  - by apply aged_head_heap_ok.
Qed.

Lemma heap_ok_drop (Reason : string) (s : State) :
  heap_ok s → heap_ok (QuicPacketLogDrop Reason s).
Proof. done. Qed.

Lemma inserted_heap_ok (E : Env) (Worker : ptr) (Datagram : QUIC_RECV_DATAGRAM)
    (Next : list QUIC_RECV_DATAGRAM) (s : State) :
  heap_ok s → heap_ok (inserted E Worker Datagram Next s).
Proof.
  intros Hok q d Hq. unfold inserted in Hq |- *. simpl in Hq |- *.
  destruct (decide (q = fresh (dom (StatelessContexts s)))) as [->|Hne].
  - rewrite lookup_insert_eq in Hq. injection Hq as <-. left. split; [done|].
    apply elem_of_app. right. apply list_elem_of_here.
  - rewrite lookup_insert_ne in Hq by done.
    destruct (Hok q d Hq) as [[Hexp Hin]|(Hexp & Hproc & Hin)].
    + left. split; [done|]. apply elem_of_app. by left.
    + right. split; [done|]. split; [done|].
      rewrite elem_of_app, list_elem_of_singleton. by intros [?|?].
Qed.

Lemma CreateStatelessOperation_heap_ok (E : Env) (Worker : ptr)
    (Datagram : QUIC_RECV_DATAGRAM) (Next : list QUIC_RECV_DATAGRAM) (s : State) :
  cache_wf s → heap_ok s →
  heap_ok (QuicBindingCreateStatelessOperation E Worker Datagram Next s).1.
Proof.
  intros Hwf Hok.
  pose proof (age_out_heap_ok (length (StatelessOperList (Binding s))) (Env_TimeMs E) s
                Hwf Hok) as H1.
  destruct (CreateStatelessOperation_cases E Worker Datagram Next s)
    as [(Reason & -> & _)|(-> & _ & _)]; simpl.
  - by apply heap_ok_drop.
  - by apply inserted_heap_ok.
Qed.

Lemma ReleaseStatelessOperation_heap_ok (p : ptr) (ReturnDatagram : bool) (s : State) :
  heap_ok s → heap_ok (QuicBindingReleaseStatelessOperation p ReturnDatagram s).
Proof.
  intros Hok. unfold QuicBindingReleaseStatelessOperation.
  destruct (StatelessContexts s !! p) as [c|] eqn:Hc; [|done].
  assert (Hcase : ∀ s1 : State,
            StatelessContexts s1 = <[p := set_IsProcessed c]> (StatelessContexts s) →
            StatelessOperList (Binding s1) = StatelessOperList (Binding s) →
            heap_ok (if IsExpired c
                     then set_StatelessContexts (delete p (StatelessContexts s1)) s1
                     else s1)).
  { intros s1 Hh Hl q d Hq.
    destruct (decide (q = p)) as [->|Hne].
    - destruct (IsExpired c) eqn:Hexp; simpl in Hq.
      + by rewrite lookup_delete_eq in Hq.
      + rewrite Hh, lookup_insert_eq in Hq. injection Hq as <-. simpl.
        rewrite Hl, Hexp. destruct (Hok p c Hc) as [[_ ?]|[? _]]; [by left|congruence].
    - assert (Hq' : StatelessContexts s !! q = Some d).
      { destruct (IsExpired c); simpl in Hq;
          rewrite ?lookup_delete_ne, Hh, lookup_insert_ne in Hq; done. }
      destruct (IsExpired c); simpl; rewrite Hl; by apply Hok. }
  destruct ReturnDatagram, (HasBindingRef c); simpl; by apply Hcase.
Qed.

Lemma cache_run_heap_ok (calls : list cache_call) (s : State) :
  cache_wf s → heap_ok s → heap_ok (cache_run calls s).
Proof.
  revert s. induction calls as [|c calls IH]; intros s Hwf Hok; [done|].
  simpl. destruct c; simpl.
  - apply IH; [by apply CreateStatelessOperation_wf|].
    by apply CreateStatelessOperation_heap_ok.
  - apply IH; [by apply ReleaseStatelessOperation_wf|].
    by apply ReleaseStatelessOperation_heap_ok.
Qed.

(** X7.  After any sequence of creations and releases on a binding that
    started with an empty cache and no context allocated, the list holds
    no dangling pointer (every listed context is allocated and not
    expired) and no context leaks: an allocated context that is not in
    the list has expired and is still waiting for the release of its
    operation, so a context that is both expired and processed has been
    freed. *)
Theorem stateless_context_lifecycle (s0 : State) (calls : list cache_call) :
  cache_empty s0 → StatelessContexts s0 = ∅ →
  let s := cache_run calls s0 in
  (∀ p, p ∈ StatelessOperList (Binding s) →
     ∃ c, StatelessContexts s !! p = Some c ∧ IsExpired c = false)
  ∧ (∀ p c, StatelessContexts s !! p = Some c →
       p ∉ StatelessOperList (Binding s) →
       IsExpired c = true ∧ IsProcessed c = false)
  ∧ (∀ p c, StatelessContexts s !! p = Some c →
       IsProcessed c = true → p ∈ StatelessOperList (Binding s)).
Proof.
  intros Hempty Hheap s.
  assert (Hwf0 : cache_wf s0) by (apply cache_empty_wf; [lia|done]).
  assert (Hok0 : heap_ok s0).
  { intros p c Hp. by rewrite Hheap, lookup_empty in Hp. }
  pose proof (cache_run_wf MAX_range calls s0 Hwf0) as Hwf.
  pose proof (cache_run_heap_ok calls s0 Hwf0 Hok0) as Hok.
  fold s in Hwf, Hok. split; [|split].
  - by apply wf_live.
  - intros p c Hp Hnot. destruct (Hok p c Hp) as [[_ ?]|(? & ? & _)]; done.
  - intros p c Hp Hproc. destruct (Hok p c Hp) as [[_ ?]|(_ & ? & _)]; [done|congruence].
Qed.



End ContextLife.

(** One context is created, released and then aged out by a creation for
    another address 150 ms later: it is gone from the list and from the
    heap, and the new context is the only one. *)
Lemma stateless_context_lifecycle_witness :
  let D1 := test_datagram 1%positive [2; 9] [64; 0; 5] 60 in
  let D2 := test_datagram 2%positive [2; 8] [64; 0; 5] 60 in
  let s := cache_run [CallCreate (test_env 0) 1%positive D1 [];
                      CallRelease 1%positive true;
                      CallCreate (test_env 150) 1%positive D2 []] (test_state false) in
  dom (StatelessContexts s) = {[ 1%positive ]}
  ∧ (∀ p, p ∈ StatelessOperList (Binding s) →
       ∃ c, StatelessContexts s !! p = Some c ∧ IsExpired c = false)
  ∧ (∀ p c, StatelessContexts s !! p = Some c →
       p ∉ StatelessOperList (Binding s) →
       IsExpired c = true ∧ IsProcessed c = false)
  ∧ (∀ p c, StatelessContexts s !! p = Some c →
       IsProcessed c = true → p ∈ StatelessOperList (Binding s)).
Proof.
  intros D1 D2 s. split; [by vm_compute|].
  exact (stateless_context_lifecycle (H := test_platform) test_MAX_range
           (test_state false) _ test_state_empty eq_refl).
Defined.


(** ** Who holds a datagram *)

Section Ownership.
Context `{Platform}.

(** No context of [s'] holds a datagram chain that it did not hold in
    [s]. *)
Definition holds_no_more (s s' : State) : Prop :=
  ∀ q c, StatelessContexts s' !! q = Some c →
    Ctx_Datagram c = []
    ∨ ∃ c0, StatelessContexts s !! q = Some c0 ∧ Ctx_Datagram c0 = Ctx_Datagram c.

Lemma holds_no_more_refl (s : State) : holds_no_more s s.
Proof. intros q c Hq. right. by exists c. Qed.

Lemma holds_no_more_trans (s1 s2 s3 : State) :
  holds_no_more s1 s2 → holds_no_more s2 s3 → holds_no_more s1 s3.
Proof.
  intros H12 H23 q c Hq.
  destruct (H23 q c Hq) as [?|(c2 & Hq2 & Heq)]; [by left|].
  destruct (H12 q c2 Hq2) as [Hnil|(c1 & Hq1 & Heq1)].
  - left. congruence.
  - right. exists c1. split; [done|congruence].
Qed.

Lemma holds_no_more_same (s s' : State) :
  StatelessContexts s' = StatelessContexts s → holds_no_more s s'.
Proof. intros Heq q c Hq. right. exists c. by rewrite <- Heq. Qed.

Lemma age_out_holds_no_more (fuel : nat) (TimeMs : Z) (s : State) :
  holds_no_more s (age_out fuel TimeMs s)
  ∧ DatapathReturned (age_out fuel TimeMs s) = DatapathReturned s.
Proof.
  revert s. induction fuel as [|fuel IH]; intros s; simpl;
    [split; [apply holds_no_more_refl|done]|].
  destruct (StatelessOperList (Binding s)) as [|p rest];
    [split; [apply holds_no_more_refl|done]|].
  destruct (StatelessContexts s !! p) as [c|] eqn:Hc;
    [|split; [apply holds_no_more_refl|done]].
  case_decide; [split; [apply holds_no_more_refl|done]|].
  fold (aged_head p rest c s).
  destruct (IH (aged_head p rest c s)) as [Hh Hr]. split; [|by rewrite Hr].
  eapply holds_no_more_trans; [|exact Hh].
  intros q d Hq. right. destruct (decide (q = p)) as [->|Hne].
  - exists c. split; [done|]. unfold aged_head in Hq. simpl in Hq.
    destruct (IsProcessed c).
    + by rewrite lookup_delete_eq in Hq.
    + rewrite lookup_insert_eq in Hq. by injection Hq as <-.
  - exists d. by rewrite aged_head_frame in Hq.
Qed.

Lemma ReleaseStatelessOperation_holds_no_more (p : ptr) (s : State) :
  holds_no_more s (QuicBindingReleaseStatelessOperation p false s)
  ∧ DatapathReturned (QuicBindingReleaseStatelessOperation p false s)
    = DatapathReturned s.
Proof.
  unfold QuicBindingReleaseStatelessOperation.
  destruct (StatelessContexts s !! p) as [c|] eqn:Hc;
    [|split; [apply holds_no_more_refl|done]].
  split; [|by destruct (HasBindingRef c), (IsExpired c)].
  intros q d Hq. destruct (decide (q = p)) as [->|Hne].
  - left. destruct (HasBindingRef c), (IsExpired c); simpl in Hq;
      rewrite ?lookup_delete_eq, ?lookup_insert_eq in Hq; try done;
      by injection Hq as <-.
  - right. exists d. split; [|done].
    destruct (HasBindingRef c), (IsExpired c); simpl in Hq;
      rewrite ?lookup_delete_ne, ?lookup_insert_ne in Hq; done.
Qed.

(** The result of QuicBindingQueueStatelessOperation, by cases. *)
Lemma QueueStatelessOperation_cases (E : Env) (OperType : QUIC_OPERATION_TYPE)
    (Datagram : QUIC_RECV_DATAGRAM) (Next : list QUIC_RECV_DATAGRAM) (s : State) :
  let r := QuicBindingQueueStatelessOperation E OperType Datagram Next s in
  let s1 := age_out (length (StatelessOperList (Binding s))) (Env_TimeMs E) s in
  (r.2 = true
   ∧ r.1 = QuicWorkerQueueOperation
             {| Oper_Type := OperType; FreeAfterProcess := true;
                API_CALL_Context := None;
                STATELESS_Context := Some (fresh (dom (StatelessContexts s1))) |}
             (inserted E (Env_Worker E) Datagram Next s1))
  ∨ (r.2 = false
     ∧ WorkerOperQ r.1 = WorkerOperQ s
     ∧ holds_no_more s r.1
     ∧ DatapathReturned r.1 = DatapathReturned s).
Proof.
  intros r s1. subst r. unfold QuicBindingQueueStatelessOperation.
  destruct (Env_WorkerPoolNull E); simpl.
  { right. split_and!; try done. by apply holds_no_more_same. }
  destruct (Env_WorkerOverloaded E); simpl.
  { right. split_and!; try done. by apply holds_no_more_same. }
  destruct (age_out_holds_no_more (length (StatelessOperList (Binding s)))
              (Env_TimeMs E) s) as [Hh1 Hr1].
  destruct (age_out_quiet (length (StatelessOperList (Binding s))) (Env_TimeMs E) s)
    as (_ & _ & Hq1).
  fold s1 in Hh1, Hr1, Hq1.
  destruct (CreateStatelessOperation_cases E (Env_Worker E) Datagram Next s)
    as [(Reason & -> & _)|(-> & _ & _)]; fold s1; simpl.
  { right. split_and!; try done. }
  destruct (Env_OperAllocOk E); simpl; [by left|].
  right. split; [done|].
  set (s2 := QuicPacketLogDrop _ _).
  destruct (ReleaseStatelessOperation_holds_no_more
              (fresh (dom (StatelessContexts s1))) s2) as [Hh3 Hr3].
  split; [|split].
  - destruct (ReleaseStatelessOperation_quiet (fresh (dom (StatelessContexts s1))) false s2)
      as (_ & _ & ->). done.
  - intros q d Hq.
    destruct (decide (q = fresh (dom (StatelessContexts s1)))) as [->|Hne].
    + left. unfold QuicBindingReleaseStatelessOperation in Hq.
      unfold s2, inserted in Hq. simpl in Hq. rewrite lookup_insert_eq in Hq.
      simpl in Hq. rewrite lookup_insert_eq in Hq. by injection Hq as <-.
    + destruct (Hh3 q d Hq) as [?|(c2 & Hq2 & Heq2)]; [by left|].
      unfold s2, inserted in Hq2. simpl in Hq2.
      rewrite lookup_insert_ne in Hq2 by done.
      destruct (Hh1 q c2 Hq2) as [?|(c1 & Hq1' & Heq1)]; [left; congruence|].
      right. exists c1. split; [done|congruence].
  - by rewrite Hr3.
Qed.

Lemma QueueStatelessOperation_outcome (E : Env)
    (OperType : QUIC_OPERATION_TYPE) (Datagram : QUIC_RECV_DATAGRAM)
    (Next : list QUIC_RECV_DATAGRAM) (s : State) :
  let r := QuicBindingQueueStatelessOperation E OperType Datagram Next s in
  DatapathReturned r.1 = DatapathReturned s
  ∧ if r.2 then
      ∃ p c,
        WorkerOperQ r.1
        = WorkerOperQ s ++ [{| Oper_Type := OperType; FreeAfterProcess := true;
                               API_CALL_Context := None;
                               STATELESS_Context := Some p |}]
        ∧ StatelessContexts r.1 !! p = Some c
        ∧ p ∈ StatelessOperList (Binding r.1)
        ∧ Ctx_Datagram c = Datagram :: Next
        ∧ Ctx_RemoteAddress c = Tuple_RemoteAddress Datagram
        ∧ CreationTimeMs c = Env_TimeMs E
        ∧ IsProcessed c = false ∧ IsExpired c = false
    else
      WorkerOperQ r.1 = WorkerOperQ s ∧ holds_no_more s r.1.
Proof.
  intros r.
  destruct (QueueStatelessOperation_cases E OperType Datagram Next s)
    as [[Hok Hr]|(Hno & Hq & Hh & Hd)]; fold r in Hok, Hr || fold r in Hno, Hq, Hh, Hd.
  - rewrite Hok, Hr. simpl.
    destruct (age_out_holds_no_more (length (StatelessOperList (Binding s)))
                (Env_TimeMs E) s) as [_ Hr1].
    destruct (age_out_quiet (length (StatelessOperList (Binding s))) (Env_TimeMs E) s)
      as (_ & _ & Hq1).
    split; [done|]. eexists _, _. split_and!.
    + by rewrite Hq1.
    + apply lookup_insert_eq.
    + apply elem_of_app. right. apply list_elem_of_here.
    + done.
    + done.
    + done.
    + done.
    + done.
  - rewrite Hno. done.
Qed.

(** X9.  QuicBindingQueueStatelessOperation takes the datagram exactly when
    it returns TRUE.  Then one operation of the given type is queued, and
    its context (allocated, in the cache, neither processed nor expired)
    holds the datagram chain and the sender's address.  When it returns
    FALSE nothing is queued, no datagram is returned to the datapath and
    no context holds a chain that it did not hold before, so the caller
    still owns the datagram; this includes the path on which the context
    was created but the operation could not be allocated. *)
Theorem QueueStatelessOperation_takes_datagram_iff_true (E : Env)
    (OperType : QUIC_OPERATION_TYPE) (Datagram : QUIC_RECV_DATAGRAM)
    (Next : list QUIC_RECV_DATAGRAM) (s : State) :
  let r := QuicBindingQueueStatelessOperation E OperType Datagram Next s in
  DatapathReturned r.1 = DatapathReturned s
  ∧ if r.2 then
      ∃ p c,
        WorkerOperQ r.1
        = WorkerOperQ s ++ [{| Oper_Type := OperType; FreeAfterProcess := true;
                               API_CALL_Context := None;
                               STATELESS_Context := Some p |}]
        ∧ StatelessContexts r.1 !! p = Some c
        ∧ p ∈ StatelessOperList (Binding r.1)
        ∧ Ctx_Datagram c = Datagram :: Next
        ∧ Ctx_RemoteAddress c = Tuple_RemoteAddress Datagram
        ∧ CreationTimeMs c = Env_TimeMs E
        ∧ IsProcessed c = false ∧ IsExpired c = false
    else
      WorkerOperQ r.1 = WorkerOperQ s ∧ holds_no_more s r.1.
Proof. apply QueueStatelessOperation_outcome. Qed.

End Ownership.

(** ** Connections across a delivery *)

Section ConnectionFacts.
Context `{Platform}.

(** The receive queue of the connection at [c]; empty when there is no
    such connection. *)
Definition ReceiveQueue (s : State) (c : ptr) : list QUIC_RECV_DATAGRAM :=
  default [] (Conn_ReceiveQueue <$> Connections s !! c).

(** The connection that the lookup of QuicBindingDeliverDatagrams finds for
    the chain that starts with [Datagram]. *)
Definition lookup_of (E : Env) (Datagram : QUIC_RECV_DATAGRAM) (s : State) : option ptr :=
  if negb (ServerOwned (Binding s)) || IsShortHeader (Datagram_Packet Datagram)
  then Env_LookupLocalCid E
  else Env_LookupRemoteHash E.

(** The lookup table names live connections only. *)
Definition lookups_live (E : Env) (s : State) : Prop :=
  (∀ c, Env_LookupLocalCid E = Some c → c ∈ dom (Connections s))
  ∧ (∀ c, Env_LookupRemoteHash E = Some c → c ∈ dom (Connections s))
  ∧ (∀ c, Env_AddRemoteHash E = RemoteHashCollision c → c ∈ dom (Connections s)).

(** What has to hold for QuicBindingDeliverDatagrams to reach
    QuicBindingCreateConnection; [Packet'] is the packet as the validation
    leaves it. *)
Definition admitted (E : Env) (Datagram : QUIC_RECV_DATAGRAM) (s : State)
    (Packet' : QUIC_RECV_PACKET) : Prop :=
  let Packet := Datagram_Packet Datagram in
  lookup_of E Datagram s = None
  ∧ Exclusive (Binding s) = false
  ∧ IsShortHeader Packet = false
  ∧ Invariant_Version Packet ≠ QUIC_VERSION_VER_NEG
  ∧ (is_v1_format_version (Invariant_Version Packet) = true → LH_Type Packet = QUIC_INITIAL)
  ∧ QuicBindingHasListenerRegistered (Binding s) = true
  ∧ ∃ P Token,
      QuicPacketValidateLongHeaderV1 Packet = Some (P, Token)
      ∧ QuicBindingShouldRetryConnection (Env_Lib E) Datagram P
          (Z.of_nat (length Token)) Token false s
        = (s, Packet', false, false).

Lemma ShouldRetryConnection_state (Lib : QUIC_LIBRARY) (D : QUIC_RECV_DATAGRAM)
    (P : QUIC_RECV_PACKET) (TokenLength : Z) (Token : list Z) (s : State) :
  let r := QuicBindingShouldRetryConnection Lib D P TokenLength Token false s in
  (r.1.2 = false ∧ r.1.1.1 = s)
  ∨ (r.1.2 = true ∧ r.2 = false ∧ ∃ Reason, r.1.1.1 = QuicPacketLogDrop Reason s).
Proof.
  unfold QuicBindingShouldRetryConnection.
  case_decide; simpl; [|by left].
  unfold QuicBindingValidateRetryToken.
  case_decide; simpl; [right; by eauto|].
  destruct (QuicRetryTokenDecrypt _ _); simpl; [|right; by eauto].
  case_decide; simpl; [right; by eauto|].
  destruct (negb _); simpl; [right; by eauto|by left].
Qed.

(** QuicBindingDeliverDatagrams by cases: the chain goes to the connection
    that the lookup found, or it is dropped, or it is handed to
    QuicBindingQueueStatelessReset, or a Retry operation is queued for it,
    or a connection is created for it. *)
Lemma DeliverDatagrams_cases (E : Env) (Datagram : QUIC_RECV_DATAGRAM)
    (Next : list QUIC_RECV_DATAGRAM) (DatagramChainLength : Z) (s s' : State)
    (ok : bool) :
  QuicBindingDeliverDatagrams E (Datagram :: Next) DatagramChainLength s = Some (s', ok) →
  (∃ c, lookup_of E Datagram s = Some c
      ∧ (s', ok) = deliver_to (Some c) (Datagram :: Next) (QuicConnAddRef c s))
  ∨ (lookup_of E Datagram s = None ∧ ok = false
     ∧ (s' = s ∨ ∃ Reason, s' = QuicPacketLogDrop Reason s))
  ∨ (lookup_of E Datagram s = None ∧ Exclusive (Binding s) = false
     ∧ IsShortHeader (Datagram_Packet Datagram) = true
     ∧ (s', ok) = QuicBindingQueueStatelessReset E Datagram Next s)
  ∨ (lookup_of E Datagram s = None ∧ Exclusive (Binding s) = false
     ∧ ∃ Packet',
         (s', ok) = QuicBindingQueueStatelessOperation E QUIC_OPER_TYPE_RETRY
                      (set_Packet Packet' Datagram) Next s)
  ∨ (∃ Packet' s2 Connection,
       admitted E Datagram s Packet'
       ∧ QuicBindingCreateConnection E (set_Packet Packet' Datagram) s
         = Some (s2, Connection)
       ∧ (s', ok) = deliver_to Connection (set_Packet Packet' Datagram :: Next) s2).
Proof.
  unfold QuicBindingDeliverDatagrams, admitted. lazy zeta. fold (lookup_of E Datagram s).
  intros Hdel.
  destruct (lookup_of E Datagram s) as [c|] eqn:Hlook.
  { injection Hdel as <- <-. left. by exists c. }
  right. cbn [lookup_result] in Hdel.
  destruct (Exclusive (Binding s)) eqn:Hex.
  { injection Hdel as <- <-. left. split_and!; try done. right. by eexists. }
  destruct (IsShortHeader (Datagram_Packet Datagram)) eqn:Hshort.
  { right. left. split_and!; try done. by injection Hdel as <-. }
  case_decide as Hvn.
  { injection Hdel as <- <-. left. split_and!; try done. right. by eexists. }
  destruct (is_v1_format_version _ && _) eqn:Hinit.
  { injection Hdel as <- <-. left. split_and!; try done. right. by eexists. }
  destruct (QuicPacketValidateLongHeaderV1 _) as [[P Token]|] eqn:Hval.
  2: { injection Hdel as <- <-. left. split_and!; try done. by left. }
  destruct (negb (QuicBindingHasListenerRegistered (Binding s))) eqn:Hlisten.
  { injection Hdel as <- <-. left. split_and!; try done. right. by eexists. }
  pose proof (ShouldRetryConnection_state (Env_Lib E) Datagram P (Z.of_nat (length Token))
                Token s) as Hstate.
  destruct (QuicBindingShouldRetryConnection _ _ _ _ _ _ _)
    as [[[s1 Packet'] DropPacket] Retry] eqn:Hsr.
  simpl in Hstate.
  destruct Hstate as [[-> ->]|(-> & -> & Reason & ->)].
  2: { injection Hdel as <- <-. left. split_and!; try done. right. by eexists. }
  destruct Retry.
  { right. right. left. split_and!; try done. exists Packet'.
    by injection Hdel as <-. }
  destruct (QuicBindingCreateConnection E (set_Packet Packet' Datagram) s)
    as [[s2 Connection]|] eqn:Hcc; [|done].
  simpl in Hdel. injection Hdel as Heq.
  right. right. right. exists Packet', s2, Connection.
  split; [|split; [done|by rewrite Heq]].
  split_and!; try done.
  - intros Hv1. rewrite Hv1 in Hinit. simpl in Hinit.
    by apply bool_decide_eq_false, dec_stable in Hinit.
  - by apply negb_false_iff in Hlisten.
  - by exists P, Token.
Qed.

Ltac unfold_connection_calls :=
  unfold CreateConnection_Exit, QuicConnRelease, clear_SourceCids, QuicConnAddRef,
    QuicWorkerAssignConnection, set_Paths0_Binding, QuicConnQueueOper,
    QuicConnQueueRecvDatagrams, QuicWorkerQueueConnection, QuicPacketLogDrop,
    alter_connection in *;
  simpl in *.

(** What QuicBindingCreateConnection leaves outside the connections. *)
Lemma CreateConnection_frame (E : Env) (Datagram : QUIC_RECV_DATAGRAM) (s s2 : State)
    (Connection : option ptr) :
  QuicBindingCreateConnection E Datagram s = Some (s2, Connection) →
  StatelessContexts s2 = StatelessContexts s
  ∧ WorkerOperQ s2 = WorkerOperQ s
  ∧ DatapathReturned s2 = DatapathReturned s.
Proof.
  unfold QuicBindingCreateConnection. intros Hcc.
  destruct (Env_ConnInitialize E) as [SourceCid|]; [|by injection Hcc as <- <-].
  destruct (Env_WorkerOverloaded E); [by injection Hcc as <- <-|].
  destruct (Env_TryAddRefBinding E); cbn [negb] in Hcc; [|by injection Hcc as <- <-].
  destruct (Env_AddRemoteHash E) as [|Existing|]; [by injection Hcc as <- <-| |done].
  unfold CreateConnection_Exit in Hcc.
  destruct (Connections _ !! Existing) as [C|]; [|done].
  case_decide; by injection Hcc as <- <-.
Qed.

(** A connection that existed before keeps its receive queue, and its
    reference count but for the reference that comes with the result. *)
Lemma CreateConnection_existing (E : Env) (Datagram : QUIC_RECV_DATAGRAM) (s s2 : State)
    (Connection : option ptr) (c : ptr) (C : QUIC_CONNECTION) :
  QuicBindingCreateConnection E Datagram s = Some (s2, Connection) →
  Connections s !! c = Some C →
  ∃ C', Connections s2 !! c = Some C'
      ∧ Conn_ReceiveQueue C' = Conn_ReceiveQueue C
      ∧ Conn_RefCount C'
        = Conn_RefCount C + (if decide (Connection = Some c) then 1 else 0).
Proof.
  unfold QuicBindingCreateConnection. intros Hcc Hc.
  destruct (Env_ConnInitialize E) as [SourceCid|].
  2: { injection Hcc as <- <-. exists C. rewrite decide_False by done.
       split; [done|]. split; [done|lia]. }
  set (New := fresh (dom (Connections s))) in *.
  assert (Hne : New ≠ c).
  { intros Heq. apply (is_fresh (dom (Connections s))). fold New. rewrite Heq.
    apply elem_of_dom. by exists C. }
  assert (Hnew : Some New ≠ Some c) by congruence.
  destruct (Env_WorkerOverloaded E).
  { injection Hcc as <- <-. unfold_connection_calls.
    rewrite !lookup_alter_ne, lookup_insert_ne by done.
    exists C. split; [done|]. split; [done|lia]. }
  destruct (Env_TryAddRefBinding E); cbn [negb] in Hcc.
  2: { injection Hcc as <- <-. unfold_connection_calls.
       rewrite !lookup_alter_ne, lookup_insert_ne by done.
       exists C. split; [done|]. split; [done|lia]. }
  destruct (Env_AddRemoteHash E) as [|Existing|]; [| |done].
  { injection Hcc as <- <-. unfold_connection_calls.
    rewrite !lookup_alter_ne, lookup_insert_ne by done.
    exists C. rewrite decide_False by done. split; [done|]. split; [done|lia]. }
  unfold CreateConnection_Exit in Hcc.
  destruct (Connections _ !! Existing) as [CE|] eqn:HE; [|done].
  destruct (decide (Existing = c)) as [->|Hother].
  - case_decide; injection Hcc as <- <-; unfold_connection_calls;
      rewrite ?(lookup_alter_ne _ _ New c) by done;
      rewrite ?lookup_alter_eq, ?(lookup_alter_ne _ _ New c) by done;
      rewrite ?lookup_alter_eq, ?(lookup_alter_ne _ _ New c), ?lookup_insert_ne by done;
      rewrite Hc; simpl; eexists; (split; [done|]); rewrite decide_True by done; done.
  - assert (Some Existing ≠ Some c) by congruence.
    case_decide; injection Hcc as <- <-; unfold_connection_calls;
      rewrite ?(lookup_alter_ne _ _ New c), ?(lookup_alter_ne _ _ Existing c) by done;
      rewrite ?(lookup_alter_ne _ _ New c), ?(lookup_alter_ne _ _ Existing c) by done;
      rewrite ?(lookup_alter_ne _ _ New c), ?(lookup_alter_ne _ _ Existing c),
        ?lookup_insert_ne by done;
      rewrite Hc; exists C; rewrite decide_False by done;
      (split; [done|]); (split; [done|lia]).
Qed.

Ltac lookup_new Existing New :=
  repeat (rewrite ?lookup_alter_eq, ?(lookup_alter_ne _ _ Existing New),
            ?lookup_insert_eq by done;
          simpl).

(** The connection that QuicBindingCreateConnection allocates: it is at the
    first free address, its receive queue is empty, it holds one reference
    if it took the reference on the binding (and is then queued, or
    waiting to be shut down) and none otherwise, plus the reference that
    comes with the result when it is the result; and the binding has one
    more reference exactly when the connection took it. *)
Lemma CreateConnection_new (E : Env) (Datagram : QUIC_RECV_DATAGRAM) (s s2 : State)
    (Connection : option ptr) :
  QuicBindingCreateConnection E Datagram s = Some (s2, Connection) →
  let New := fresh (dom (Connections s)) in
  match Env_ConnInitialize E with
  | None =>
      Connections s2 = Connections s ∧ Connection = None
      ∧ RefCount (Binding s2) = RefCount (Binding s)
  | Some _ =>
      dom (Connections s2) = {[New]} ∪ dom (Connections s)
      ∧ ∃ C', Connections s2 !! New = Some C'
            ∧ Conn_ReceiveQueue C' = []
            ∧ Conn_RefCount C'
              = (if Paths0_Binding C' then 1 else 0)
                + (if decide (Connection = Some New) then 1 else 0)
            ∧ RefCount (Binding s2)
              = RefCount (Binding s) + (if Paths0_Binding C' then 1 else 0)
  end.
Proof.
  intros Hcc New. unfold QuicBindingCreateConnection in Hcc.
  destruct (Env_ConnInitialize E) as [SourceCid|]; [|by injection Hcc as <- <-].
  fold New in Hcc.
  destruct (Env_WorkerOverloaded E).
  { injection Hcc as <- <-. unfold_connection_calls.
    rewrite !dom_alter_L, dom_insert_L. split; [done|].
    lookup_new New New. eexists. split; [done|]. simpl.
    split; [done|]. split; lia. }
  destruct (Env_TryAddRefBinding E); cbn [negb] in Hcc.
  2: { injection Hcc as <- <-. unfold_connection_calls.
       rewrite !dom_alter_L, dom_insert_L. split; [done|].
       lookup_new New New. eexists. split; [done|]. simpl.
       split; [done|]. split; lia. }
  destruct (Env_AddRemoteHash E) as [|Existing|]; [| |done].
  { injection Hcc as <- <-. unfold_connection_calls.
    rewrite !dom_alter_L, dom_insert_L. split; [done|].
    lookup_new New New. eexists. split; [done|]. simpl.
    rewrite decide_True by done. split; [done|]. split; lia. }
  unfold CreateConnection_Exit in Hcc.
  destruct (Connections _ !! Existing) as [CE|] eqn:HE; [|done].
  destruct (decide (Existing = New)) as [->|Hother].
  - case_decide; injection Hcc as <- <-; unfold_connection_calls;
      rewrite !dom_alter_L, dom_insert_L; (split; [done|]);
      lookup_new New New; eexists; (split; [done|]); simpl;
      rewrite decide_True by done; (split; [done|]); split; lia.
  - assert (Some Existing ≠ Some New) by congruence.
    case_decide; injection Hcc as <- <-; unfold_connection_calls;
      rewrite !dom_alter_L, dom_insert_L; (split; [done|]);
      lookup_new Existing New; eexists; (split; [done|]); simpl;
      rewrite decide_False by done; (split; [done|]); split; lia.
Qed.

Lemma CreateConnection_result_live (E : Env) (Datagram : QUIC_RECV_DATAGRAM)
    (s s2 : State) (c : ptr) :
  QuicBindingCreateConnection E Datagram s = Some (s2, Some c) →
  c ∈ dom (Connections s2).
Proof.
  unfold QuicBindingCreateConnection. intros Hcc.
  destruct (Env_ConnInitialize E) as [SourceCid|]; [|done].
  destruct (Env_WorkerOverloaded E); [done|].
  destruct (Env_TryAddRefBinding E); cbn [negb] in Hcc; [|done].
  destruct (Env_AddRemoteHash E) as [|Existing|]; [| |done].
  { injection Hcc as <- <-. unfold_connection_calls.
    rewrite !dom_alter_L, dom_insert_L. set_solver. }
  unfold CreateConnection_Exit in Hcc.
  destruct (Connections _ !! Existing) as [CE|] eqn:HE; [|done].
  apply elem_of_dom_2 in HE.
  case_decide; injection Hcc as <- <-; [|done].
  unfold QuicConnQueueOper. by rewrite !alter_connection_dom.
Qed.

Lemma CreateConnection_queues (E : Env) (Datagram : QUIC_RECV_DATAGRAM) (s s2 : State)
    (Connection : option ptr) (c : ptr) :
  QuicBindingCreateConnection E Datagram s = Some (s2, Connection) →
  ReceiveQueue s2 c = ReceiveQueue s c.
Proof.
  intros Hcc. unfold ReceiveQueue.
  destruct (Connections s !! c) as [C|] eqn:Hc.
  { destruct (CreateConnection_existing E Datagram s s2 Connection c C Hcc Hc)
      as (C' & -> & Hq & _). simpl. by rewrite Hq. }
  pose proof (CreateConnection_new E Datagram s s2 Connection Hcc) as Hnew.
  simpl in Hnew. destruct (Env_ConnInitialize E).
  - destruct Hnew as (Hdom & C' & HC' & Hq & _).
    destruct (decide (c = fresh (dom (Connections s)))) as [->|Hne].
    + rewrite HC'. simpl. by rewrite Hq.
    + assert (Hnot : c ∉ dom (Connections s2)).
      { rewrite Hdom, elem_of_union, elem_of_singleton.
        apply not_elem_of_dom in Hc. by intros [?|?]. }
      apply not_elem_of_dom in Hnot. by rewrite Hnot.
  - destruct Hnew as (-> & _). by rewrite Hc.
Qed.

Lemma deliver_to_queue (c : ptr) (Chain : list QUIC_RECV_DATAGRAM) (s : State) :
  c ∈ dom (Connections s) →
  ReceiveQueue (deliver_to (Some c) Chain s).1 c = ReceiveQueue s c ++ Chain
  ∧ ∀ c', c' ≠ c → ReceiveQueue (deliver_to (Some c) Chain s).1 c' = ReceiveQueue s c'.
Proof.
  intros [C HC]%elem_of_dom. unfold ReceiveQueue. simpl. unfold_connection_calls. split.
  - by rewrite !lookup_alter_eq, HC.
  - intros c' Hne. by rewrite !lookup_alter_ne.
Qed.

Lemma QueueStatelessOperation_RefCount (E : Env) (OperType : QUIC_OPERATION_TYPE)
    (Datagram : QUIC_RECV_DATAGRAM) (Next : list QUIC_RECV_DATAGRAM) (s : State) :
  RefCount (Binding (QuicBindingQueueStatelessOperation E OperType Datagram Next s).1)
  = RefCount (Binding s).
Proof.
  assert (Hage : ∀ fuel T s0, RefCount (Binding (age_out fuel T s0)) = RefCount (Binding s0)).
  { induction fuel as [|fuel IH]; intros T s0; simpl; [done|].
    destruct (StatelessOperList (Binding s0)) as [|p rest]; [done|].
    destruct (StatelessContexts s0 !! p) as [c|]; [|done].
    case_decide; [done|]. by rewrite IH. }
  destruct (QueueStatelessOperation_cases E OperType Datagram Next s)
    as [[_ ->]|_]; [simpl; apply Hage|].
  unfold QuicBindingQueueStatelessOperation.
  destruct (Env_WorkerPoolNull E); simpl; [done|].
  destruct (Env_WorkerOverloaded E); simpl; [done|].
  destruct (CreateStatelessOperation_cases E (Env_Worker E) Datagram Next s)
    as [(Reason & -> & _)|(-> & _ & _)]; simpl; [apply Hage|].
  destruct (Env_OperAllocOk E); simpl; [apply Hage|].
  unfold QuicBindingReleaseStatelessOperation, inserted. simpl.
  rewrite lookup_insert_eq. simpl. apply Hage.
Qed.

Lemma QueueStatelessReset_cases (E : Env) (Datagram : QUIC_RECV_DATAGRAM)
    (Next : list QUIC_RECV_DATAGRAM) (s : State) :
  (∃ Reason, QuicBindingQueueStatelessReset E Datagram Next s
             = (QuicPacketLogDrop Reason s, false))
  ∨ QuicBindingQueueStatelessReset E Datagram Next s
    = QuicBindingQueueStatelessOperation E QUIC_OPER_TYPE_STATELESS_RESET Datagram Next s.
Proof.
  unfold QuicBindingQueueStatelessReset.
  case_decide; [left; by eexists|].
  destruct (Exclusive (Binding s)); [left; by eexists|by right].
Qed.

(** X10.  A connection is created by QuicBindingDeliverDatagrams only for a
    chain that no connection claims, on a binding that is not exclusive
    and has a listener, when the first packet has a long header of a
    version other than version negotiation, is an Initial packet if it is
    of a version-1 format, passes the long header validation, and is
    neither answered with a Retry nor dropped for its token; in every
    other case the set of connections is as before. *)
Theorem connection_created_only_when_admitted (E : Env) (Datagram : QUIC_RECV_DATAGRAM)
    (Next : list QUIC_RECV_DATAGRAM) (DatagramChainLength : Z) (s s' : State)
    (ok : bool) :
  QuicBindingDeliverDatagrams E (Datagram :: Next) DatagramChainLength s = Some (s', ok) →
  dom (Connections s') ≠ dom (Connections s) →
  Env_ConnInitialize E ≠ None
  ∧ ∃ Packet', admitted E Datagram s Packet'.
Proof.
  intros Hdel Hdom.
  destruct (DeliverDatagrams_cases _ _ _ _ _ _ _ Hdel)
    as [(c & _ & Heq)|[(_ & _ & Hs)|[(_ & _ & _ & Heq)|[(_ & _ & P' & Heq)
        |(P' & s2 & Conn & Hadm & Hcc & Heq)]]]].
  - exfalso. apply Hdom. injection Heq as -> _. unfold_connection_calls.
    by rewrite !dom_alter_L.
  - exfalso. apply Hdom. by destruct Hs as [->|[Reason ->]].
  - exfalso. apply Hdom.
    pose proof (QueueStatelessReset_Connections E Datagram Next s) as Hc.
    rewrite <- Heq in Hc. simpl in Hc. by rewrite Hc.
  - exfalso. apply Hdom.
    pose proof (QueueStatelessOperation_Connections E QUIC_OPER_TYPE_RETRY
                  (set_Packet P' Datagram) Next s) as Hc.
    rewrite <- Heq in Hc. simpl in Hc. by rewrite Hc.
  - split; [|by exists P'].
    intros Hinit. apply Hdom.
    pose proof (CreateConnection_new _ _ _ _ _ Hcc) as Hnew. simpl in Hnew.
    rewrite Hinit in Hnew. destruct Hnew as (Hconn & -> & _).
    injection Heq as -> _. by rewrite Hconn.
Qed.

(** The chain [Chain] has been handed over in [s']: to the receive queue
    of one connection, or to the context of a newly queued stateless
    operation. *)
Definition handed_over (Chain : list QUIC_RECV_DATAGRAM) (s s' : State) : Prop :=
  (∃ c, c ∈ dom (Connections s')
      ∧ handles (ReceiveQueue s' c) = handles (ReceiveQueue s c) ++ handles Chain
      ∧ (∀ c', c' ≠ c → ReceiveQueue s' c' = ReceiveQueue s c')
      ∧ WorkerOperQ s' = WorkerOperQ s
      ∧ holds_no_more s s')
  ∨ (∃ p ctx Oper,
       WorkerOperQ s' = WorkerOperQ s ++ [Oper]
       ∧ STATELESS_Context Oper = Some p
       ∧ StatelessContexts s' !! p = Some ctx
       ∧ handles (Ctx_Datagram ctx) = handles Chain
       ∧ ∀ c, ReceiveQueue s' c = ReceiveQueue s c).

(** Nothing in [s'] holds a datagram that it did not hold in [s]. *)
Definition not_taken (s s' : State) : Prop :=
  WorkerOperQ s' = WorkerOperQ s
  ∧ holds_no_more s s'
  ∧ ∀ c, ReceiveQueue s' c = ReceiveQueue s c.

Lemma QueueStatelessOperation_hands_over (E : Env) (OperType : QUIC_OPERATION_TYPE)
    (Datagram : QUIC_RECV_DATAGRAM) (Next : list QUIC_RECV_DATAGRAM) (s : State) :
  let r := QuicBindingQueueStatelessOperation E OperType Datagram Next s in
  DatapathReturned r.1 = DatapathReturned s
  ∧ if r.2 then handed_over (Datagram :: Next) s r.1 else not_taken s r.1.
Proof.
  intros r.
  pose proof (QueueStatelessOperation_outcome E OperType Datagram Next s) as [Hd Hout].
  pose proof (QueueStatelessOperation_Connections E OperType Datagram Next s) as Hc.
  fold r in Hd, Hout, Hc. split; [done|].
  assert (Hqueues : ∀ c, ReceiveQueue r.1 c = ReceiveQueue s c).
  { intros c. unfold ReceiveQueue. by rewrite Hc. }
  destruct r.2.
  - destruct Hout as (p & ctx & Hq & Hp & _ & Hchain & _).
    right. eexists p, ctx, _. split; [exact Hq|]. split; [done|]. split; [done|].
    split; [by rewrite Hchain|done].
  - destruct Hout as [Hq Hh]. by split.
Qed.

(** X11.  QuicBindingDeliverDatagrams takes the chain exactly when it
    returns TRUE.  The chain is then at the end of the receive queue of one
    connection (the one the lookup found, the new one, or the one that a
    collision turned up), or it is held by the context of a stateless
    reset or Retry operation that has just been queued.  When the result
    is FALSE no receive queue has changed, no operation is queued and no
    context holds a chain it did not hold before.  No path returns a
    datagram to the datapath: that is left to the caller.  The lookup is
    taken to find live connections only. *)
Theorem DeliverDatagrams_takes_chain_iff_true (E : Env) (Datagram : QUIC_RECV_DATAGRAM)
    (Next : list QUIC_RECV_DATAGRAM) (DatagramChainLength : Z) (s s' : State)
    (ok : bool) :
  lookups_live E s →
  QuicBindingDeliverDatagrams E (Datagram :: Next) DatagramChainLength s = Some (s', ok) →
  DatapathReturned s' = DatapathReturned s
  ∧ if ok then handed_over (Datagram :: Next) s s' else not_taken s s'.
Proof.
  intros (Hlive1 & Hlive2 & _) Hdel.
  destruct (DeliverDatagrams_cases _ _ _ _ _ _ _ Hdel)
    as [(c & Hlook & Heq)|[(_ & -> & Hs)|[(_ & _ & _ & Heq)|[(_ & _ & P' & Heq)
        |(P' & s2 & Conn & Hadm & Hcc & Heq)]]]].
  - assert (Hin : c ∈ dom (Connections (QuicConnAddRef c s))).
    { unfold QuicConnAddRef. rewrite alter_connection_dom.
      unfold lookup_of in Hlook. destruct (_ || _); auto. }
    destruct (deliver_to_queue c (Datagram :: Next) _ Hin) as [Hq Hother].
    rewrite <- Heq in Hq, Hother. simpl in Hq, Hother.
    assert (Hadd : ∀ c', ReceiveQueue (QuicConnAddRef c s) c' = ReceiveQueue s c').
    { intros c'. unfold ReceiveQueue. unfold_connection_calls.
      destruct (decide (c = c')) as [->|Hne].
      - rewrite lookup_alter_eq. by destruct (Connections s !! c').
      - by rewrite lookup_alter_ne. }
    injection Heq as -> ->. split; [done|]. left. exists c. split_and!.
    + unfold_connection_calls. by rewrite !dom_alter_L in *.
    + rewrite Hq, Hadd. unfold handles. by rewrite fmap_app.
    + intros c' Hne. by rewrite Hother, Hadd.
    + done.
    + by apply holds_no_more_same.
  - assert (Hsame : StatelessContexts s' = StatelessContexts s
                    ∧ Connections s' = Connections s
                    ∧ WorkerOperQ s' = WorkerOperQ s
                    ∧ DatapathReturned s' = DatapathReturned s).
    { by destruct Hs as [->|[Reason ->]]. }
    destruct Hsame as (Hh & Hc & Hq & Hd). split; [done|].
    split; [done|]. split; [by apply holds_no_more_same|].
    intros c. unfold ReceiveQueue. by rewrite Hc.
  - destruct (QueueStatelessReset_cases E Datagram Next s) as [[Reason Hr]|Hr];
      rewrite Hr in Heq.
    + injection Heq as -> ->. split; [done|].
      split; [done|]. split; [by apply holds_no_more_same|done].
    + pose proof (QueueStatelessOperation_hands_over E QUIC_OPER_TYPE_STATELESS_RESET
                    Datagram Next s) as Hout.
      rewrite <- Heq in Hout. exact Hout.
  - pose proof (QueueStatelessOperation_hands_over E QUIC_OPER_TYPE_RETRY
                  (set_Packet P' Datagram) Next s) as Hout.
    rewrite <- Heq in Hout. exact Hout.
  - destruct (CreateConnection_frame _ _ _ _ _ Hcc) as (Hh & Hq & Hd).
    pose proof (λ c, CreateConnection_queues _ _ _ _ _ c Hcc) as Hqueues.
    destruct Conn as [c|].
    + pose proof (CreateConnection_result_live _ _ _ _ _ Hcc) as Hin.
      destruct (deliver_to_queue c (set_Packet P' Datagram :: Next) _ Hin)
        as [Hqc Hother].
      rewrite <- Heq in Hqc, Hother. simpl in Hqc, Hother.
      injection Heq as -> ->. split; [done|]. left. exists c. split_and!.
      * unfold_connection_calls. by rewrite !dom_alter_L in *.
      * rewrite Hqc, Hqueues. unfold handles. by rewrite fmap_app.
      * intros c' Hne. by rewrite Hother, Hqueues.
      * done.
      * by apply holds_no_more_same.
    + injection Heq as -> ->. split; [done|].
      split; [done|]. split; [by apply holds_no_more_same|done].
Qed.

End ConnectionFacts.

(** The Initial packet of version 1 for CID 5, parsed as preprocessing
    leaves it. *)
Definition initial_datagram : QUIC_RECV_DATAGRAM :=
  let D := test_datagram 1%positive [2; 9] [192; 1; 5] 1200 in
  match test_parse true (Datagram_Packet D) with
  | Some P => set_Packet P D
  | None => D
  end.

(** On the binding with a listener the Initial packet is admitted and the
    first connection is created. *)
Lemma connection_created_only_when_admitted_witness :
  match QuicBindingDeliverDatagrams (test_env 0) [initial_datagram] 1 listening_state with
  | Some (s', ok) =>
      dom (Connections s') = {[ 1%positive ]}
      ∧ Env_ConnInitialize (test_env 0) ≠ None
      ∧ ∃ Packet', admitted (test_env 0) initial_datagram listening_state Packet'
  | None => False
  end.
Proof.
  destruct (QuicBindingDeliverDatagrams (test_env 0) [initial_datagram] 1 listening_state)
    as [[s' ok]|] eqn:Hdel; [|vm_compute in Hdel; discriminate Hdel].
  assert (Hdom : dom (Connections s') = {[ 1%positive ]}).
  { vm_compute in Hdel. injection Hdel as <- _. by vm_compute. }
  split; [exact Hdom|].
  apply (connection_created_only_when_admitted (H := test_platform) (test_env 0)
           initial_datagram [] 1 listening_state s' ok Hdel).
  rewrite Hdom. intros Heq.
  assert (Hin : 1%positive ∈ dom (Connections listening_state)).
  { rewrite <- Heq. by apply elem_of_singleton. }
  apply elem_of_dom in Hin as [C HC]. vm_compute in HC. discriminate HC.
Defined.

(** The same delivery hands the datagram to the receive queue of the new
    connection. *)
Lemma DeliverDatagrams_takes_chain_iff_true_witness :
  match QuicBindingDeliverDatagrams (test_env 0) [initial_datagram] 1 listening_state with
  | Some (s', ok) =>
      ok = true
      ∧ handles (ReceiveQueue s' 1%positive) = [1%positive]
      ∧ DatapathReturned s' = DatapathReturned listening_state
      ∧ handed_over [initial_datagram] listening_state s'
  | None => False
  end.
Proof.
  destruct (QuicBindingDeliverDatagrams (test_env 0) [initial_datagram] 1 listening_state)
    as [[s' ok]|] eqn:Hdel; [|vm_compute in Hdel; discriminate Hdel].
  assert (Hok : ok = true ∧ handles (ReceiveQueue s' 1%positive) = [1%positive]).
  { vm_compute in Hdel. injection Hdel as <- <-. by vm_compute. }
  destruct Hok as [-> Hq]. split; [done|]. split; [exact Hq|].
  apply (DeliverDatagrams_takes_chain_iff_true (H := test_platform) (test_env 0)
           initial_datagram [] 1 listening_state s' true); [|exact Hdel].
  split_and!; intros c Hc; discriminate Hc.
Defined.
